(** * fsck.c: the object integrity checker

    A shallow embedding of [fsck.c] (message catalog, severity policy,
    reporter, tree / header / identity-line validators, walker) and the
    properties of it that the specification states.

    Conventions.
    - A C string ([const char *]) is a [string]; its characters are the
      bytes before the terminating NUL.  A sized buffer ([data], [size])
      is a [string] too, of length [size], and may contain NUL bytes; a
      read at or past its end yields NUL (object buffers are always
      followed by a NUL byte).
    - [int] values are in [Z].
    - The severities are compared for equality only, so the five
      [FSCK_*] message types form an enumeration.
    - [die] ends the process: functions that can reach it return in the
      [M] monad, whose results are [Ok] or [Died]. *)

From Stdlib Require Import ZArith Ascii String List Lia Bool.
From stdpp Require Import base list strings pretty.

Set Warnings "-register-all".

Open Scope Z_scope.
Open Scope string_scope.

(** ** Characters and C strings *)

Definition byte_val (c : ascii) : N := N_of_ascii c.

Definition NUL : ascii := "000"%char.
Definition LF : ascii := "010"%char.

Definition is_nul (c : ascii) : bool := Ascii.eqb c NUL.

(** [tolower] of the C locale. *)
Definition tolower (c : ascii) : ascii :=
  if ((65 <=? byte_val c)%N && (byte_val c <=? 90)%N)%bool
  then ascii_of_N (byte_val c + 32) else c.

(** [isdigit]. *)
Definition isdigit (c : ascii) : bool :=
  ((48 <=? byte_val c)%N && (byte_val c <=? 57)%N)%bool.

(** [s[i]]: the byte at offset [i], NUL at or past the end. *)
Definition char_at (s : string) (i : nat) : ascii :=
  match String.get i s with Some c => c | None => NUL end.

(** [s + i]: the string from offset [i] on. *)
Fixpoint advance (i : nat) (s : string) : string :=
  match i, s with
  | O, _ => s
  | S i', String _ s' => advance i' s'
  | S _, EmptyString => EmptyString
  end.

(** The first [i] bytes of [s]. *)
Fixpoint take_bytes (i : nat) (s : string) : string :=
  match i, s with
  | S i', String c s' => String c (take_bytes i' s')
  | _, _ => EmptyString
  end.

(** The C string that a buffer holds: its bytes up to the first NUL. *)
Fixpoint c_str (s : string) : string :=
  match s with
  | EmptyString => EmptyString
  | String c s' => if is_nul c then EmptyString else String c (c_str s')
  end.

Fixpoint mem_char (c : ascii) (set : string) : bool :=
  match set with
  | EmptyString => false
  | String d set' => (Ascii.eqb c d || mem_char c set')%bool
  end.

(** [strcspn (s, reject)] on a C string [s]. *)
Fixpoint strcspn (s reject : string) : nat :=
  match s with
  | EmptyString => O
  | String c s' => if mem_char c reject then O else S (strcspn s' reject)
  end.

(** [skip_prefix (str, prefix, &out)]: the rest of [str] when it starts
    with [prefix]. *)
Fixpoint skip_prefix (str prefix : string) : option string :=
  match prefix, str with
  | EmptyString, _ => Some str
  | String p prefix', String c str' =>
      if Ascii.eqb p c then skip_prefix str' prefix' else None
  | String _ _, EmptyString => None
  end.

(** [strchr (s, c) != NULL], and the offset of the match. *)
Fixpoint strchr (s : string) (c : ascii) : option nat :=
  match s with
  | EmptyString => None
  | String d s' => if Ascii.eqb d c then Some O else S <$> strchr s' c
  end.

(** [memcmp (a, b, n)] on the first [n] bytes, as unsigned bytes; the
    sign of the result is all the callers use. *)
Fixpoint memcmp (a b : string) (n : nat) : Z :=
  match n with
  | O => 0
  | S n' =>
      let c1 := char_at a 0 in
      let c2 := char_at b 0 in
      if (byte_val c1 <? byte_val c2)%N then -1
      else if (byte_val c2 <? byte_val c1)%N then 1
      else memcmp (advance 1 a) (advance 1 b) n'
  end.

(** ** The message catalog *)

(** [FSCK_ERROR], [FSCK_WARN], [FSCK_IGNORE] come from fsck.h; fsck.c adds
    [FSCK_FATAL] and [FSCK_INFO]. *)
Inductive msg_type : Set :=
  | FSCK_FATAL | FSCK_INFO | FSCK_ERROR | FSCK_WARN | FSCK_IGNORE.

#[global] Instance msg_type_eq_dec : EqDecision msg_type.
Proof. solve_decision. Defined.

(** [enum fsck_msg_id], in the order of [FOREACH_MSG_ID]. *)
Inductive fsck_msg_id : Set :=
  (* fatal errors *)
  | FSCK_MSG_NUL_IN_HEADER
  | FSCK_MSG_UNTERMINATED_HEADER
  (* errors *)
  | FSCK_MSG_BAD_DATE
  | FSCK_MSG_BAD_DATE_OVERFLOW
  | FSCK_MSG_BAD_EMAIL
  | FSCK_MSG_BAD_NAME
  | FSCK_MSG_BAD_OBJECT_SHA1
  | FSCK_MSG_BAD_PARENT_SHA1
  | FSCK_MSG_BAD_TAG_OBJECT
  | FSCK_MSG_BAD_TIMEZONE
  | FSCK_MSG_BAD_TREE
  | FSCK_MSG_BAD_TREE_SHA1
  | FSCK_MSG_BAD_TYPE
  | FSCK_MSG_DUPLICATE_ENTRIES
  | FSCK_MSG_MISSING_AUTHOR
  | FSCK_MSG_MISSING_COMMITTER
  | FSCK_MSG_MISSING_EMAIL
  | FSCK_MSG_MISSING_GRAFT
  | FSCK_MSG_MISSING_NAME_BEFORE_EMAIL
  | FSCK_MSG_MISSING_OBJECT
  | FSCK_MSG_MISSING_PARENT
  | FSCK_MSG_MISSING_SPACE_BEFORE_DATE
  | FSCK_MSG_MISSING_SPACE_BEFORE_EMAIL
  | FSCK_MSG_MISSING_TAG
  | FSCK_MSG_MISSING_TAG_ENTRY
  | FSCK_MSG_MISSING_TAG_OBJECT
  | FSCK_MSG_MISSING_TREE
  | FSCK_MSG_MISSING_TYPE
  | FSCK_MSG_MISSING_TYPE_ENTRY
  | FSCK_MSG_MULTIPLE_AUTHORS
  | FSCK_MSG_TAG_OBJECT_NOT_TAG
  | FSCK_MSG_TREE_NOT_SORTED
  | FSCK_MSG_UNKNOWN_TYPE
  | FSCK_MSG_ZERO_PADDED_DATE
  (* warnings *)
  | FSCK_MSG_BAD_FILEMODE
  | FSCK_MSG_EMPTY_NAME
  | FSCK_MSG_FULL_PATHNAME
  | FSCK_MSG_HAS_DOT
  | FSCK_MSG_HAS_DOTDOT
  | FSCK_MSG_HAS_DOTGIT
  | FSCK_MSG_NULL_SHA1
  | FSCK_MSG_ZERO_PADDED_FILEMODE
  (* infos (reported as warnings, but ignored by default) *)
  | FSCK_MSG_BAD_TAG_NAME
  | FSCK_MSG_MISSING_TAGGER_ENTRY.

#[global] Instance fsck_msg_id_eq_dec : EqDecision fsck_msg_id.
Proof. solve_decision. Defined.

(** The values [0 .. FSCK_MSG_MAX - 1] in increasing order: what the loops
    [for (i = 0; i < FSCK_MSG_MAX; i++)] run over. *)
Definition all_msg_ids : list fsck_msg_id :=
  [ FSCK_MSG_NUL_IN_HEADER; FSCK_MSG_UNTERMINATED_HEADER;
    FSCK_MSG_BAD_DATE; FSCK_MSG_BAD_DATE_OVERFLOW; FSCK_MSG_BAD_EMAIL;
    FSCK_MSG_BAD_NAME; FSCK_MSG_BAD_OBJECT_SHA1; FSCK_MSG_BAD_PARENT_SHA1;
    FSCK_MSG_BAD_TAG_OBJECT; FSCK_MSG_BAD_TIMEZONE; FSCK_MSG_BAD_TREE;
    FSCK_MSG_BAD_TREE_SHA1; FSCK_MSG_BAD_TYPE; FSCK_MSG_DUPLICATE_ENTRIES;
    FSCK_MSG_MISSING_AUTHOR; FSCK_MSG_MISSING_COMMITTER;
    FSCK_MSG_MISSING_EMAIL; FSCK_MSG_MISSING_GRAFT;
    FSCK_MSG_MISSING_NAME_BEFORE_EMAIL; FSCK_MSG_MISSING_OBJECT;
    FSCK_MSG_MISSING_PARENT; FSCK_MSG_MISSING_SPACE_BEFORE_DATE;
    FSCK_MSG_MISSING_SPACE_BEFORE_EMAIL; FSCK_MSG_MISSING_TAG;
    FSCK_MSG_MISSING_TAG_ENTRY; FSCK_MSG_MISSING_TAG_OBJECT;
    FSCK_MSG_MISSING_TREE; FSCK_MSG_MISSING_TYPE;
    FSCK_MSG_MISSING_TYPE_ENTRY; FSCK_MSG_MULTIPLE_AUTHORS;
    FSCK_MSG_TAG_OBJECT_NOT_TAG; FSCK_MSG_TREE_NOT_SORTED;
    FSCK_MSG_UNKNOWN_TYPE; FSCK_MSG_ZERO_PADDED_DATE;
    FSCK_MSG_BAD_FILEMODE; FSCK_MSG_EMPTY_NAME; FSCK_MSG_FULL_PATHNAME;
    FSCK_MSG_HAS_DOT; FSCK_MSG_HAS_DOTDOT; FSCK_MSG_HAS_DOTGIT;
    FSCK_MSG_NULL_SHA1; FSCK_MSG_ZERO_PADDED_FILEMODE;
    FSCK_MSG_BAD_TAG_NAME; FSCK_MSG_MISSING_TAGGER_ENTRY ].

Definition FSCK_MSG_MAX : nat := length all_msg_ids.

(** One row of [msg_id_info]: [{ STR(id), NULL, FSCK_##msg_type }].  The
    [downcased] column is filled in by [parse_msg_id] from [id_string]
    alone, so it is the function [downcased] below. *)
Record msg_id_entry : Set := MSG_ID {
  id_string : string;
  default_msg_type : msg_type
}.

Definition msg_id_info (id : fsck_msg_id) : msg_id_entry :=
  match id with
  | FSCK_MSG_NUL_IN_HEADER => MSG_ID "NUL_IN_HEADER" FSCK_FATAL
  | FSCK_MSG_UNTERMINATED_HEADER => MSG_ID "UNTERMINATED_HEADER" FSCK_FATAL
  | FSCK_MSG_BAD_DATE => MSG_ID "BAD_DATE" FSCK_ERROR
  | FSCK_MSG_BAD_DATE_OVERFLOW => MSG_ID "BAD_DATE_OVERFLOW" FSCK_ERROR
  | FSCK_MSG_BAD_EMAIL => MSG_ID "BAD_EMAIL" FSCK_ERROR
  | FSCK_MSG_BAD_NAME => MSG_ID "BAD_NAME" FSCK_ERROR
  | FSCK_MSG_BAD_OBJECT_SHA1 => MSG_ID "BAD_OBJECT_SHA1" FSCK_ERROR
  | FSCK_MSG_BAD_PARENT_SHA1 => MSG_ID "BAD_PARENT_SHA1" FSCK_ERROR
  | FSCK_MSG_BAD_TAG_OBJECT => MSG_ID "BAD_TAG_OBJECT" FSCK_ERROR
  | FSCK_MSG_BAD_TIMEZONE => MSG_ID "BAD_TIMEZONE" FSCK_ERROR
  | FSCK_MSG_BAD_TREE => MSG_ID "BAD_TREE" FSCK_ERROR
  | FSCK_MSG_BAD_TREE_SHA1 => MSG_ID "BAD_TREE_SHA1" FSCK_ERROR
  | FSCK_MSG_BAD_TYPE => MSG_ID "BAD_TYPE" FSCK_ERROR
  | FSCK_MSG_DUPLICATE_ENTRIES => MSG_ID "DUPLICATE_ENTRIES" FSCK_ERROR
  | FSCK_MSG_MISSING_AUTHOR => MSG_ID "MISSING_AUTHOR" FSCK_ERROR
  | FSCK_MSG_MISSING_COMMITTER => MSG_ID "MISSING_COMMITTER" FSCK_ERROR
  | FSCK_MSG_MISSING_EMAIL => MSG_ID "MISSING_EMAIL" FSCK_ERROR
  | FSCK_MSG_MISSING_GRAFT => MSG_ID "MISSING_GRAFT" FSCK_ERROR
  | FSCK_MSG_MISSING_NAME_BEFORE_EMAIL =>
      MSG_ID "MISSING_NAME_BEFORE_EMAIL" FSCK_ERROR
  | FSCK_MSG_MISSING_OBJECT => MSG_ID "MISSING_OBJECT" FSCK_ERROR
  | FSCK_MSG_MISSING_PARENT => MSG_ID "MISSING_PARENT" FSCK_ERROR
  | FSCK_MSG_MISSING_SPACE_BEFORE_DATE =>
      MSG_ID "MISSING_SPACE_BEFORE_DATE" FSCK_ERROR
  | FSCK_MSG_MISSING_SPACE_BEFORE_EMAIL =>
      MSG_ID "MISSING_SPACE_BEFORE_EMAIL" FSCK_ERROR
  | FSCK_MSG_MISSING_TAG => MSG_ID "MISSING_TAG" FSCK_ERROR
  | FSCK_MSG_MISSING_TAG_ENTRY => MSG_ID "MISSING_TAG_ENTRY" FSCK_ERROR
  | FSCK_MSG_MISSING_TAG_OBJECT => MSG_ID "MISSING_TAG_OBJECT" FSCK_ERROR
  | FSCK_MSG_MISSING_TREE => MSG_ID "MISSING_TREE" FSCK_ERROR
  | FSCK_MSG_MISSING_TYPE => MSG_ID "MISSING_TYPE" FSCK_ERROR
  | FSCK_MSG_MISSING_TYPE_ENTRY => MSG_ID "MISSING_TYPE_ENTRY" FSCK_ERROR
  | FSCK_MSG_MULTIPLE_AUTHORS => MSG_ID "MULTIPLE_AUTHORS" FSCK_ERROR
  | FSCK_MSG_TAG_OBJECT_NOT_TAG => MSG_ID "TAG_OBJECT_NOT_TAG" FSCK_ERROR
  | FSCK_MSG_TREE_NOT_SORTED => MSG_ID "TREE_NOT_SORTED" FSCK_ERROR
  | FSCK_MSG_UNKNOWN_TYPE => MSG_ID "UNKNOWN_TYPE" FSCK_ERROR
  | FSCK_MSG_ZERO_PADDED_DATE => MSG_ID "ZERO_PADDED_DATE" FSCK_ERROR
  | FSCK_MSG_BAD_FILEMODE => MSG_ID "BAD_FILEMODE" FSCK_WARN
  | FSCK_MSG_EMPTY_NAME => MSG_ID "EMPTY_NAME" FSCK_WARN
  | FSCK_MSG_FULL_PATHNAME => MSG_ID "FULL_PATHNAME" FSCK_WARN
  | FSCK_MSG_HAS_DOT => MSG_ID "HAS_DOT" FSCK_WARN
  | FSCK_MSG_HAS_DOTDOT => MSG_ID "HAS_DOTDOT" FSCK_WARN
  | FSCK_MSG_HAS_DOTGIT => MSG_ID "HAS_DOTGIT" FSCK_WARN
  | FSCK_MSG_NULL_SHA1 => MSG_ID "NULL_SHA1" FSCK_WARN
  | FSCK_MSG_ZERO_PADDED_FILEMODE => MSG_ID "ZERO_PADDED_FILEMODE" FSCK_WARN
  | FSCK_MSG_BAD_TAG_NAME => MSG_ID "BAD_TAG_NAME" FSCK_INFO
  | FSCK_MSG_MISSING_TAGGER_ENTRY => MSG_ID "MISSING_TAGGER_ENTRY" FSCK_INFO
  end.

(** The inner loop of [parse_msg_id]'s initialisation: copy [p] to [q],
    skipping every ['_'] and lower-casing every other character. *)
Fixpoint downcase_id (p : string) : string :=
  match p with
  | EmptyString => EmptyString
  | String c p' =>
      if Ascii.eqb c "_" then downcase_id p'
      else String (tolower c) (downcase_id p')
  end.

(** [msg_id_info[i].downcased] once initialised. *)
Definition downcased (id : fsck_msg_id) : string :=
  downcase_id (id_string (msg_id_info id)).

(** [parse_msg_id]: the first [i] with [!strcmp (text, downcased)];
    [None] is the C function's [-1]. *)
Definition parse_msg_id (text : string) : option fsck_msg_id :=
  List.find (fun i => String.eqb text (downcased i)) all_msg_ids.

(** ** Objects *)

(** A 20-byte object name ([unsigned char hash[20]]). *)
Definition sha1 : Set := string.

(** [hashcmp]: [memcmp] over the 20 bytes. *)
Definition hashcmp (a b : sha1) : Z := memcmp a b 20.

(** [is_null_oid]: all 20 bytes are zero. *)
Definition is_null_sha1 (h : sha1) : bool :=
  forallb is_nul (list_ascii_of_string (take_bytes 20 h))
  && Nat.eqb (String.length (take_bytes 20 h)) 20.

(** [enum object_type], as far as fsck.c tells its values apart; any
    other value of the [type] field is [OBJ_OTHER]. *)
Inductive object_type : Set :=
  | OBJ_COMMIT | OBJ_TREE | OBJ_BLOB | OBJ_TAG | OBJ_ANY
  | OBJ_OTHER (code : Z).

(** One decoded tree entry, as [tree_entry_extract] hands it out:
    [first_byte] is the byte [desc.buffer] points at (the first character
    of the serialized mode field). *)
Record tree_entry : Set := mk_tree_entry {
  first_byte : ascii;
  entry_mode : Z;
  entry_name : string;
  entry_oid : sha1
}.

(** [struct object] and the structs that begin with it.  [parsed] is the
    value the host's [parse_tree] / [parse_commit] / [parse_tag] returns
    for the object; the other fields are the members fsck.c reads. *)
Inductive object : Set :=
  | Blob (oid : sha1)
  | Tree (oid : sha1) (parsed : Z) (buffer : list tree_entry)
  | Commit (oid : sha1) (parsed : Z) (tree : option object)
      (parents : list object)
  | Tag (oid : sha1) (parsed : Z) (tagged : option object)
  | Unknown (type : Z) (oid : sha1).

Definition obj_type (o : object) : object_type :=
  match o with
  | Blob _ => OBJ_BLOB
  | Tree _ _ _ => OBJ_TREE
  | Commit _ _ _ _ => OBJ_COMMIT
  | Tag _ _ _ => OBJ_TAG
  | Unknown t _ => OBJ_OTHER t
  end.

Definition obj_hash (o : object) : sha1 :=
  match o with
  | Blob h | Tree h _ _ | Commit h _ _ _ | Tag h _ _ | Unknown _ h => h
  end.

(** ** The skip list and the process state *)

(** [struct sha1_array]: [nr] is the length of [sha1s]. *)
Record sha1_array : Set := mk_sha1_array {
  sha1s : list sha1;
  sorted : bool
}.

Definition SHA1_ARRAY_INIT : sha1_array := mk_sha1_array [] false.

(** Modelled from the spec: [sha1_array_append] (sha1-array.c is not part
    of fsck.c): the set is "augmented in place" with the identifier, in
    the order read; an append leaves the array not known to be sorted,
    which is why [init_skiplist] re-establishes the flag itself. *)
Definition sha1_array_append (a : sha1_array) (h : sha1) : sha1_array :=
  mk_sha1_array (sha1s a ++ [h]) false.

(** What a [struct sha1_array *] can point at: the function-local
    [static struct sha1_array skiplist] of [init_skiplist], or an array
    owned by a caller. *)
Inductive array_ptr : Set :=
  | static_skiplist
  | caller_array (n : nat).

#[global] Instance array_ptr_eq_dec : EqDecision array_ptr.
Proof. solve_decision. Defined.

(** How one [report] call ended. *)
Inductive disposition : Set :=
  | Ignored
  | Skipped
  | Delivered (severity : msg_type) (message : string) (result : Z).

(** What the checker did, in order: every [report] call with its outcome
    ([Delivered] is a call of the error sink), every call of the walker
    callback, every free-form [error]. *)
Inductive event : Set :=
  | EvReport (id : fsck_msg_id) (obj : option object) (d : disposition)
  | EvWalk (obj : option object) (type : object_type) (result : Z)
  | EvError (message : string).

Record world : Type := mk_world {
  arrays : array_ptr -> sha1_array;
  log : list event
}.

Definition set_array (p : array_ptr) (a : sha1_array) (w : world) : world :=
  mk_world (fun q => if decide (q = p) then a else arrays w q) (log w).

Definition add_event (e : event) (w : world) : world :=
  mk_world (arrays w) (log w ++ [e]).

(** ** The monad of fsck.c's functions *)

(** [Died]: the process was ended by [die] or a failed [assert], or the
    run left a buffer (see [out_of_bounds]).
    [Stuck]: a loop of the model ran out of its bound (never, see
    [fsck_set_msg_types_total], [init_skiplist_total] and
    [fsck_object_ends]). *)
Inductive result (A : Type) : Type :=
  | Ok (a : A)
  | Died (msg : string)
  | Stuck.

Arguments Ok {A} a.
Arguments Died {A} msg.
Arguments Stuck {A}.

Definition M (A : Type) : Type := world -> result (A * world).

#[global] Instance M_ret : MRet M := fun A a w => Ok (a, w).

#[global] Instance M_bind : MBind M := fun A B k m w =>
  match m w with
  | Ok (a, w') => k a w'
  | Died msg => Died msg
  | Stuck => Stuck
  end.

Definition die {A} (msg : string) : M A := fun _ => Died msg.
Definition stuck {A} : M A := fun _ => Stuck.

(** A pointer that has left its buffer is read through: what the C
    program does from there on is not defined, and the run of the model
    ends here, told apart from every [die] of fsck.c by its message. *)
Definition out_of_bounds {A} : M A := die "read outside the buffer".

Definition emit (e : event) : M unit := fun w => Ok (tt, add_event e w).
Definition get_array (p : array_ptr) : M sha1_array :=
  fun w => Ok (arrays w p, w).
Definition put_array (p : array_ptr) (a : sha1_array) : M unit :=
  fun w => Ok (tt, set_array p a w).

(** The events added by a run. *)
Definition events_of {A} (m : M A) (w : world) : list event :=
  match m w with
  | Ok (_, w') => drop (length (log w)) (log w')
  | _ => []
  end.

(** ** The host: what fsck.c calls but does not define *)

(** A file, for [open] and [read_in_full]: its bytes, and the offset (if
    any) from which reading fails. *)
Record file : Set := mk_file {
  file_data : string;
  file_fails_at : option nat
}.

Class Host : Type := {
  (** sha1-array.c: the position of the name in the array or a negative
      number, and the array afterwards (a lookup may sort it). *)
  sha1_array_lookup : sha1_array -> sha1 -> Z * sha1_array;
  (** hex.c: the 20 bytes that the first 40 characters spell. *)
  get_sha1_hex : string -> option sha1;
  sha1_to_hex : sha1 -> string;
  (** utf8.c, path.c *)
  is_hfs_dotgit : string -> bool;
  is_ntfs_dotgit : string -> bool;
  (** [strtoul (p, &end, 10)]: the value, and the offset of [end]. *)
  strtoul : string -> N * nat;
  date_overflows : N -> bool;
  (** commit.c: [nr_parent] of the graft of a commit, if it has one. *)
  lookup_commit_graft : sha1 -> option Z;
  get_commit_buffer : object -> string;
  (** object.c, [type_from_string_gently (str, len, 1)]. *)
  type_from_string_gently : string -> Z;
  check_refname_format : string -> Z;
  typename : object_type -> string;
  read_sha1_file : sha1 -> option (object_type * string);
  lookup_tree : sha1 -> option object;
  lookup_blob : sha1 -> option object;
  (** [open (path, O_RDONLY)]. *)
  open_file : string -> option file;
  (** The bytes found in a local array that has not been written yet. *)
  uninitialized : nat -> string
}.

(** ** Options *)

(** [struct fsck_options].  [msg_type] is the [int *] table of
    [FSCK_MSG_MAX] entries, [None] while it is [NULL]. *)
Record fsck_options : Type := mk_options {
  walk : option object -> object_type -> Z;
  error_func : option object -> msg_type -> string -> Z;
  strict : bool;
  msg_type_table : option (fsck_msg_id -> msg_type);
  skiplist : option array_ptr
}.

Section Fsck.

Context `{Host}.

(** ** Policy *)

(** [fsck_msg_type]; the [assert] on the range of [msg_id] holds by the
    type of [msg_id]. *)
Definition fsck_msg_type (msg_id : fsck_msg_id) (options : fsck_options)
  : msg_type :=
  match msg_type_table options with
  | Some table => table msg_id
  | None =>
      let msg_type := default_msg_type (msg_id_info msg_id) in
      if strict options && bool_decide (msg_type = FSCK_WARN)
      then FSCK_ERROR else msg_type
  end.

Definition parse_msg_type (str : string) : M msg_type :=
  if String.eqb str "error" then mret FSCK_ERROR
  else if String.eqb str "warn" then mret FSCK_WARN
  else if String.eqb str "ignore" then mret FSCK_IGNORE
  else die ("Unknown fsck message type: '" +:+ str +:+ "'").

Definition is_valid_msg_type (msg_id msg_type : string) : M Z :=
  match parse_msg_id msg_id with
  | None => mret 0
  | Some _ => _ ← parse_msg_type msg_type; mret 1
  end.

(** [options->msg_type[id] = type]. *)
Definition table_set (table : fsck_msg_id -> msg_type) (id : fsck_msg_id)
  (type : msg_type) : fsck_msg_id -> msg_type :=
  fun i => if decide (i = id) then type else table i.

(** [fsck_set_msg_type]; the options are changed in place, so the new
    value of [*options] is returned. *)
Definition fsck_set_msg_type (options : fsck_options)
  (msg_id msg_type : string) : M fsck_options :=
  match parse_msg_id msg_id with
  | None => die ("Unhandled message id: " +:+ msg_id)
  | Some id =>
      type ← parse_msg_type msg_type;
      if bool_decide (type ≠ FSCK_ERROR)
         && bool_decide (default_msg_type (msg_id_info id) = FSCK_FATAL)
      then die ("Cannot demote " +:+ msg_id +:+ " to " +:+ msg_type)
      else
        let table :=
          match msg_type_table options with
          | Some table => table
          | None => fun i => fsck_msg_type i options
          end in
        mret (mk_options (walk options) (error_func options)
                (strict options) (Some (table_set table id type))
                (skiplist options))
  end.

(** [read_in_full (fd, buffer, count)] at offset [pos]: the bytes read
    (fewer than [count] at the end of the file), [None] for a negative
    result. *)
Definition read_in_full (f : file) (pos count : nat) : option string :=
  let chunk := take_bytes count (advance pos (file_data f)) in
  match file_fails_at f with
  | Some n =>
      if Nat.leb n (String.length (file_data f)) && Nat.ltb n (pos + count)
      then None else Some chunk
  | None => Some chunk
  end.

(** The [for (;;)] loop of [init_skiplist].  [buffer] is the 41-byte
    local array, which a short read overwrites only in part; the result
    is the final value of [sorted].  The message of [die_errno] is given
    without the text for [errno]. *)
Fixpoint read_skiplist (fuel : nat) (path : string) (f : file) (pos : nat)
  (buffer : string) (sorted : bool) : M bool :=
  match fuel with
  | O => stuck
  | S fuel' =>
      match read_in_full f pos 41 with
      | None => die ("Could not read '" +:+ path +:+ "'")
      | Some chunk =>
          if Nat.eqb (String.length chunk) 0 then mret sorted
          else
            let buffer := chunk +:+ advance (String.length chunk) buffer in
            match get_sha1_hex buffer with
            | Some sha1 =>
                if Ascii.eqb (char_at buffer 40) LF then
                  a ← get_array static_skiplist;
                  put_array static_skiplist (sha1_array_append a sha1);;
                  a' ← get_array static_skiplist;
                  let nr := length (sha1s a') in
                  let sorted :=
                    if sorted && Nat.ltb 1 nr
                       && Z.ltb 0 (hashcmp (nth (nr - 2) (sha1s a') "") sha1)
                    then false else sorted in
                  read_skiplist fuel' path f (pos + String.length chunk)
                    buffer sorted
                else die ("Invalid SHA-1: " +:+ c_str buffer)
            | None => die ("Invalid SHA-1: " +:+ c_str buffer)
            end
      end
  end.

Definition with_skiplist (options : fsck_options) (p : array_ptr)
  : fsck_options :=
  mk_options (walk options) (error_func options) (strict options)
    (msg_type_table options) (Some p).

(** [init_skiplist]; returns the new value of [*options]. *)
Definition init_skiplist (options : fsck_options) (path : string)
  : M fsck_options :=
  '(sorted, options) ←
    match skiplist options with
    | Some p => a ← get_array p; mret (sorted a, options)
    | None => mret (true, with_skiplist options static_skiplist)
    end;
  match open_file path with
  | None => die ("Could not open skip list: " +:+ path)
  | Some f =>
      sorted ← read_skiplist (S (String.length (file_data f))) path f 0
                 (uninitialized 41) sorted;
      (if sorted : bool then
         a ← get_array static_skiplist;
         put_array static_skiplist (mk_sha1_array (sha1s a) true)
       else mret tt);;
      mret options
  end.

Fixpoint map_string (f : ascii -> ascii) (s : string) : string :=
  match s with
  | EmptyString => EmptyString
  | String c s' => String (f c) (map_string f s')
  end.

(** The [while (!done)] loop of [fsck_set_msg_types]; [buf] is the rest
    of the duplicated string. *)
Fixpoint set_msg_types_loop (fuel : nat) (options : fsck_options)
  (buf : string) : M fsck_options :=
  match fuel with
  | O => stuck
  | S fuel' =>
      let len := strcspn buf " ,|" in
      let done := is_nul (char_at buf len) in
      if Nat.eqb len 0 then
        if done then mret options
        else set_msg_types_loop fuel' options (advance 1 buf)
      else
        let token := take_bytes len buf in
        let equal := strcspn token "=:" in
        let name := map_string tolower (take_bytes equal token) in
        if String.eqb name "skiplist" then
          if Nat.eqb equal len then die "skiplist requires a path"
          else
            options ← init_skiplist options (advance (equal + 1) token);
            if done then mret options
            else set_msg_types_loop fuel' options (advance (len + 1) buf)
        else if Nat.eqb equal len then
          die ("Missing '=': '" +:+ name +:+ "'")
        else
          options ← fsck_set_msg_type options name
                      (advance (equal + 1) token);
          if done then mret options
          else set_msg_types_loop fuel' options (advance (len + 1) buf)
  end.

Definition fsck_set_msg_types (options : fsck_options) (values : string)
  : M fsck_options :=
  set_msg_types_loop (S (String.length values)) options values.

(** ** The reporter *)

(** [append_msg_id] without the final [": "]: a character other than
    ['_'] is added lower-cased, the character after a ['_'] as it is.
    [None]: the [assert] failed. *)
Fixpoint append_msg_id_chars (msg_id : string) : option string :=
  match msg_id with
  | EmptyString => Some EmptyString
  | String c rest =>
      if Ascii.eqb c "_" then
        match rest with
        | EmptyString => None
        | String d rest' => String d <$> append_msg_id_chars rest'
        end
      else String (tolower c) <$> append_msg_id_chars rest
  end.

Definition append_msg_id (sb msg_id : string) : M string :=
  match append_msg_id_chars msg_id with
  | Some s => mret (sb +:+ s +:+ ": ")
  | None => die "Assertion failed: *msg_id"
  end.

(** [report]; [message] is the text that [fmt] and its arguments
    expand to. *)
Definition report (options : fsck_options) (object : option object)
  (id : fsck_msg_id) (message : string) : M Z :=
  let msg_type := fsck_msg_type id options in
  if bool_decide (msg_type = FSCK_IGNORE) then
    emit (EvReport id object Ignored);; mret 0
  else
    found ←
      match skiplist options, object with
      | Some p, Some obj =>
          a ← get_array p;
          let '(pos, a') := sha1_array_lookup a (obj_hash obj) in
          put_array p a';; mret (Z.leb 0 pos)
      | _, _ => mret false
      end;
    if found : bool then
      emit (EvReport id object Skipped);; mret 0
    else
      let msg_type :=
        if bool_decide (msg_type = FSCK_FATAL) then FSCK_ERROR
        else if bool_decide (msg_type = FSCK_INFO) then FSCK_WARN
        else msg_type in
      sb ← append_msg_id "" (id_string (msg_id_info id));
      let sb := sb +:+ message in
      let result := error_func options object msg_type sb in
      emit (EvReport id object (Delivered msg_type sb result));;
      mret result.

(** ** The tree validator *)

(** File-type bits of a mode (octal 0170000, 0040000, 0100000, 0120000,
    0160000) and the permission bits 0755, 0644, 0664. *)
Definition S_IFMT : Z := 61440.
Definition S_IFDIR : Z := 16384.
Definition S_IFREG : Z := 32768.
Definition S_IFLNK : Z := 40960.
Definition S_IFGITLINK : Z := 57344.

Definition S_ISDIR (m : Z) : bool := Z.eqb (Z.land m S_IFMT) S_IFDIR.
Definition S_ISREG (m : Z) : bool := Z.eqb (Z.land m S_IFMT) S_IFREG.
Definition S_ISLNK (m : Z) : bool := Z.eqb (Z.land m S_IFMT) S_IFLNK.
Definition S_ISGITLINK (m : Z) : bool :=
  Z.eqb (Z.land m S_IFMT) S_IFGITLINK.

Definition TREE_UNORDERED : Z := -1.
Definition TREE_HAS_DUPS : Z := -2.

Definition verify_ordered (mode1 : Z) (name1 : string) (mode2 : Z)
  (name2 : string) : Z :=
  let len1 := String.length name1 in
  let len2 := String.length name2 in
  let len := if Nat.ltb len1 len2 then len1 else len2 in
  let cmp := memcmp name1 name2 len in
  if Z.ltb cmp 0 then 0
  else if Z.ltb 0 cmp then TREE_UNORDERED
  else
    let c1 := char_at name1 len in
    let c2 := char_at name2 len in
    if is_nul c1 && is_nul c2 then TREE_HAS_DUPS
    else
      let c1 := if is_nul c1 && S_ISDIR mode1 then "/"%char else c1 in
      let c2 := if is_nul c2 && S_ISDIR mode2 then "/"%char else c2 in
      if (byte_val c1 <? byte_val c2)%N then 0 else TREE_UNORDERED.

(** The [has_*] locals of [fsck_tree]. *)
Record tree_flags : Set := mk_tree_flags {
  has_null_sha1 : bool;
  has_full_path : bool;
  has_empty_name : bool;
  has_dot : bool;
  has_dotdot : bool;
  has_dotgit : bool;
  has_zero_pad : bool;
  has_bad_modes : bool;
  has_dup_entries : bool;
  not_properly_sorted : bool
}.

Definition no_flags : tree_flags :=
  mk_tree_flags false false false false false false false false false false.

(** The [switch (mode)] of [fsck_tree]: is the mode a bad one? *)
Definition bad_mode (strict : bool) (mode : Z) : bool :=
  if Z.eqb mode (Z.lor S_IFREG 493) then false
  else if Z.eqb mode (Z.lor S_IFREG 420) then false
  else if Z.eqb mode S_IFLNK then false
  else if Z.eqb mode S_IFDIR then false
  else if Z.eqb mode S_IFGITLINK then false
  else if Z.eqb mode (Z.lor S_IFREG 436) then strict
  else true.

(** One turn of the [while (desc.size)] loop; [o] is
    [(o_mode, o_name)], [None] while [o_name] is [NULL]. *)
Definition fsck_tree_entry (strict : bool) (o : option (Z * string))
  (e : tree_entry) (fl : tree_flags) : tree_flags :=
  let mode := entry_mode e in
  let name := entry_name e in
  let order :=
    match o with
    | Some (o_mode, o_name) => verify_ordered o_mode o_name mode name
    | None => 0
    end in
  mk_tree_flags
    (has_null_sha1 fl || is_null_sha1 (entry_oid e))
    (has_full_path fl || bool_decide (is_Some (strchr name "/")))
    (has_empty_name fl || String.eqb name "")
    (has_dot fl || String.eqb name ".")
    (has_dotdot fl || String.eqb name "..")
    (has_dotgit fl
     || (String.eqb name ".git" || is_hfs_dotgit name || is_ntfs_dotgit name))
    (has_zero_pad fl || Ascii.eqb (first_byte e) "0")
    (has_bad_modes fl || bad_mode strict mode)
    (has_dup_entries fl || Z.eqb order TREE_HAS_DUPS)
    (not_properly_sorted fl || Z.eqb order TREE_UNORDERED).

Fixpoint fsck_tree_loop (strict : bool) (desc : list tree_entry)
  (o : option (Z * string)) (fl : tree_flags) : tree_flags :=
  match desc with
  | [] => fl
  | e :: desc' =>
      fsck_tree_loop strict desc' (Some (entry_mode e, entry_name e))
        (fsck_tree_entry strict o e fl)
  end.

(** [if (flag) retval += report (...)]. *)
Definition report_if (flag : bool) (retval : Z) (options : fsck_options)
  (object : option object) (id : fsck_msg_id) (message : string) : M Z :=
  if flag then r ← report options object id message; mret (retval + r)
  else mret retval.

(** [fsck_tree]; [item] is the tree object, [buffer] its entries. *)
Definition fsck_tree (item : object) (buffer : list tree_entry)
  (options : fsck_options) : M Z :=
  let fl := fsck_tree_loop (strict options) buffer None no_flags in
  let obj := Some item in
  retval ← report_if (has_null_sha1 fl) 0 options obj FSCK_MSG_NULL_SHA1
             "contains entries pointing to null sha1";
  retval ← report_if (has_full_path fl) retval options obj
             FSCK_MSG_FULL_PATHNAME "contains full pathnames";
  retval ← report_if (has_empty_name fl) retval options obj
             FSCK_MSG_EMPTY_NAME "contains empty pathname";
  retval ← report_if (has_dot fl) retval options obj FSCK_MSG_HAS_DOT
             "contains '.'";
  retval ← report_if (has_dotdot fl) retval options obj FSCK_MSG_HAS_DOTDOT
             "contains '..'";
  retval ← report_if (has_dotgit fl) retval options obj FSCK_MSG_HAS_DOTGIT
             "contains '.git'";
  retval ← report_if (has_zero_pad fl) retval options obj
             FSCK_MSG_ZERO_PADDED_FILEMODE "contains zero-padded file modes";
  retval ← report_if (has_bad_modes fl) retval options obj
             FSCK_MSG_BAD_FILEMODE "contains bad file modes";
  retval ← report_if (has_dup_entries fl) retval options obj
             FSCK_MSG_DUPLICATE_ENTRIES "contains duplicate file entries";
  retval ← report_if (not_properly_sorted fl) retval options obj
             FSCK_MSG_TREE_NOT_SORTED "not properly sorted";
  mret retval.

(** ** Header block *)

(** How the [for] loop of [verify_headers] ends. *)
Inductive header_scan : Set :=
  | NulAt (i : nat)       (* case NUL at offset [i]: report *)
  | DoubleLF              (* LF followed by LF inside the buffer: return 0 *)
  | ScanEnd.              (* [i] reached [size] *)

(** The loop, at offset [i] with [rest] the bytes from [i] to [size]. *)
Fixpoint verify_headers_loop (rest : string) (i : nat) : header_scan :=
  match rest with
  | EmptyString => ScanEnd
  | String c rest' =>
      if is_nul c then NulAt i
      else if Ascii.eqb c LF then
        match rest' with
        | String d _ =>
            if Ascii.eqb d LF then DoubleLF
            else verify_headers_loop rest' (S i)
        | EmptyString => verify_headers_loop rest' (S i)
        end
      else verify_headers_loop rest' (S i)
  end.

(** [verify_headers (data, size, obj, options)]; [buffer] is the [size]
    bytes at [data]. *)
Definition verify_headers (buffer : string) (obj : option object)
  (options : fsck_options) : M Z :=
  match verify_headers_loop buffer 0 with
  | NulAt i =>
      report options obj FSCK_MSG_NUL_IN_HEADER
        ("unterminated header: NUL at offset " +:+ pretty (Z.of_nat i))
  | DoubleLF => mret 0
  | ScanEnd =>
      let size := String.length buffer in
      if negb (Nat.eqb size 0) && Ascii.eqb (char_at buffer (size - 1)) LF
      then mret 0
      else report options obj FSCK_MSG_UNTERMINATED_HEADER
             "unterminated header"
  end.

(** ** Identity lines *)

(** The reject set of [strcspn (p, "<>\n")]. *)
Definition angle_or_LF : string :=
  String "<" (String ">" (String LF EmptyString)).

(** [fsck_ident (&ident, obj, options)]: the value returned and the new
    [*ident].  [p], [end] are offsets into the old [*ident]. *)
Definition fsck_ident (ident : string) (obj : option object)
  (options : fsck_options) : M (Z * string) :=
  let eol := strcspn ident (String LF EmptyString) in
  let next :=
    if Ascii.eqb (char_at ident eol) LF then advance (eol + 1) ident
    else advance eol ident in
  let fail (id : fsck_msg_id) (what : string) : M (Z * string) :=
    r ← report options obj id ("invalid author/committer line - " +:+ what);
    mret (r, next) in
  let p := O in
  if Ascii.eqb (char_at ident p) "<" then
    fail FSCK_MSG_MISSING_NAME_BEFORE_EMAIL "missing space before email"
  else
  let p := (p + strcspn (advance p ident) angle_or_LF)%nat in
  if Ascii.eqb (char_at ident p) ">" then fail FSCK_MSG_BAD_NAME "bad name"
  else if negb (Ascii.eqb (char_at ident p) "<") then
    fail FSCK_MSG_MISSING_EMAIL "missing email"
  else if negb (Ascii.eqb (char_at ident (p - 1)) " ") then
    fail FSCK_MSG_MISSING_SPACE_BEFORE_EMAIL "missing space before email"
  else
  let p := S p in
  let p := (p + strcspn (advance p ident) angle_or_LF)%nat in
  if negb (Ascii.eqb (char_at ident p) ">") then
    fail FSCK_MSG_BAD_EMAIL "bad email"
  else
  let p := S p in
  if negb (Ascii.eqb (char_at ident p) " ") then
    fail FSCK_MSG_MISSING_SPACE_BEFORE_DATE "missing space before date"
  else
  let p := S p in
  if Ascii.eqb (char_at ident p) "0"
     && negb (Ascii.eqb (char_at ident (S p)) " ") then
    fail FSCK_MSG_ZERO_PADDED_DATE "zero-padded date"
  else
  let '(date, len) := strtoul (advance p ident) in
  let end_ := (p + len)%nat in
  if date_overflows date then
    fail FSCK_MSG_BAD_DATE_OVERFLOW "date causes integer overflow"
  else if Nat.eqb end_ p || negb (Ascii.eqb (char_at ident end_) " ") then
    fail FSCK_MSG_BAD_DATE "bad date"
  else
  let p := S end_ in
  if (negb (Ascii.eqb (char_at ident p) "+")
      && negb (Ascii.eqb (char_at ident p) "-"))
     || negb (isdigit (char_at ident (p + 1)))
     || negb (isdigit (char_at ident (p + 2)))
     || negb (isdigit (char_at ident (p + 3)))
     || negb (isdigit (char_at ident (p + 4)))
     || negb (Ascii.eqb (char_at ident (p + 5)) LF) then
    fail FSCK_MSG_BAD_TIMEZONE "bad time zone"
  else mret (0, next).

(** ** Commits *)

(** [get_sha1_hex (buffer, sha1) || buffer[40] != '\n']. *)
Definition bad_sha1_line (buffer : string) : bool :=
  match get_sha1_hex buffer with
  | Some _ => negb (Ascii.eqb (char_at buffer 40) LF)
  | None => true
  end.

(** [buffer += n], and the first read through the new pointer.  [buffer]
    is the bytes from the pointer to the end of the [size] bytes, the NUL
    bytes among them included; the byte behind them reads as NUL, as the
    terminator of the buffers that the object store hands out.  A step of
    at most the length of [buffer] stays inside; a longer one leaves the
    buffer, and every such step of fsck.c is followed by a read. *)
Definition step_over (n : nat) (buffer : string) : M string :=
  if Nat.leb n (String.length buffer) then mret (advance n buffer)
  else out_of_bounds.

(** The [while (skip_prefix (buffer, "parent ", &buffer))] loop: [inl err]
    when the function returns [err] from inside the loop, else the buffer
    and [parent_line_count] after it.  [get_sha1_hex] stops at the first
    byte that is no hexadecimal digit, so it reads the C string at the
    pointer; [buffer += 41] moves the pointer whatever the line holds. *)
Fixpoint parent_lines (fuel : nat) (buffer : string) (count : nat)
  (obj : option object) (options : fsck_options)
  : M (Z + string * nat) :=
  match fuel with
  | O => stuck
  | S fuel' =>
      match skip_prefix buffer "parent " with
      | None => mret (inr (buffer, count))
      | Some buffer =>
          err ← (if bad_sha1_line (c_str buffer) then
                   report options obj FSCK_MSG_BAD_PARENT_SHA1
                     "invalid 'parent' line format - bad sha1"
                 else mret 0);
          if negb (Z.eqb err 0) then mret (inl err)
          else
            buffer ← step_over 41 buffer;
            parent_lines fuel' buffer (S count) obj options
      end
  end.

(** The [while (skip_prefix (buffer, "author ", &buffer))] loop. *)
Fixpoint author_lines (fuel : nat) (buffer : string) (count : nat)
  (obj : option object) (options : fsck_options)
  : M (Z + string * nat) :=
  match fuel with
  | O => stuck
  | S fuel' =>
      match skip_prefix buffer "author " with
      | None => mret (inr (buffer, count))
      | Some buffer =>
          '(err, buffer) ← fsck_ident buffer obj options;
          if negb (Z.eqb err 0) then mret (inl err)
          else author_lines fuel' buffer (S count) obj options
      end
  end.

(** [fsck_commit_buffer]; [tree] and [parents] are [commit->tree] and
    [commit->parents].  [buffer] is the [size] bytes; the [tree] and
    [parent] lines are stepped over 41 bytes at a time, whatever they
    hold.  Behind them the pointer only moves inside the C string it
    points at ([skip_prefix] and [fsck_ident] stop at a NUL), and that
    string is what the model goes on with. *)
Definition fsck_commit_buffer (commit : object) (tree : option object)
  (parents : list object) (buffer : string) (options : fsck_options)
  : M Z :=
  let obj := Some commit in
  r ← verify_headers buffer obj options;
  if negb (Z.eqb r 0) then mret (-1)
  else
  match skip_prefix buffer "tree " with
  | None =>
      report options obj FSCK_MSG_MISSING_TREE
        "invalid format - expected 'tree' line"
  | Some buffer =>
      let tree_sha1 :=
        match get_sha1_hex (c_str buffer) with
        | Some h => h
        | None => uninitialized 20
        end in
      err ← (if bad_sha1_line (c_str buffer) then
               report options obj FSCK_MSG_BAD_TREE_SHA1
                 "invalid 'tree' line format - bad sha1"
             else mret 0);
      if negb (Z.eqb err 0) then mret err
      else
      buffer ← step_over 41 buffer;
      pl ← parent_lines (S (String.length buffer)) buffer 0 obj options;
      match pl with
      | inl err => mret err
      | inr (buffer, parent_line_count) =>
          let parent_count := length parents in
          err ←
            match lookup_commit_graft (obj_hash commit) with
            | Some nr_parent =>
                if Z.eqb nr_parent (-1) && Nat.eqb parent_count 0
                then mret 0
                else if negb (Z.eqb (nr_parent mod 2 ^ 32)
                                (Z.of_nat parent_count))
                then report options obj FSCK_MSG_MISSING_GRAFT
                       "graft objects missing"
                else mret 0
            | None =>
                if negb (Nat.eqb parent_count parent_line_count)
                then report options obj FSCK_MSG_MISSING_PARENT
                       "parent objects missing"
                else mret 0
            end;
          if negb (Z.eqb err 0) then mret err
          else
          let buffer := c_str buffer in
          al ← author_lines (S (String.length buffer)) buffer 0 obj options;
          match al with
          | inl err => mret err
          | inr (buffer, author_count) =>
              err ←
                (if Nat.ltb author_count 1 then
                   report options obj FSCK_MSG_MISSING_AUTHOR
                     "invalid format - expected 'author' line"
                 else if Nat.ltb 1 author_count then
                   report options obj FSCK_MSG_MULTIPLE_AUTHORS
                     "invalid format - multiple 'author' lines"
                 else mret 0);
              if negb (Z.eqb err 0) then mret err
              else
              match skip_prefix buffer "committer " with
              | None =>
                  report options obj FSCK_MSG_MISSING_COMMITTER
                    "invalid format - expected 'committer' line"
              | Some buffer =>
                  '(err, buffer) ← fsck_ident buffer obj options;
                  if negb (Z.eqb err 0) then mret err
                  else
                    match tree with
                    | None =>
                        report options obj FSCK_MSG_BAD_TREE
                          ("could not load commit's tree "
                           +:+ sha1_to_hex tree_sha1)
                    | Some _ => mret 0
                    end
              end
          end
      end
  end.

(** [fsck_commit]: [data] is [None] when the pointer is [NULL]. *)
Definition fsck_commit (commit : object) (tree : option object)
  (parents : list object) (data : option string) (options : fsck_options)
  : M Z :=
  let buffer :=
    match data with
    | Some d => d
    | None => get_commit_buffer commit
    end in
  fsck_commit_buffer commit tree parents buffer options.

(** ** Tags *)

Definition is_obj_tag (t : object_type) : bool :=
  match t with OBJ_TAG => true | _ => false end.

(** [fsck_tag_buffer] from [verify_headers] on.  [buffer] is the [size]
    bytes; the [object] line is stepped over 41 bytes whatever it holds,
    and behind it the pointer only moves inside the C string it points
    at. *)
Definition fsck_tag_lines (obj : option object) (buffer : string)
  (options : fsck_options) : M Z :=
  ret ← verify_headers buffer obj options;
  if negb (Z.eqb ret 0) then mret ret
  else
  match skip_prefix buffer "object " with
  | None =>
      report options obj FSCK_MSG_MISSING_OBJECT
        "invalid format - expected 'object' line"
  | Some buffer =>
      ret ← (if bad_sha1_line (c_str buffer) then
               report options obj FSCK_MSG_BAD_OBJECT_SHA1
                 "invalid 'object' line format - bad sha1"
             else mret 0);
      if negb (Z.eqb ret 0) then mret ret
      else
      buffer ← step_over 41 buffer;
      let buffer := c_str buffer in
      match skip_prefix buffer "type " with
      | None =>
          report options obj FSCK_MSG_MISSING_TYPE_ENTRY
            "invalid format - expected 'type' line"
      | Some buffer =>
          match strchr buffer LF with
          | None =>
              report options obj FSCK_MSG_MISSING_TYPE
                "invalid format - unexpected end after 'type' line"
          | Some eol =>
              ret ← (if Z.ltb (type_from_string_gently
                                 (take_bytes eol buffer)) 0
                     then report options obj FSCK_MSG_BAD_TYPE
                            "invalid 'type' value"
                     else mret 0);
              if negb (Z.eqb ret 0) then mret ret
              else
              let buffer := advance (eol + 1) buffer in
              match skip_prefix buffer "tag " with
              | None =>
                  report options obj FSCK_MSG_MISSING_TAG_ENTRY
                    "invalid format - expected 'tag' line"
              | Some buffer =>
                  match strchr buffer LF with
                  | None =>
                      report options obj FSCK_MSG_MISSING_TAG
                        "invalid format - unexpected end after 'type' line"
                  | Some eol =>
                      let name := take_bytes eol buffer in
                      ret ← (if negb (Z.eqb (check_refname_format
                                               ("refs/tags/" +:+ name)) 0)
                             then report options obj FSCK_MSG_BAD_TAG_NAME
                                    ("invalid 'tag' name: " +:+ name)
                             else mret 0);
                      if negb (Z.eqb ret 0) then mret ret
                      else
                      let buffer := advance (eol + 1) buffer in
                      match skip_prefix buffer "tagger " with
                      | None =>
                          report options obj FSCK_MSG_MISSING_TAGGER_ENTRY
                            "invalid format - expected 'tagger' line"
                      | Some buffer =>
                          '(ret, _) ← fsck_ident buffer obj options;
                          mret ret
                      end
                  end
              end
          end
      end
  end.

Definition fsck_tag_buffer (tag : object) (data : option string)
  (options : fsck_options) : M Z :=
  let obj := Some tag in
  match data with
  | Some buffer => fsck_tag_lines obj buffer options
  | None =>
      match read_sha1_file (obj_hash tag) with
      | None =>
          report options obj FSCK_MSG_MISSING_TAG_OBJECT
            "cannot read tag object"
      | Some (type, buffer) =>
          if negb (is_obj_tag type) then
            report options obj FSCK_MSG_TAG_OBJECT_NOT_TAG
              ("expected tag got " +:+ typename type)
          else fsck_tag_lines obj buffer options
      end
  end.

Definition fsck_tag (tag : object) (tagged : option object)
  (data : option string) (options : fsck_options) : M Z :=
  match tagged with
  | None =>
      report options (Some tag) FSCK_MSG_BAD_TAG_OBJECT
        "could not load tagged object"
  | Some _ => fsck_tag_buffer tag data options
  end.

(** ** Entry points *)

(** [fsck_object (obj, data, size, options)]; [None] is a [NULL]
    pointer. *)
Definition fsck_object (obj : option object) (data : option string)
  (options : fsck_options) : M Z :=
  match obj with
  | None =>
      report options obj FSCK_MSG_BAD_OBJECT_SHA1 "no valid object to fsck"
  | Some (Blob _) => mret 0
  | Some (Tree _ _ buffer as o) => fsck_tree o buffer options
  | Some (Commit _ _ tree parents as o) =>
      fsck_commit o tree parents data options
  | Some (Tag _ _ tagged as o) => fsck_tag o tagged data options
  | Some (Unknown type _) =>
      report options obj FSCK_MSG_UNKNOWN_TYPE
        ("unknown type '" +:+ pretty type +:+ "' (internal fsck error)")
  end.

(** [fsck_error_function], the default sink: a warning and 0 for
    [FSCK_WARN], else an error and 1.  Both messages print
    [oid_to_hex (&obj->oid)]: with a NULL object the function reads
    through the null pointer and does not return, which is [None]. *)
Definition fsck_error_function (obj : option object) (type : msg_type)
  (message : string) : option Z :=
  match obj with
  | None => None
  | Some _ => Some (if bool_decide (type = FSCK_WARN) then 0 else 1)
  end.

(** A sink as the option record holds it.  The option record of the
    model holds sinks that return from every call; [returning f] is [f]
    wherever [f] returns, and answers the error result 1 where [f] does
    not.  With [fsck_error_function] the two differ on the calls without
    an object only, from which fsck.c does not come back. *)
Definition returning (f : option object -> msg_type -> string -> option Z)
  (obj : option object) (type : msg_type) (message : string) : Z :=
  default 1 (f obj type message).

(** ** The walker *)

(** [options->walk (obj, type, data, options)]. *)
Definition call_walk (options : fsck_options) (obj : option object)
  (type : object_type) : M Z :=
  let result := walk options obj type in
  emit (EvWalk obj type result);; mret result.

(** [error (...)]: prints, and is -1. *)
Definition error (message : string) : M Z :=
  emit (EvError message);; mret (-1).

(** The digits of [n] in base 8, before [acc]. *)
Fixpoint octal_digits (fuel : nat) (n : N) (acc : string) : string :=
  match fuel with
  | O => acc
  | S fuel' =>
      let acc := String (ascii_of_N (48 + n mod 8)%N) acc in
      if (n / 8 =? 0)%N then acc else octal_digits fuel' (n / 8)%N acc
  end.

(** ["%.6o"]: at least six octal digits. *)
Definition octal6 (mode : Z) : string :=
  let n := Z.to_N mode in
  let digits := octal_digits (S (N.size_nat n)) n "" in
  String.concat "" (repeat "0" (6 - String.length digits)) +:+ digits.

(** The [while (tree_entry (&desc, &entry))] loop of [fsck_walk_tree]. *)
Fixpoint fsck_walk_tree_loop (tree : object) (desc : list tree_entry)
  (res : Z) (options : fsck_options) : M Z :=
  match desc with
  | [] => mret res
  | entry :: desc' =>
      if S_ISGITLINK (entry_mode entry) then
        fsck_walk_tree_loop tree desc' res options
      else
        result ←
          (if S_ISDIR (entry_mode entry) then
             call_walk options (lookup_tree (entry_oid entry)) OBJ_TREE
           else if S_ISREG (entry_mode entry) || S_ISLNK (entry_mode entry)
           then call_walk options (lookup_blob (entry_oid entry)) OBJ_BLOB
           else error ("in tree " +:+ sha1_to_hex (obj_hash tree)
                       +:+ ": entry " +:+ entry_name entry
                       +:+ " has bad mode " +:+ octal6 (entry_mode entry)));
        if Z.ltb result 0 then mret result
        else fsck_walk_tree_loop tree desc'
               (if Z.eqb res 0 then result else res) options
  end.

Definition fsck_walk_tree (tree : object) (parsed : Z)
  (buffer : list tree_entry) (options : fsck_options) : M Z :=
  if negb (Z.eqb parsed 0) then mret (-1)
  else fsck_walk_tree_loop tree buffer 0 options.

(** The [while (parents)] loop of [fsck_walk_commit]. *)
Fixpoint fsck_walk_parents (parents : list object) (res : Z)
  (options : fsck_options) : M Z :=
  match parents with
  | [] => mret res
  | item :: next =>
      result ← call_walk options (Some item) OBJ_COMMIT;
      if Z.ltb result 0 then mret result
      else fsck_walk_parents next (if Z.eqb res 0 then result else res)
             options
  end.

Definition fsck_walk_commit (parsed : Z) (tree : option object)
  (parents : list object) (options : fsck_options) : M Z :=
  if negb (Z.eqb parsed 0) then mret (-1)
  else
    result ← call_walk options tree OBJ_TREE;
    if Z.ltb result 0 then mret result
    else fsck_walk_parents parents result options.

Definition fsck_walk_tag (parsed : Z) (tagged : option object)
  (options : fsck_options) : M Z :=
  if negb (Z.eqb parsed 0) then mret (-1)
  else call_walk options tagged OBJ_ANY.

(** [fsck_walk (obj, data, options)]. *)
Definition fsck_walk (obj : option object) (options : fsck_options)
  : M Z :=
  match obj with
  | None => mret (-1)
  | Some (Blob _) => mret 0
  | Some (Tree _ parsed buffer as o) =>
      fsck_walk_tree o parsed buffer options
  | Some (Commit _ parsed tree parents) =>
      fsck_walk_commit parsed tree parents options
  | Some (Tag _ parsed tagged) => fsck_walk_tag parsed tagged options
  | Some (Unknown _ oid) =>
      error ("Unknown object type for " +:+ sha1_to_hex oid);; mret (-1)
  end.

End Fsck.

(** ** What the specification says, in its own terms *)

(** "Collapse [Fatal] to [Error] and [Info] to [Warn]". *)
Definition collapse (t : msg_type) : msg_type :=
  match t with
  | FSCK_FATAL => FSCK_ERROR
  | FSCK_INFO => FSCK_WARN
  | t => t
  end.

(** "If an override table has been materialized, the table entry is used;
    otherwise the catalog default, with [Warn] promoted to [Error] when
    the strict flag is set". *)
Definition policy_severity (options : fsck_options) (id : fsck_msg_id)
  : msg_type :=
  match msg_type_table options with
  | Some table => table id
  | None =>
      match default_msg_type (msg_id_info id) with
      | FSCK_WARN => if strict options then FSCK_ERROR else FSCK_WARN
      | t => t
      end
  end.

(** The user-facing identifier "derived by stripping underscores and
    lowercasing". *)
Definition lowercased_without_underscores (symbolic : string) : string :=
  string_of_list_ascii
    (map tolower
       (filter (fun c => c <> "_"%char) (list_ascii_of_string symbolic))).

(** A name is a C string: it holds no NUL byte. *)
Definition no_nul (s : string) : Prop :=
  forall i, (i < String.length s)%nat -> char_at s i <> NUL.

(** The "virtual" character of a name that has ended: ['/'] iff the entry
    is a directory, else the terminating byte. *)
Definition virtual_end (mode : Z) : ascii :=
  if S_ISDIR mode then "/"%char else NUL.

(** Path order as the specification words it: byte by byte while both
    names last; equal names are duplicates; when one name ends first its
    virtual character is compared with the other's next byte. *)
Fixpoint path_order (mode1 : Z) (name1 : string) (mode2 : Z)
  (name2 : string) : Z :=
  match name1, name2 with
  | String c1 rest1, String c2 rest2 =>
      if (byte_val c1 <? byte_val c2)%N then 0
      else if (byte_val c2 <? byte_val c1)%N then TREE_UNORDERED
      else path_order mode1 rest1 mode2 rest2
  | EmptyString, EmptyString => TREE_HAS_DUPS
  | EmptyString, String c2 _ =>
      if (byte_val (virtual_end mode1) <? byte_val c2)%N then 0
      else TREE_UNORDERED
  | String c1 _, EmptyString =>
      if (byte_val c1 <? byte_val (virtual_end mode2))%N then 0
      else TREE_UNORDERED
  end.

(** An [LF LF] separator starts at offset [i] of the buffer. *)
Definition separator_at (buffer : string) (i : nat) : Prop :=
  (S i < String.length buffer)%nat
  /\ char_at buffer i = LF /\ char_at buffer (S i) = LF.

(** A NUL byte at offset [i] with no separator before it. *)
Definition nul_in_header (buffer : string) (i : nat) : Prop :=
  (i < String.length buffer)%nat /\ char_at buffer i = NUL
  /\ forall j, (j < i)%nat -> ~ separator_at buffer j.

(** The buffer is not empty and its last byte is LF. *)
Definition ends_with_LF (buffer : string) : Prop :=
  String.length buffer <> O
  /\ char_at buffer (String.length buffer - 1) = LF.

(** The number of decimal digits a string starts with. *)
Fixpoint leading_digits (s : string) : nat :=
  match s with
  | String c s' => if isdigit c then S (leading_digits s') else O
  | EmptyString => O
  end.

(** A [report] call for [id] is among the events. *)
Definition reported (id : fsck_msg_id) (events : list event) : Prop :=
  exists obj d, In (EvReport id obj d) events.


(** ** An example host *)

(** The value of a hexadecimal digit, of either case. *)
Definition hexval (c : ascii) : option N :=
  let n := byte_val c in
  if ((48 <=? n) && (n <=? 57))%N then Some (n - 48)%N
  else if ((97 <=? n) && (n <=? 102))%N then Some (n - 87)%N
  else if ((65 <=? n) && (n <=? 70))%N then Some (n - 55)%N
  else None.

(** Modelled from the spec: [get_sha1_hex] (hex.c is not part of fsck.c),
    the host's "hex_to_oid": [n] bytes from [2 * n] hexadecimal digits. *)
Fixpoint hex_to_bytes (n : nat) (s : string) : option string :=
  match n with
  | O => Some EmptyString
  | S n' =>
      match s with
      | String a (String b rest) =>
          match hexval a, hexval b with
          | Some x, Some y =>
              String (ascii_of_N (16 * x + y)) <$> hex_to_bytes n' rest
          | _, _ => None
          end
      | _ => None
      end
  end.

(** Lower-case hexadecimal, for [sha1_to_hex]. *)
Definition hex_digit (n : N) : ascii :=
  if (n <? 10)%N then ascii_of_N (48 + n) else ascii_of_N (87 + n).

Fixpoint bytes_to_hex (s : string) : string :=
  match s with
  | EmptyString => EmptyString
  | String c s' =>
      String (hex_digit (byte_val c / 16))
        (String (hex_digit (byte_val c mod 16)) (bytes_to_hex s'))
  end.

(** Insertion into a list sorted by [hashcmp], and the position of a
    name in a list (negative when it is absent). *)
Fixpoint insert_sha1 (h : sha1) (l : list sha1) : list sha1 :=
  match l with
  | [] => [h]
  | x :: l' =>
      if Z.ltb 0 (hashcmp x h) then h :: l else x :: insert_sha1 h l'
  end.

Fixpoint position (h : sha1) (l : list sha1) (i : Z) : Z :=
  match l with
  | [] => -1 - i
  | x :: l' => if String.eqb x h then i else position h l' (i + 1)
  end.

(** Modelled from the spec: [sha1_array_lookup] (sha1-array.c is not part
    of fsck.c): the set is "stored sorted", and one that is not marked
    sorted "is sorted on first query"; a hit is a position, a miss is
    negative. *)
Definition lookup_sorted (a : sha1_array) (h : sha1) : Z * sha1_array :=
  let a' :=
    if sorted a then a
    else mk_sha1_array (foldr insert_sha1 [] (sha1s a)) true in
  (position h (sha1s a') 0, a').

(** Modelled from the spec: [strtoul (p, &end, 10)] on a string that
    starts with digits (libc is not part of fsck.c). *)
Fixpoint decimal (s : string) (acc : N) : N * nat :=
  match s with
  | String c s' =>
      if isdigit c then
        let '(v, n) := decimal s' (10 * acc + (byte_val c - 48))%N in
        (v, S n)
      else (acc, O)
  | EmptyString => (acc, O)
  end.

(** The 41 bytes of one skip-list line. *)
Definition skip_line : string :=
  "0123456789abcdef0123456789abcdef01234567" +:+ String LF EmptyString.

(** A host for the examples: one skip-list file, no grafts, no object
    store, no HFS or NTFS aliases of .git. *)
Definition example_host : Host := {|
  sha1_array_lookup := lookup_sorted;
  get_sha1_hex := hex_to_bytes 20;
  sha1_to_hex := bytes_to_hex;
  is_hfs_dotgit := fun _ => false;
  is_ntfs_dotgit := fun _ => false;
  strtoul := fun s => decimal s 0;
  date_overflows := fun n => (2 ^ 63 <=? n)%N;
  lookup_commit_graft := fun _ => None;
  get_commit_buffer := fun _ => EmptyString;
  type_from_string_gently := fun _ => -1;
  check_refname_format := fun _ => 0;
  typename := fun _ => EmptyString;
  read_sha1_file := fun _ => None;
  lookup_tree := fun _ => None;
  lookup_blob := fun _ => None;
  open_file := fun path =>
    if String.eqb path "skip" then Some (mk_file skip_line None) else None;
  uninitialized := fun n => String.concat "" (repeat "?" n)
|}.

(** [FSCK_OPTIONS_DEFAULT] and [FSCK_OPTIONS_STRICT] with the default
    sink (see [returning] for its calls without an object). *)
Definition FSCK_OPTIONS_DEFAULT : fsck_options :=
  mk_options (fun _ _ => 0) (returning fsck_error_function) false None None.

Definition FSCK_OPTIONS_STRICT : fsck_options :=
  mk_options (fun _ _ => 0) (returning fsck_error_function) true None None.

(** Options whose sink takes every object, the null one too, and answers
    -1. *)
Definition REFUSING_OPTIONS : fsck_options :=
  mk_options (fun _ _ => 0) (fun _ _ _ => -1) false None None.

(** The process before anything was loaded or reported. *)
Definition initial_world : world :=
  mk_world (fun _ => SHA1_ARRAY_INIT) [].

(** ** Vocabulary of the properties, and the inputs of the examples *)

(** The prefix of every message about [id]. *)
Definition msg_prefix (id : fsck_msg_id) : string :=
  match append_msg_id_chars (id_string (msg_id_info id)) with
  | Some s => s +:+ ": "
  | None => EmptyString
  end.

(** The world after the sink was called for [id], and the sink's
    result. *)
Definition deliver (options : fsck_options) (object : option object)
  (id : fsck_msg_id) (message : string) (w : world) : Z * world :=
  let severity := collapse (policy_severity options id) in
  let text := msg_prefix id +:+ message in
  let result := error_func options object severity text in
  (result, add_event (EvReport id object (Delivered severity text result)) w).

(** A tree, and a process whose skip list names it. *)
Definition skipped_tree : object :=
  Tree "0123456789abcdefghij" 0 [].

Definition skiplist_world : world :=
  mk_world (fun _ => mk_sha1_array ["0123456789abcdefghij"] true) [].

(** No character of [reject] occurs in [s]. *)
Definition free_of (reject s : string) : Prop :=
  strcspn s reject = String.length s.

(** Unfolds the operations of [M]. *)
Ltac run_monad :=
  unfold mbind, M_bind, mret, M_ret, get_array, put_array, emit, die,
    stuck in *;
  cbn [fst snd] in *.

(** The object that the line of the example skip-list file names. *)
Definition listed_object : object :=
  Blob (default EmptyString (hex_to_bytes 20 skip_line)).

(** No NUL byte before offset [n]. *)
Definition nul_free_before (s : string) (n : nat) : Prop :=
  forall j, (j < n)%nat -> char_at s j <> NUL.

(** No separator starts before offset [n]. *)
Definition separator_free_before (s : string) (n : nat) : Prop :=
  forall j, (j < n)%nat -> ~ separator_at s j.

(** What each way out of the scanning loop says about the bytes from
    offset [i] on. *)
Definition scan_spec (rest : string) (i : nat) (r : header_scan) : Prop :=
  match r with
  | NulAt n =>
      exists k, n = (i + k)%nat /\ (k < String.length rest)%nat
        /\ char_at rest k = NUL
        /\ nul_free_before rest k /\ separator_free_before rest k
  | DoubleLF =>
      exists k, separator_at rest k
        /\ nul_free_before rest k /\ separator_free_before rest k
  | ScanEnd =>
      nul_free_before rest (String.length rest)
      /\ forall j, ~ separator_at rest j
  end.

(** Three header blocks: [a NUL LF], [a LF LF b] and [a]. *)
Definition header_with_nul : string :=
  String "a" (String NUL (String LF EmptyString)).
Definition header_with_body : string :=
  String "a" (String LF (String LF (String "b" EmptyString))).
Definition header_cut_short : string := "a".

(** [m] run in [w] returns [a], ends in [w'] and adds the events
    [evs]. *)
Definition runs {A} (m : M A) (w : world) (a : A) (w' : world)
  (evs : list event) : Prop :=
  m w = Ok (a, w') /\ log w' = (log w ++ evs)%list.

(** Which flag of [fsck_tree] stands for which kind. *)
Definition tree_flag (fl : tree_flags) (id : fsck_msg_id) : bool :=
  match id with
  | FSCK_MSG_NULL_SHA1 => has_null_sha1 fl
  | FSCK_MSG_FULL_PATHNAME => has_full_path fl
  | FSCK_MSG_EMPTY_NAME => has_empty_name fl
  | FSCK_MSG_HAS_DOT => has_dot fl
  | FSCK_MSG_HAS_DOTDOT => has_dotdot fl
  | FSCK_MSG_HAS_DOTGIT => has_dotgit fl
  | FSCK_MSG_ZERO_PADDED_FILEMODE => has_zero_pad fl
  | FSCK_MSG_BAD_FILEMODE => has_bad_modes fl
  | FSCK_MSG_DUPLICATE_ENTRIES => has_dup_entries fl
  | FSCK_MSG_TREE_NOT_SORTED => not_properly_sorted fl
  | _ => false
  end.

(** The file [a.c] followed by the directory [a]. *)
Definition file_then_directory (oid1 oid2 : sha1) : list tree_entry :=
  [ mk_tree_entry "1" (Z.lor S_IFREG 420) "a.c" oid1;
    mk_tree_entry "4" S_IFDIR "a" oid2 ].

(** An identity line whose name and e-mail parts are well formed:
    [name], ending in a space, then [<email>], a space, and [rest]. *)
Definition ident_line (name email rest : string) : string :=
  name +:+ String "<" (email +:+ String ">" (String " " rest)).

(** The date field of the specification's example and the line's end. *)
Definition padded_date : string :=
  "0123456789 +0000" +:+ String LF EmptyString.

(** A line whose date field is the single digit ['0'], followed by the
    end of the line instead of a space. *)
Definition lone_zero_date : string := String "0" (String LF EmptyString).

(** [m] returns from every state of the process: it neither dies nor runs
    out of its bound. *)
Definition total {A} (m : M A) : Prop :=
  forall w, exists a w', m w = Ok (a, w').

(** [m] ends in every state of the process: it returns, or the process
    dies or leaves a buffer; no loop of the model runs out of its
    bound. *)
Definition ends {A} (m : M A) : Prop :=
  forall w, m w <> Stuck.

(** [*ident] after [fsck_ident]: the start of the next line. *)
Definition next_line (ident : string) : string :=
  let eol := strcspn ident (String LF EmptyString) in
  if Ascii.eqb (char_at ident eol) LF then advance (eol + 1) ident
  else advance eol ident.

(** [m] always returns, with [next] as the second component. *)
Definition lands {A} (next : string) (m : M (A * string)) : Prop :=
  forall w, exists a w', m w = Ok ((a, next), w').

(** ** Vocabulary of the further properties *)

(** The name of a kind as messages show it: the prefix built by
    [append_msg_id], without the final [": "]. *)
Definition camel_case (id : fsck_msg_id) : string :=
  default EmptyString (append_msg_id_chars (id_string (msg_id_info id))).

(** Every kind whose default severity is [Fatal] is delivered as
    [Error]. *)
Definition fatal_kept (options : fsck_options) : Prop :=
  forall id, default_msg_type (msg_id_info id) = FSCK_FATAL ->
    collapse (fsck_msg_type id options) = FSCK_ERROR.

(** Every character of [s] is one of [set]. *)
Fixpoint all_in (set s : string) : bool :=
  match s with
  | EmptyString => true
  | String c s' => mem_char c set && all_in set s'
  end.

(** The three severity names that [parse_msg_type] knows. *)
Definition severity_name (type : msg_type) : string :=
  match type with
  | FSCK_ERROR => "error"
  | FSCK_WARN => "warn"
  | FSCK_IGNORE => "ignore"
  | _ => EmptyString
  end.

(** What one turn of the loop of [fsck_set_msg_types] does with the token
    it has cut off, before it goes on with the rest of the list. *)
Definition handle_token `{Host} (options : fsck_options) (token : string)
  : M fsck_options :=
  let equal := strcspn token "=:" in
  let name := map_string tolower (take_bytes equal token) in
  if String.eqb name "skiplist" then
    if Nat.eqb equal (String.length token) then
      die "skiplist requires a path"
    else init_skiplist options (advance (equal + 1) token)
  else if Nat.eqb equal (String.length token) then
    die ("Missing '=': '" +:+ name +:+ "'")
  else fsck_set_msg_type options name (advance (equal + 1) token).

(** A well-formed line of a skip-list file, and the name it spells: 41
    bytes that [get_sha1_hex] accepts, the last of them LF. *)
Definition skiplist_line `{Host} (line : string) (h : sha1) : Prop :=
  String.length line = 41%nat /\ char_at line 40 = LF
  /\ get_sha1_hex line = Some h.

(** The lines of a file, one after the other. *)
Definition file_of_lines (lines : list string) : string :=
  String.concat EmptyString lines.

(** Each name is at most its successor, by [hashcmp]. *)
Fixpoint ascending (l : list sha1) : bool :=
  match l with
  | a :: (b :: _) as l' => negb (Z.ltb 0 (hashcmp a b)) && ascending l'
  | _ => true
  end.

(** The [sorted] flag of an array tells the truth. *)
Definition flag_truthful (a : sha1_array) : Prop :=
  sorted a = true -> ascending (sha1s a) = true.

(** The local [sorted] and the process after the names [hs] were appended
    by the loop of [init_skiplist], one turn per name. *)
Fixpoint load_names (hs : list sha1) (sorted : bool) (w : world)
  : bool * world :=
  match hs with
  | [] => (sorted, w)
  | h :: hs' =>
      let w1 :=
        set_array static_skiplist
          (sha1_array_append (arrays w static_skiplist) h) w in
      let a' := arrays w1 static_skiplist in
      let nr := length (sha1s a') in
      load_names hs'
        (if sorted && Nat.ltb 1 nr
            && Z.ltb 0 (hashcmp (nth (nr - 2) (sha1s a') EmptyString) h)
         then false else sorted) w1
  end.

(** The example host with one file, found under every path. *)
Definition host_with_file (data : string) : Host := {|
  sha1_array_lookup := lookup_sorted;
  get_sha1_hex := hex_to_bytes 20;
  sha1_to_hex := bytes_to_hex;
  is_hfs_dotgit := fun _ => false;
  is_ntfs_dotgit := fun _ => false;
  strtoul := fun s => decimal s 0;
  date_overflows := fun n => (2 ^ 63 <=? n)%N;
  lookup_commit_graft := fun _ => None;
  get_commit_buffer := fun _ => EmptyString;
  type_from_string_gently := fun _ => -1;
  check_refname_format := fun _ => 0;
  typename := fun _ => EmptyString;
  read_sha1_file := fun _ => None;
  lookup_tree := fun _ => None;
  lookup_blob := fun _ => None;
  open_file := fun _ => Some (mk_file data None);
  uninitialized := fun n => String.concat EmptyString (repeat "?" n)
|}.

(** Two more skip-list lines, and the names that the three lines spell. *)
Definition skip_line_1 : string :=
  "1111111111111111111111111111111111111111" +:+ String LF EmptyString.

Definition skip_line_2 : string :=
  "2222222222222222222222222222222222222222" +:+ String LF EmptyString.

Definition name_of_line (line : string) : sha1 :=
  default EmptyString (hex_to_bytes 20 line).

(** The second line without its newline, and 41 bytes that spell no
    name. *)
Definition skip_line_2_cut : string :=
  "2222222222222222222222222222222222222222".

Definition bad_skip_line : string :=
  "2222222222222222222222222222222222222222 ".

(** What the [report] call behind an event returned: the result of the
    sink for a delivered diagnostic, else 0. *)
Definition event_result (e : event) : Z :=
  match e with
  | EvReport _ _ (Delivered _ _ r) => r
  | _ => 0
  end.

(** The event is a [report] call about [obj]. *)
Definition about (obj : option object) (e : event) : Prop :=
  exists id d, e = EvReport id obj d.

(** Every [report] call returned 0. *)
Definition all_zero (evs : list event) : Prop :=
  Forall (fun e => event_result e = 0) evs.

(** The last [report] call returned [r], which is not 0, and every call
    before it returned 0. *)
Definition stopped_by (r : Z) (evs : list event) : Prop :=
  r <> 0
  /\ exists evs0 e,
       evs = (evs0 ++ [e])%list /\ all_zero evs0 /\ event_result e = r.

(** The result [r] of a validator that gives up at the first [report]
    call that does not return 0. *)
Definition verdict (r : Z) (evs : list event) : Prop :=
  (r = 0 /\ all_zero evs) \/ stopped_by r evs.

(** The run of [m] from [w] ends outside a buffer (see
    [out_of_bounds]). *)
Definition leaves_buffer {A} (m : M A) (w : world) : Prop :=
  m w = Died "read outside the buffer".

(** Unless its run leaves a buffer, [m] returns, makes [report] calls
    about [obj] only, and the error code [res a] in its value is the
    verdict on them. *)
Definition checks {A} (obj : option object) (res : A -> Z) (m : M A)
  : Prop :=
  forall w,
    leaves_buffer m w
    \/ exists a w' evs,
         runs m w a w' evs /\ Forall (about obj) evs
         /\ verdict (res a) evs.

(** The error code in the value of [parent_lines] and [author_lines]. *)
Definition loop_error {A} (v : Z + A) : Z :=
  match v with inl err => err | inr _ => 0 end.

(** The kind of a [report] event. *)
Definition event_kind (e : event) : option fsck_msg_id :=
  match e with EvReport id _ _ => Some id | _ => None end.

(** The sum of what the [report] calls returned. *)
Definition sum_results (evs : list event) : Z :=
  foldr (fun e acc => event_result e + acc) 0 evs.

(** The kinds that [fsck_tree] reports, in the order of its [report]
    calls. *)
Definition tree_kinds : list fsck_msg_id :=
  [ FSCK_MSG_NULL_SHA1; FSCK_MSG_FULL_PATHNAME; FSCK_MSG_EMPTY_NAME;
    FSCK_MSG_HAS_DOT; FSCK_MSG_HAS_DOTDOT; FSCK_MSG_HAS_DOTGIT;
    FSCK_MSG_ZERO_PADDED_FILEMODE; FSCK_MSG_BAD_FILEMODE;
    FSCK_MSG_DUPLICATE_ENTRIES; FSCK_MSG_TREE_NOT_SORTED ].

(** [r] is 0 or a value that the sink of [options] returns for [obj]. *)
Definition sink_value (options : fsck_options) (obj : option object)
  (r : Z) : Prop :=
  r = 0 \/ exists severity text, r = error_func options obj severity text.

(** [m] returns [base] plus the sum of what its [report] calls returned;
    the calls are about [obj], one for each kind of [kinds] in that
    order. *)
Definition tallies (options : fsck_options) (obj : option object)
  (base : Z) (kinds : list fsck_msg_id) (m : M Z) : Prop :=
  forall w, exists r w' evs,
    runs m w r w' evs
    /\ Forall (about obj) evs
    /\ Forall (fun e => sink_value options obj (event_result e)) evs
    /\ event_kind <$> evs = Some <$> kinds
    /\ r = base + sum_results evs.

(** A tree with a null name, a bad mode and two entries out of order. *)
Definition untidy_tree : object :=
  Tree "0123456789abcdefghij" 0
    [ mk_tree_entry "1" (Z.lor S_IFREG 420) "b" "0123456789abcdefghij";
      mk_tree_entry "1" (Z.lor S_IFREG 511) "a" "0123456789abcdefghij" ].

(** What one entry of a tree must look like for [fsck_tree] to raise the
    flag of a kind, for the eight kinds that look at single entries. *)
Definition entry_trips `{Host} (strict : bool) (id : fsck_msg_id)
  (e : tree_entry) : bool :=
  match id with
  | FSCK_MSG_NULL_SHA1 => is_null_sha1 (entry_oid e)
  | FSCK_MSG_FULL_PATHNAME =>
      bool_decide (is_Some (strchr (entry_name e) "/"))
  | FSCK_MSG_EMPTY_NAME => String.eqb (entry_name e) ""
  | FSCK_MSG_HAS_DOT => String.eqb (entry_name e) "."
  | FSCK_MSG_HAS_DOTDOT => String.eqb (entry_name e) ".."
  | FSCK_MSG_HAS_DOTGIT =>
      String.eqb (entry_name e) ".git" || is_hfs_dotgit (entry_name e)
      || is_ntfs_dotgit (entry_name e)
  | FSCK_MSG_ZERO_PADDED_FILEMODE => Ascii.eqb (first_byte e) "0"
  | FSCK_MSG_BAD_FILEMODE => bad_mode strict (entry_mode e)
  | _ => false
  end.

(** The same for the two kinds that look at an entry and the one before
    it. *)
Definition pair_trips (id : fsck_msg_id) (o_mode : Z) (o_name : string)
  (e : tree_entry) : bool :=
  match id with
  | FSCK_MSG_DUPLICATE_ENTRIES =>
      Z.eqb (verify_ordered o_mode o_name (entry_mode e) (entry_name e))
        TREE_HAS_DUPS
  | FSCK_MSG_TREE_NOT_SORTED =>
      Z.eqb (verify_ordered o_mode o_name (entry_mode e) (entry_name e))
        TREE_UNORDERED
  | _ => false
  end.

(** Some entry of [desc] trips [id] together with the entry before it;
    [o] is the entry before the first. *)
Fixpoint pairs_trip (id : fsck_msg_id) (o : option (Z * string))
  (desc : list tree_entry) : bool :=
  match desc with
  | [] => false
  | e :: desc' =>
      match o with
      | Some (o_mode, o_name) => pair_trips id o_mode o_name e
      | None => false
      end
      || pairs_trip id (Some (entry_mode e, entry_name e)) desc'
  end.

(** A file [x], then [x.c], then a directory called [x] again. *)
Definition file_and_directory_x (oid : sha1) : list tree_entry :=
  [ mk_tree_entry "1" (Z.lor S_IFREG 420) "x" oid;
    mk_tree_entry "1" (Z.lor S_IFREG 420) "x.c" oid;
    mk_tree_entry "4" S_IFDIR "x" oid ].

(** Does a diagnostic of kind [id] count as an error when no severity
    was overridden?  Kinds that are [Fatal] or [Error] by default do, and
    [Warn] kinds under [strict]; [Info] kinds never. *)
Definition error_by_default (strict : bool) (id : fsck_msg_id) : bool :=
  match default_msg_type (msg_id_info id) with
  | FSCK_FATAL | FSCK_ERROR => true
  | FSCK_WARN => strict
  | _ => false
  end.

(** One step of a walk: a call of the callback, or the complaint about
    an entry whose mode is neither a directory, a file, a link nor a
    gitlink. *)
Inductive walk_step : Set :=
  | Visit (target : option object) (type : object_type)
  | BadMode (entry : tree_entry).

(** The step that [fsck_walk_tree] takes for an entry; none for a
    gitlink. *)
Definition entry_step `{Host} (entry : tree_entry) : option walk_step :=
  if S_ISGITLINK (entry_mode entry) then None
  else if S_ISDIR (entry_mode entry)
  then Some (Visit (lookup_tree (entry_oid entry)) OBJ_TREE)
  else if S_ISREG (entry_mode entry) || S_ISLNK (entry_mode entry)
  then Some (Visit (lookup_blob (entry_oid entry)) OBJ_BLOB)
  else Some (BadMode entry).

(** The steps of [fsck_walk_commit]: the tree, then the parents. *)
Definition commit_steps (tree : option object) (parents : list object)
  : list walk_step :=
  Visit tree OBJ_TREE :: map (fun p => Visit (Some p) OBJ_COMMIT) parents.

(** What a step results in, and the event it leaves. *)
Definition step_result (options : fsck_options) (s : walk_step) : Z :=
  match s with
  | Visit target type => walk options target type
  | BadMode _ => -1
  end.

Definition step_event `{Host} (options : fsck_options) (tree : object)
  (s : walk_step) : event :=
  match s with
  | Visit target type => EvWalk target type (walk options target type)
  | BadMode entry =>
      EvError ("in tree " +:+ sha1_to_hex (obj_hash tree)
               +:+ ": entry " +:+ entry_name entry
               +:+ " has bad mode " +:+ octal6 (entry_mode entry))
  end.

(** The steps up to and with the first whose result is negative. *)
Fixpoint until_negative (f : walk_step -> Z) (steps : list walk_step)
  : list walk_step :=
  match steps with
  | [] => []
  | s :: steps' =>
      if Z.ltb (f s) 0 then [s] else s :: until_negative f steps'
  end.

(** The result of a walk that starts with [res]: the first negative
    result, else [res] or, when that is 0, the first result that is not
    0. *)
Definition walk_from (res : Z) (results : list Z) : Z :=
  match List.find (fun r => Z.ltb r 0) results with
  | Some r => r
  | None =>
      if Z.eqb res 0
      then default 0 (List.find (fun r => negb (Z.eqb r 0)) results)
      else res
  end.

(** The date, time zone and end of an identity line: the date, a space,
    a sign, four digits and LF, before [rest]. *)
Definition date_and_zone (date : string) (sign d1 d2 d3 d4 : ascii)
  (rest : string) : string :=
  date
  +:+ String " "
        (String sign
           (String d1 (String d2 (String d3 (String d4 (String LF rest)))))).

(** The example host, but one that knows every type name. *)
Definition lenient_host : Host := {|
  sha1_array_lookup := lookup_sorted;
  get_sha1_hex := hex_to_bytes 20;
  sha1_to_hex := bytes_to_hex;
  is_hfs_dotgit := fun _ => false;
  is_ntfs_dotgit := fun _ => false;
  strtoul := fun s => decimal s 0;
  date_overflows := fun n => (2 ^ 63 <=? n)%N;
  lookup_commit_graft := fun _ => None;
  get_commit_buffer := fun _ => EmptyString;
  type_from_string_gently := fun _ => 1;
  check_refname_format := fun _ => 0;
  typename := fun _ => EmptyString;
  read_sha1_file := fun _ => None;
  lookup_tree := fun _ => None;
  lookup_blob := fun _ => None;
  open_file := fun _ => None;
  uninitialized := fun n => String.concat EmptyString (repeat "?" n)
|}.

(** The lines of a tag, before what follows ["tagger "]. *)
Definition tag_lines (hex type name tagger : string) : string :=
  "object "
  +:+ (hex
       +:+ String LF
             ("type "
              +:+ (type
                   +:+ String LF
                         ("tag "
                          +:+ (name +:+ String LF ("tagger " +:+ tagger)))))).

(** An identity line that passes, and a tag and a commit made with
    it. *)
Definition thor_line : string :=
  ident_line "A U Thor " "author@example.com"
    (date_and_zone "1234567890" "+" "0" "1" "0" "0" EmptyString).

Definition example_hex : string :=
  "0123456789abcdef0123456789abcdef01234567".

Definition example_tag_buffer : string :=
  tag_lines example_hex "commit" "v1.0"
    (thor_line +:+ String LF "message").

(** [hex] is read as an object name whatever follows its line: 40
    characters that [get_sha1_hex] accepts. *)
Definition names_object `{Host} (hex : string) : Prop :=
  String.length hex = 40%nat
  /\ forall rest, bad_sha1_line (hex +:+ String LF rest) = false.

(** The [parent] lines for [hexes], before [rest]. *)
Fixpoint parent_block (hexes : list string) (rest : string) : string :=
  match hexes with
  | [] => rest
  | hex :: hexes' =>
      "parent " +:+ (hex +:+ String LF (parent_block hexes' rest))
  end.

(** The lines of a commit, before what follows ["author "]. *)
Definition commit_lines (tree_hex : string) (hexes : list string)
  (author : string) : string :=
  "tree "
  +:+ (tree_hex +:+ String LF (parent_block hexes ("author " +:+ author))).

Definition example_commit_buffer : string :=
  commit_lines example_hex [example_hex; example_hex]
    (thor_line +:+ ("committer " +:+ (thor_line +:+ String LF "message"))).

(** [m] returns with [next] as the second component after at most one
    [report] call, about [obj], whose result it returns. *)
Definition reports_once (obj : option object) (next : string)
  (m : M (Z * string)) : Prop :=
  forall w, exists r w' evs,
    runs m w (r, next) w' evs
    /\ ((evs = [] /\ r = 0)
        \/ exists id d,
             evs = [EvReport id obj d]
             /\ event_result (EvReport id obj d) = r).

(** [m] returns without a [report] call and leaves the skip lists as
    they were. *)
Definition quiet {A} (m : M A) : Prop :=
  forall w, exists a w' evs,
    runs m w a w' evs
    /\ arrays w' = arrays w
    /\ Forall (fun e => event_kind e = None) evs.

(** * Properties *)

(** ** The catalog *)

Lemma all_msg_ids_complete (id : fsck_msg_id) : In id all_msg_ids.
Proof. destruct id; vm_compute; tauto. Qed.

(** The [assert] of [append_msg_id] holds for every catalog name. *)
Lemma append_msg_id_catalog (id : fsck_msg_id) :
  append_msg_id "" (id_string (msg_id_info id)) = mret (msg_prefix id).
Proof. destruct id; reflexivity. Qed.

Lemma downcase_id_filter_map (p : string) :
  downcase_id p = lowercased_without_underscores p.
Proof.
  unfold lowercased_without_underscores.
  induction p as [|c p IH]; [reflexivity|].
  cbn [downcase_id list_ascii_of_string].
  rewrite filter_cons.
  destruct (Ascii.eqb_spec c "_") as [->|Hne].
  - rewrite decide_False by (intros Hc; apply Hc; reflexivity). exact IH.
  - rewrite decide_True by exact Hne.
    cbn [map string_of_list_ascii]. now rewrite IH.
Qed.

(** [parse_msg_id] finds every kind under its down-cased name. *)
Lemma parse_msg_id_downcased (id : fsck_msg_id) :
  parse_msg_id (downcased id) = Some id.
Proof. destruct id; vm_compute; reflexivity. Qed.

(** C4: for every diagnostic kind [k], the catalog's symbolic identifier of
    [k] with its underscores removed and the remaining characters
    lower-cased is parsed by [parse_msg_id] to exactly [k]. *)
Theorem parse_msg_id_roundtrip (k : fsck_msg_id) :
  parse_msg_id (lowercased_without_underscores (id_string (msg_id_info k)))
  = Some k.
Proof.
  rewrite <- downcase_id_filter_map.
  exact (parse_msg_id_downcased k).
Qed.

(** ** The reporter *)

Lemma collapse_as_in_report (t : msg_type) :
  (if bool_decide (t = FSCK_FATAL) then FSCK_ERROR
   else if bool_decide (t = FSCK_INFO) then FSCK_WARN else t) = collapse t.
Proof. destruct t; reflexivity. Qed.

Lemma fsck_msg_type_policy (id : fsck_msg_id)
  (options : fsck_options) :
  fsck_msg_type id options = policy_severity options id.
Proof.
  unfold fsck_msg_type, policy_severity.
  destruct (msg_type_table options); [reflexivity|].
  destruct (default_msg_type (msg_id_info id)), (strict options);
    reflexivity.
Qed.

(** [report], case by case. *)
Lemma report_cases `{Host} (options : fsck_options)
  (object : option object) (id : fsck_msg_id) (message : string)
  (w : world) :
  report options object id message w =
  if bool_decide (policy_severity options id = FSCK_IGNORE) then
    Ok (0, add_event (EvReport id object Ignored) w)
  else
    match skiplist options, object with
    | Some p, Some obj =>
        let w1 :=
          set_array p (sha1_array_lookup (arrays w p) (obj_hash obj)).2 w in
        if Z.leb 0 (sha1_array_lookup (arrays w p) (obj_hash obj)).1 then
          Ok (0, add_event (EvReport id object Skipped) w1)
        else Ok (deliver options object id message w1)
    | _, _ => Ok (deliver options object id message w)
    end.
Proof.
  unfold report, deliver. rewrite fsck_msg_type_policy.
  destruct (bool_decide (policy_severity options id = FSCK_IGNORE));
    [reflexivity|].
  rewrite collapse_as_in_report, append_msg_id_catalog.
  destruct (skiplist options) as [p|], object as [obj|]; try reflexivity.
  unfold mbind, M_bind, get_array, put_array, mret, M_ret, emit.
  destruct (sha1_array_lookup (arrays w p) (obj_hash obj)) as [pos a'].
  cbn. destruct (Z.leb 0 pos); reflexivity.
Qed.

Lemma events_of_add {A} (m : M A) (w : world) (a : A) (e : event)
  (w1 : world) :
  m w = Ok (a, add_event e w1) -> log w1 = log w -> events_of m w = [e].
Proof.
  intros Hm Hlog. unfold events_of. rewrite Hm. cbn. rewrite Hlog.
  now rewrite drop_app_length.
Qed.

(** Every [report] call returns, and adds exactly one event, about its
    own kind and object. *)
Lemma report_one_event `{Host} (options : fsck_options)
  (object : option object) (id : fsck_msg_id) (message : string)
  (w : world) :
  exists r w' d,
    report options object id message w = Ok (r, w')
    /\ events_of (report options object id message) w
       = [EvReport id object d]
    /\ log w' = (log w ++ [EvReport id object d])%list
    /\ ((d = Ignored /\ r = 0) \/ (d = Skipped /\ r = 0)
        \/ (d = Delivered (collapse (policy_severity options id))
                 (msg_prefix id +:+ message) r
            /\ policy_severity options id <> FSCK_IGNORE)).
Proof.
  pose proof (report_cases options object id message w) as Hr.
  destruct (bool_decide_reflect (policy_severity options id = FSCK_IGNORE))
    as [Hig|Hig].
  { exists 0, (add_event (EvReport id object Ignored) w), Ignored.
    split; [exact Hr|]. split; [|split; [reflexivity|tauto]].
    eapply events_of_add; [exact Hr|reflexivity]. }
  destruct (skiplist options) as [p|], object as [obj|]; cbv zeta in Hr;
    try destruct (Z.leb 0 _);
    unfold deliver in Hr;
    (eexists _, _, _; split; [exact Hr|];
     split; [eapply events_of_add; [exact Hr|reflexivity]|];
     split; [reflexivity|tauto]).
Qed.

(** C1: for every diagnostic kind and every options value, the severity
    that [fsck_msg_type] yields is the table entry if an override table
    has been materialized and otherwise the catalog default with [Warn]
    promoted to [Error] under the strict flag; the severity used at report
    time, which is that one with [Fatal] collapsed to [Error] and [Info]
    to [Warn], is one of [Error], [Warn], [Ignore]; [report] always
    returns, and when it calls the sink it passes that collapsed severity,
    which is then [Error] or [Warn]. *)
Theorem report_time_severity `{Host} (options : fsck_options)
  (object : option object) (id : fsck_msg_id) (message : string)
  (w : world) :
  fsck_msg_type id options = policy_severity options id
  /\ In (collapse (fsck_msg_type id options))
       [FSCK_ERROR; FSCK_WARN; FSCK_IGNORE]
  /\ (exists r w', report options object id message w = Ok (r, w'))
  /\ Forall (fun e =>
       match e with
       | EvReport _ _ (Delivered severity _ _) =>
           severity = collapse (fsck_msg_type id options)
           /\ (severity = FSCK_ERROR \/ severity = FSCK_WARN)
       | _ => True
       end) (events_of (report options object id message) w).
Proof.
  split; [apply fsck_msg_type_policy|].
  split.
  { destruct (fsck_msg_type id options); cbn; tauto. }
  destruct (report_one_event options object id message w)
    as (r & w' & d & Hr & Hev & _ & Hd).
  split; [eauto|].
  rewrite Hev. constructor; [|constructor].
  destruct Hd as [ [-> _] | [ [-> _] | [-> Hig] ] ]; try exact I.
  rewrite fsck_msg_type_policy. split; [reflexivity|].
  destruct (policy_severity options id); cbn; tauto.
Qed.



(** The modelled lookup finds every name that is in the array. *)
Lemma position_found (h : sha1) (l : list sha1) (i : Z) :
  In h l -> 0 <= i -> 0 <= position h l i.
Proof.
  revert i. induction l as [|x l IH]; intros i Hin Hi; [destruct Hin|].
  cbn [position]. destruct (String.eqb_spec x h) as [_|Hne]; [exact Hi|].
  destruct Hin as [Heq|Hin]; [contradiction|]. apply IH; [exact Hin|lia].
Qed.

Lemma insert_sha1_In (h x : sha1) (l : list sha1) :
  In h (insert_sha1 x l) <-> h = x \/ In h l.
Proof.
  induction l as [|y l IH]; cbn [insert_sha1].
  - cbn. intuition congruence.
  - destruct (Z.ltb 0 (hashcmp y x)); cbn [In] in *;
      [intuition congruence|]. rewrite IH. intuition congruence.
Qed.

Lemma lookup_sorted_finds (a : sha1_array) (h : sha1) :
  In h (sha1s a) -> 0 <= (lookup_sorted a h).1.
Proof.
  intros Hin. unfold lookup_sorted. cbn [fst].
  apply position_found; [|lia].
  destruct (sorted a); [exact Hin|]. cbn [sha1s].
  induction (sha1s a) as [|x l IH]; [destruct Hin|].
  cbn [foldr]. apply insert_sha1_In.
  destruct Hin as [->|Hin]; [now left|right; now apply IH].
Qed.

(** ** Overrides *)

(** C3: for every diagnostic kind whose default severity is [Fatal],
    [fsck_set_msg_type] with severity ["warn"] or ["ignore"] ends the
    process ([die]), while with ["error"] it succeeds, and the kind's
    severity is then [Error] with every other kind's unchanged. *)
Theorem fatal_not_demoted (options : fsck_options)
  (msg_id : string) (id : fsck_msg_id) (w : world) :
  parse_msg_id msg_id = Some id ->
  default_msg_type (msg_id_info id) = FSCK_FATAL ->
  fsck_set_msg_type options msg_id "warn" w
  = Died ("Cannot demote " +:+ msg_id +:+ " to warn")
  /\ fsck_set_msg_type options msg_id "ignore" w
     = Died ("Cannot demote " +:+ msg_id +:+ " to ignore")
  /\ exists options',
       fsck_set_msg_type options msg_id "error" w = Ok (options', w)
       /\ fsck_msg_type id options' = FSCK_ERROR
       /\ forall other, other <> id ->
            fsck_msg_type other options' = fsck_msg_type other options.
Proof.
  intros Hid Hfatal. unfold fsck_set_msg_type. rewrite Hid, Hfatal.
  split; [reflexivity|]. split; [reflexivity|].
  eexists. split; [reflexivity|]. split.
  - cbn. unfold table_set. now rewrite decide_True.
  - intros other Hne. unfold fsck_msg_type. cbn. unfold table_set.
    rewrite decide_False by exact Hne.
    destruct (msg_type_table options); reflexivity.
Qed.

Lemma fatal_not_demoted_witness :
  fsck_set_msg_type FSCK_OPTIONS_DEFAULT "nulinheader" "warn" initial_world
  = Died "Cannot demote nulinheader to warn"
  /\ fsck_set_msg_type FSCK_OPTIONS_DEFAULT
       "nulinheader" "ignore" initial_world
     = Died "Cannot demote nulinheader to ignore"
  /\ exists options',
       fsck_set_msg_type FSCK_OPTIONS_DEFAULT
         "nulinheader" "error" initial_world = Ok (options', initial_world)
       /\ fsck_msg_type FSCK_MSG_NUL_IN_HEADER options'
          = FSCK_ERROR
       /\ forall other, other <> FSCK_MSG_NUL_IN_HEADER ->
            fsck_msg_type other options'
            = fsck_msg_type other FSCK_OPTIONS_DEFAULT.
Proof.
  apply (fatal_not_demoted FSCK_OPTIONS_DEFAULT
           "nulinheader" FSCK_MSG_NUL_IN_HEADER initial_world).
  - reflexivity.
  - reflexivity.
Defined.

(** ** Strings *)

Lemma length_append (a b : string) :
  String.length (a +:+ b) = (String.length a + String.length b)%nat.
Proof. induction a as [|c a IH]; simpl; [reflexivity|now f_equal]. Qed.

Lemma length_advance (i : nat) (s : string) :
  String.length (advance i s) = (String.length s - i)%nat.
Proof.
  revert s. induction i as [|i IH]; intros s; cbn [advance].
  - lia.
  - destruct s as [|c s]; [reflexivity|]. rewrite IH. reflexivity.
Qed.

Lemma length_take_bytes (i : nat) (s : string) :
  (String.length (take_bytes i s) <= String.length s)%nat.
Proof.
  revert s. induction i as [|i IH]; intros s; cbn [take_bytes].
  - cbn. lia.
  - destruct s as [|c s]; [reflexivity|].
    cbn [String.length]. specialize (IH s). lia.
Qed.

Lemma append_cons (c : ascii) (a b : string) :
  String c a +:+ b = String c (a +:+ b).
Proof. reflexivity. Qed.

Lemma append_assoc (a b c : string) : (a +:+ b) +:+ c = a +:+ (b +:+ c).
Proof.
  induction a as [|x a IH]; [reflexivity|].
  rewrite !append_cons. now rewrite IH.
Qed.

Lemma append_nil_r (a : string) : a +:+ EmptyString = a.
Proof.
  induction a as [|x a IH]; [reflexivity|].
  rewrite append_cons. now rewrite IH.
Qed.

Lemma take_bytes_append (a b : string) :
  take_bytes (String.length a) (a +:+ b) = a.
Proof. induction a as [|c a IH]; simpl; [now destruct b|now f_equal]. Qed.

Lemma take_bytes_all (s : string) : take_bytes (String.length s) s = s.
Proof. induction s as [|c s IH]; simpl; [reflexivity|now f_equal]. Qed.

Lemma advance_append (a b : string) :
  advance (String.length a) (a +:+ b) = b.
Proof. induction a as [|c a IH]; cbn; [reflexivity|exact IH]. Qed.

Lemma advance_plus (i j : nat) (s : string) :
  advance (i + j) s = advance j (advance i s).
Proof.
  revert s. induction i as [|i IH]; intros s; [reflexivity|].
  destruct s as [|c s]; cbn; [now destruct j|apply IH].
Qed.

Lemma char_at_append (a b : string) (i : nat) :
  char_at (a +:+ b) (String.length a + i) = char_at b i.
Proof. unfold char_at. induction a as [|c a IH]; cbn; [reflexivity|exact IH]. Qed.

Lemma char_at_append_l (a b : string) (i : nat) :
  (i < String.length a)%nat -> char_at (a +:+ b) i = char_at a i.
Proof.
  unfold char_at. revert i. induction a as [|c a IH]; intros i Hi; cbn in *.
  - lia.
  - destruct i as [|i]; [reflexivity|]. apply IH. lia.
Qed.

Lemma char_at_length (s : string) : char_at s (String.length s) = NUL.
Proof. unfold char_at. induction s as [|c s IH]; cbn; [reflexivity|exact IH]. Qed.

Lemma free_of_cons (reject : string) (c : ascii) (s : string) :
  free_of reject (String c s) <->
  mem_char c reject = false /\ free_of reject s.
Proof.
  unfold free_of. cbn. destruct (mem_char c reject); split.
  - discriminate.
  - intros [? _]; discriminate.
  - intros Heq. split; [reflexivity|]. now injection Heq.
  - intros [_ ->]. reflexivity.
Qed.

Lemma strcspn_append (reject a b : string) :
  free_of reject a ->
  strcspn (a +:+ b) reject = (String.length a + strcspn b reject)%nat.
Proof.
  induction a as [|c a IH]; intros Hfree; [reflexivity|].
  apply free_of_cons in Hfree as [Hc Hfree].
  simpl. rewrite Hc. now rewrite IH.
Qed.

(** The separators of the override list and of a token are not letters:
    a character that [tolower] maps to none of them is none of them. *)
Lemma tolower_separator (c : ascii) :
  mem_char (tolower c) " ,|=:" = false ->
  mem_char c " ,|" = false /\ mem_char c "=:" = false.
Proof.
  destruct c as [[] [] [] [] [] [] [] []]; vm_compute; intros Hc;
    first [discriminate Hc | split; reflexivity].
Qed.

Lemma tolower_free_of (s : string) :
  free_of " ,|=:" (map_string tolower s) ->
  free_of " ,|" s /\ free_of "=:" s.
Proof.
  induction s as [|c s IH]; intros Hfree.
  - split; reflexivity.
  - cbn [map_string] in Hfree.
    apply free_of_cons in Hfree as [Hc Hfree].
    apply tolower_separator in Hc as [Hc1 Hc2].
    destruct (IH Hfree) as [IH1 IH2].
    split; apply free_of_cons; split; assumption.
Qed.

(** The user-facing names hold no separator, and none is [skiplist]. *)
Lemma downcased_plain (k : fsck_msg_id) :
  free_of " ,|=:" (downcased k)
  /\ String.eqb (downcased k) "skiplist" = false.
Proof. destruct k; vm_compute; split; reflexivity. Qed.

Lemma bind_mret_run {A} (m : M A) (w : world) :
  (x ← m; mret x) w = m w.
Proof.
  unfold mbind, M_bind, mret, M_ret.
  destruct (m w) as [[a w']| |]; reflexivity.
Qed.

(** ** Override lists *)

(** More fuel than the length of the list changes nothing. *)
Lemma set_msg_types_loop_fuel `{Host} (fuel1 fuel2 : nat)
  (options : fsck_options) (buf : string) (w : world) :
  (String.length buf < fuel1)%nat -> (String.length buf < fuel2)%nat ->
  set_msg_types_loop fuel1 options buf w
  = set_msg_types_loop fuel2 options buf w.
Proof.
  revert fuel2 options buf w.
  induction fuel1 as [|fuel1 IH]; intros fuel2 options buf w H1 H2; [lia|].
  destruct fuel2 as [|fuel2]; [lia|].
  cbn [set_msg_types_loop].
  assert (Hrest : forall i fuel, (0 < i)%nat -> buf <> EmptyString ->
                    (String.length buf < S fuel)%nat ->
                    (String.length (advance i buf) < fuel)%nat).
  { intros i fuel Hi Hbuf Hlt. rewrite length_advance.
    destruct buf; [congruence|]. cbn [String.length] in *. lia. }
  destruct (Nat.eqb_spec (strcspn buf " ,|") 0) as [Hz|Hnz].
  - destruct (is_nul _) eqn:Hdone; [reflexivity|].
    assert (Hbuf : buf <> EmptyString).
    { intros ->. rewrite Hz in Hdone. discriminate Hdone. }
    apply IH; apply Hrest; auto; lia.
  - assert (Hbuf : buf <> EmptyString) by (intros ->; apply Hnz; reflexivity).
    assert (Hnext : forall options' w',
              (if is_nul (char_at buf (strcspn buf " ,|"))
               then mret options'
               else set_msg_types_loop fuel1 options'
                      (advance (strcspn buf " ,|" + 1) buf)) w'
              = (if is_nul (char_at buf (strcspn buf " ,|"))
                 then mret options'
                 else set_msg_types_loop fuel2 options'
                        (advance (strcspn buf " ,|" + 1) buf)) w').
    { intros options' w'. destruct (is_nul _); [reflexivity|].
      apply IH; apply Hrest; auto; lia. }
    destruct (String.eqb _ "skiplist");
      (destruct (Nat.eqb _ _); [reflexivity|]);
      unfold mbind, M_bind;
      match goal with
      | |- match ?m with _ => _ end = _ =>
          destruct m as [[options' w']| |]
      end; try reflexivity; apply Hnext.
Qed.

(** The first token [<name><sep><severity>] of a list is handed to
    [fsck_set_msg_type] with the name lower-cased and nothing else done
    to it; [tail] is empty or starts with a separator of the list. *)
Lemma set_msg_types_token `{Host} (fuel : nat)
  (options : fsck_options) (name severity tail : string) (sep : ascii)
  (w : world) :
  free_of " ,|" name -> free_of "=:" name ->
  sep = "="%char \/ sep = ":"%char ->
  free_of " ,|" severity ->
  String.eqb (map_string tolower name) "skiplist" = false ->
  strcspn tail " ,|" = O ->
  set_msg_types_loop (S fuel) options
    (name +:+ String sep (severity +:+ tail)) w
  = (options' ← fsck_set_msg_type options (map_string tolower name)
                  severity;
     match tail with
     | EmptyString => mret options'
     | String delim rest =>
         if is_nul delim then mret options'
         else set_msg_types_loop fuel options' rest
     end) w.
Proof.
  intros Hname1 Hname2 Hsep Hsev Hskip Htail.
  assert (Hsepc : mem_char sep " ,|" = false /\ mem_char sep "=:" = true).
  { destruct Hsep as [-> | ->]; split; reflexivity. }
  destruct Hsepc as [Hsep1 Hsep2].
  set (token := name +:+ String sep severity).
  assert (Hvalues : name +:+ String sep (severity +:+ tail)
                    = token +:+ tail).
  { unfold token. symmetry. apply (append_assoc name (String sep severity)). }
  assert (Htoken : free_of " ,|" token).
  { unfold free_of, token. rewrite strcspn_append by exact Hname1.
    rewrite length_append. f_equal.
    apply free_of_cons. split; assumption. }
  assert (Hlen : strcspn (token +:+ tail) " ,|" = String.length token).
  { rewrite strcspn_append by exact Htoken. rewrite Htail. lia. }
  assert (Hlen' : String.length token
                  = S (String.length name + String.length severity)).
  { unfold token. rewrite length_append. simpl. lia. }
  assert (Hequal : strcspn token "=:" = String.length name).
  { unfold token. rewrite strcspn_append by exact Hname2.
    cbn [strcspn]. rewrite Hsep2. lia. }
  assert (T1 : take_bytes (String.length name) token = name).
  { unfold token. apply take_bytes_append. }
  assert (T2 : advance (String.length name + 1) token = severity).
  { unfold token. rewrite advance_plus, advance_append. reflexivity. }
  assert (T3 : char_at (token +:+ tail) (String.length token)
               = char_at tail 0).
  { rewrite <- (Nat.add_0_r (String.length token)) at 1.
    apply char_at_append. }
  assert (T4 : advance (String.length token + 1) (token +:+ tail)
               = advance 1 tail).
  { rewrite advance_plus, advance_append. reflexivity. }
  rewrite Hvalues. cbn [set_msg_types_loop].
  rewrite Hlen, take_bytes_append, Hequal, T1, T2, T3, T4, Hskip.
  replace (Nat.eqb (String.length token) 0)
    with false by (symmetry; apply Nat.eqb_neq; lia).
  replace (Nat.eqb (String.length name) (String.length token))
    with false by (symmetry; apply Nat.eqb_neq; lia).
  unfold mbind, M_bind.
  destruct (fsck_set_msg_type _ _ _ w) as [[options' w']| |];
    try reflexivity.
  destruct tail as [|delim rest]; reflexivity.
Qed.

(** C8 as the code has it: the kind name of a [<kind>=<severity>] or
    [<kind>:<severity>] token is matched case-insensitively against the
    catalog name with its underscores removed.  For every kind [k], every
    spelling that differs from that name only in letter case selects [k]:
    the token, alone or at the head of a list, is handled as
    [fsck_set_msg_type] handles the name of [k], and whenever the
    severity is one that may be set for [k], the severity of [k] is set
    to it. *)
Theorem kind_name_case_insensitive `{Host} (k : fsck_msg_id)
  (spelling severity : string) (sep : ascii) (options : fsck_options)
  (w : world) :
  map_string tolower spelling = downcased k ->
  sep = "="%char \/ sep = ":"%char ->
  free_of " ,|" severity ->
  parse_msg_id (map_string tolower spelling) = Some k
  /\ fsck_set_msg_types options (spelling +:+ String sep severity) w
     = fsck_set_msg_type options (downcased k) severity w
  /\ (forall delim rest,
        mem_char delim " ,|" = true ->
        fsck_set_msg_types options
          (spelling +:+ String sep (severity +:+ String delim rest)) w
        = (options' ← fsck_set_msg_type options (downcased k) severity;
           fsck_set_msg_types options' rest) w)
  /\ forall type,
       parse_msg_type severity w = Ok (type, w) ->
       type = FSCK_ERROR \/ default_msg_type (msg_id_info k) <> FSCK_FATAL ->
       exists options',
         fsck_set_msg_types options (spelling +:+ String sep severity) w
         = Ok (options', w)
         /\ fsck_msg_type k options' = type.
Proof.
  intros Hlower Hsep Hsev.
  destruct (downcased_plain k) as [Hplain Hskip].
  rewrite <- Hlower in Hplain, Hskip.
  destruct (tolower_free_of spelling Hplain) as [Hfree1 Hfree2].
  assert (Hrun : fsck_set_msg_types options
                   (spelling +:+ String sep severity) w
                 = fsck_set_msg_type options (downcased k) severity w).
  { unfold fsck_set_msg_types.
    pose proof (set_msg_types_token
                  (String.length (spelling +:+ String sep severity))
                  options spelling severity EmptyString sep w
                  Hfree1 Hfree2 Hsep Hsev Hskip eq_refl) as Htok.
    assert (Hnil : severity +:+ EmptyString = severity).
    { apply append_nil_r. }
    rewrite Hnil in Htok. rewrite Htok, Hlower.
    apply bind_mret_run. }
  split; [rewrite Hlower; apply parse_msg_id_downcased|].
  split; [exact Hrun|]. split.
  - intros delim rest Hdelim. unfold fsck_set_msg_types.
    rewrite set_msg_types_token; try assumption.
    2: { cbn [strcspn]. now rewrite Hdelim. }
    rewrite Hlower. unfold mbind, M_bind.
    destruct (fsck_set_msg_type _ _ _ w) as [[options' w']| |];
      try reflexivity.
    assert (Hnn : is_nul delim = false).
    { destruct (is_nul delim) eqn:Hn; [|reflexivity].
      apply Ascii.eqb_eq in Hn. subst delim. discriminate Hdelim. }
    rewrite Hnn. apply set_msg_types_loop_fuel; [|lia].
    rewrite !length_append. cbn [String.length].
    rewrite !length_append. cbn [String.length]. lia.
  - intros type Htype Hallowed. rewrite Hrun.
    unfold fsck_set_msg_type. rewrite parse_msg_id_downcased.
    unfold mbind at 1, M_bind at 1. rewrite Htype.
    assert (Hcheck : bool_decide (type <> FSCK_ERROR)
                     && bool_decide (default_msg_type (msg_id_info k)
                                     = FSCK_FATAL) = false).
    { destruct Hallowed as [-> | Hnf].
      - reflexivity.
      - rewrite (bool_decide_eq_false_2 _ Hnf). apply andb_false_r. }
    rewrite Hcheck. eexists. split; [reflexivity|].
    unfold fsck_msg_type. cbn. unfold table_set. now rewrite decide_True.
Qed.

Lemma kind_name_case_insensitive_witness :
  parse_msg_id (map_string tolower "BadDate") = Some FSCK_MSG_BAD_DATE
  /\ fsck_set_msg_types (H := example_host) FSCK_OPTIONS_STRICT
       "BadDate=warn" initial_world
     = fsck_set_msg_type FSCK_OPTIONS_STRICT "baddate" "warn" initial_world
  /\ (forall delim rest,
        mem_char delim " ,|" = true ->
        fsck_set_msg_types (H := example_host) FSCK_OPTIONS_STRICT
          ("BadDate" +:+ String "=" ("warn" +:+ String delim rest))
          initial_world
        = (options' ← fsck_set_msg_type FSCK_OPTIONS_STRICT "baddate"
                        "warn";
           fsck_set_msg_types (H := example_host) options' rest)
            initial_world)
  /\ forall type,
       parse_msg_type "warn" initial_world = Ok (type, initial_world) ->
       type = FSCK_ERROR
       \/ default_msg_type (msg_id_info FSCK_MSG_BAD_DATE) <> FSCK_FATAL ->
       exists options',
         fsck_set_msg_types (H := example_host) FSCK_OPTIONS_STRICT
           "BadDate=warn" initial_world
         = Ok (options', initial_world)
         /\ fsck_msg_type FSCK_MSG_BAD_DATE options' = type.
Proof.
  apply (kind_name_case_insensitive (H := example_host) FSCK_MSG_BAD_DATE
           "BadDate" "warn" "="%char FSCK_OPTIONS_STRICT initial_world).
  - reflexivity.
  - left. reflexivity.
  - reflexivity.
Defined.

(** C8 as stated fails: the symbolic name [BAD_DATE] of the kind
    [FSCK_MSG_BAD_DATE], spelled with its underscore, is not matched; the
    process dies with an unknown-kind error. *)
Lemma kind_name_with_underscore_rejected :
  id_string (msg_id_info FSCK_MSG_BAD_DATE) = "BAD_DATE"
  /\ fsck_set_msg_types (H := example_host) FSCK_OPTIONS_DEFAULT
       "BAD_DATE=warn" initial_world
     = Died "Unhandled message id: bad_date".
Proof. split; reflexivity. Qed.

(** ** Loading the skip list *)

(** The read loop changes no array but the function-static one. *)
Lemma read_skiplist_frame `{Host} (fuel : nat) (path : string) (f : file)
  (pos : nat) (buffer : string) (sorted : bool) (w w' : world)
  (r : bool) (p : array_ptr) :
  read_skiplist fuel path f pos buffer sorted w = Ok (r, w') ->
  p <> static_skiplist ->
  arrays w' p = arrays w p.
Proof.
  revert pos buffer sorted w.
  induction fuel as [|fuel IH]; intros pos buffer sorted w Hrun Hp.
  - discriminate Hrun.
  - cbn [read_skiplist] in Hrun.
    destruct (read_in_full f pos 41) as [chunk|]; [|discriminate Hrun].
    destruct (Nat.eqb (String.length chunk) 0).
    { injection Hrun as _ <-. reflexivity. }
    destruct (get_sha1_hex _) as [h|]; [|discriminate Hrun].
    destruct (Ascii.eqb _ LF); [|discriminate Hrun].
    run_monad.
    apply IH in Hrun; [|exact Hp].
    rewrite Hrun. cbn. now rewrite decide_False.
Qed.

(** [init_skiplist] with a set supplied by the caller: the options keep
    pointing at the caller's set, and that set is left as it was. *)
Lemma init_skiplist_caller_set `{Host} (options options' : fsck_options)
  (path : string) (w w' : world) (p : array_ptr) :
  skiplist options = Some p ->
  p <> static_skiplist ->
  init_skiplist options path w = Ok (options', w') ->
  options' = options /\ arrays w' p = arrays w p.
Proof.
  intros Hsk Hp Hrun. unfold init_skiplist in Hrun. rewrite Hsk in Hrun.
  run_monad.
  destruct (open_file path) as [f|]; [|discriminate Hrun].
  destruct (read_skiplist _ path f 0 _ _ w) as [[r w1]| |] eqn:Hread;
    try discriminate Hrun.
  apply read_skiplist_frame with (p := p) in Hread; [|exact Hp].
  destruct r; injection Hrun as <- <-; (split; [reflexivity|]);
    cbn; rewrite ?decide_False by exact Hp; exact Hread.
Qed.

(** C9 fails on the code.  The caller supplies its own (empty) set,
    [caller_array 0], and the list [skiplist=skip] is processed: the
    options still point at the caller's set, which is still empty; the
    name read from the file went to the function-static array; and a
    diagnostic about the object named in the file is delivered to the
    sink, not skipped. *)
Theorem skiplist_not_loaded_into_caller_set :
  let options := with_skiplist FSCK_OPTIONS_DEFAULT (caller_array 0) in
  exists options' w',
    fsck_set_msg_types (H := example_host) options "skiplist=skip"
      initial_world = Ok (options', w')
    /\ skiplist options' = Some (caller_array 0)
    /\ sha1s (arrays w' (caller_array 0)) = []
    /\ sha1s (arrays w' static_skiplist) = [obj_hash listed_object]
    /\ events_of
         (report (H := example_host) options' (Some listed_object)
            FSCK_MSG_BAD_TYPE "invalid 'type' value") w'
       = [EvReport FSCK_MSG_BAD_TYPE (Some listed_object)
            (Delivered FSCK_ERROR "badType: invalid 'type' value" 1)].
Proof.
  cbv zeta.
  destruct (fsck_set_msg_types (H := example_host)
              (with_skiplist FSCK_OPTIONS_DEFAULT (caller_array 0))
              "skiplist=skip" initial_world)
    as [[options' w']| |] eqn:Hrun; try (vm_compute in Hrun; discriminate).
  exists options', w'. split; [reflexivity|].
  vm_compute in Hrun. injection Hrun as <- <-.
  repeat split; vm_compute; reflexivity.
Qed.

(** The other branch of [init_skiplist]: with no set supplied, the options
    are pointed at the array the names are appended to, and the listed
    object is skipped. *)
Lemma skiplist_loaded_into_default_set :
  exists options' w',
    fsck_set_msg_types (H := example_host) FSCK_OPTIONS_DEFAULT
      "skiplist=skip" initial_world = Ok (options', w')
    /\ skiplist options' = Some static_skiplist
    /\ sha1s (arrays w' static_skiplist) = [obj_hash listed_object]
    /\ events_of
         (report (H := example_host) options' (Some listed_object)
            FSCK_MSG_BAD_TYPE "invalid 'type' value") w'
       = [EvReport FSCK_MSG_BAD_TYPE (Some listed_object) Skipped].
Proof.
  destruct (fsck_set_msg_types (H := example_host) FSCK_OPTIONS_DEFAULT
              "skiplist=skip" initial_world)
    as [[options' w']| |] eqn:Hrun; try (vm_compute in Hrun; discriminate).
  exists options', w'. split; [reflexivity|].
  vm_compute in Hrun. injection Hrun as <- <-.
  repeat split; vm_compute; reflexivity.
Qed.

(** ** Null objects *)

(** C10 as the code has it: [fsck_object] on a null object pointer is a
    [report] of [BAD_OBJECT_SHA1] for that null object, and returns what
    the reporter returns: 0 when the kind is ignored, else the result of
    the sink for the null object, so -1 only when the sink itself
    returns -1.  The skip list is not consulted (the diagnostic is never
    [Skipped], no array is touched).  The sink has to take a null
    object, which [fsck_error_function] does not.  [fsck_walk] on a null
    object returns -1 and does nothing else. *)
Theorem fsck_object_null `{Host} (data : option string)
  (options : fsck_options) (w : world) :
  fsck_object None data options
  = report options None FSCK_MSG_BAD_OBJECT_SHA1 "no valid object to fsck"
  /\ (exists r w' d,
        fsck_object None data options w = Ok (r, w')
        /\ arrays w' = arrays w
        /\ log w' = (log w ++ [EvReport FSCK_MSG_BAD_OBJECT_SHA1 None d])%list
        /\ ((d = Ignored /\ r = 0)
            \/ exists severity message,
                 d = Delivered severity message r
                 /\ r = error_func options None severity message)
        /\ (r = -1 ->
            exists severity message,
              error_func options None severity message = -1))
  /\ (forall type message, fsck_error_function None type message = None)
  /\ fsck_walk None options w = Ok (-1, w).
Proof.
  split; [reflexivity|]. split; [|split; reflexivity].
  change (fsck_object None data options)
    with (report options None FSCK_MSG_BAD_OBJECT_SHA1
            "no valid object to fsck").
  rewrite report_cases.
  destruct (bool_decide (policy_severity options _ = FSCK_IGNORE)).
  - eexists _, _, _. split; [reflexivity|].
    split; [reflexivity|]. split; [reflexivity|].
    split; [left; split; reflexivity|discriminate].
  - destruct (skiplist options) as [p|]; unfold deliver;
      (eexists _, _, _; split; [reflexivity|];
       split; [reflexivity|]; split; [reflexivity|];
       split; [right; eexists _, _; split; reflexivity|]);
      intros Hr; eexists _, _; exact Hr.
Qed.

(** C10 as stated fails: with a sink that answers -1, [fsck_object] on a
    null object returns -1, the value the claim rules out. *)
Lemma null_object_returns_sink_result :
  ~ (forall r w',
       fsck_object (H := example_host) None None REFUSING_OPTIONS
         initial_world = Ok (r, w') ->
       r <> -1).
Proof.
  intros Hnot.
  eapply (Hnot (-1)); [vm_compute; reflexivity|reflexivity].
Qed.

(** ** Header blocks *)

Lemma char_at_cons_S (c : ascii) (s : string) (i : nat) :
  char_at (String c s) (S i) = char_at s i.
Proof. reflexivity. Qed.

Lemma separator_at_cons_S (c : ascii) (s : string) (j : nat) :
  separator_at (String c s) (S j) <-> separator_at s j.
Proof.
  unfold separator_at. rewrite !char_at_cons_S. cbn [String.length].
  intuition lia.
Qed.

Lemma is_nul_spec (c : ascii) : is_nul c = true <-> c = NUL.
Proof. unfold is_nul. apply Ascii.eqb_eq. Qed.

Lemma scan_spec_cons (c : ascii) (rest : string) (i : nat)
  (r : header_scan) :
  c <> NUL -> ~ separator_at (String c rest) 0 ->
  scan_spec rest (S i) r -> scan_spec (String c rest) i r.
Proof.
  intros Hc Hsep0 Hr.
  assert (Hnf : forall k, nul_free_before rest k ->
                  nul_free_before (String c rest) (S k)).
  { intros k Hfree [|j] Hj; [exact Hc|].
    rewrite char_at_cons_S. apply Hfree. lia. }
  assert (Hsf : forall k, separator_free_before rest k ->
                  separator_free_before (String c rest) (S k)).
  { intros k Hfree [|j] Hj; [exact Hsep0|].
    rewrite separator_at_cons_S. apply Hfree. lia. }
  destruct r as [n| |]; cbn [scan_spec] in *.
  - destruct Hr as (k & -> & Hk & Hnulk & Hfree & Hsfree).
    exists (S k). rewrite char_at_cons_S. cbn [String.length].
    split; [lia|]. split; [lia|]. split; [exact Hnulk|]. split; auto.
  - destruct Hr as (k & Hsepk & Hfree & Hsfree).
    exists (S k). split; [now apply separator_at_cons_S|]. split; auto.
  - destruct Hr as (Hfree & Hsfree). split.
    + apply (Hnf (String.length rest)). exact Hfree.
    + intros [|j]; [exact Hsep0|].
      rewrite separator_at_cons_S. apply Hsfree.
Qed.

Lemma verify_headers_loop_spec (rest : string) (i : nat) :
  scan_spec rest i (verify_headers_loop rest i).
Proof.
  revert i. induction rest as [|c rest IH]; intros i.
  - cbn. split.
    + intros j Hj. lia.
    + intros j (Hj & _). cbn in Hj. lia.
  - cbn [verify_headers_loop].
    destruct (is_nul c) eqn:Hnul.
    { apply is_nul_spec in Hnul. exists O. cbn [String.length].
      split; [lia|]. split; [lia|]. split; [exact Hnul|].
      split; intros j Hj; lia. }
    assert (Hc : c <> NUL).
    { intros Hc. apply is_nul_spec in Hc. congruence. }
    destruct (Ascii.eqb_spec c LF) as [->|HnotLF].
    + destruct rest as [|d rest'].
      * apply scan_spec_cons; [exact Hc| |apply IH].
        intros (Hlen & _). cbn in Hlen. lia.
      * destruct (Ascii.eqb_spec d LF) as [->|HdLF].
        -- exists O. split.
           ++ split; [cbn; lia|]. split; reflexivity.
           ++ split; intros j Hj; lia.
        -- apply scan_spec_cons; [exact Hc| |apply IH].
           intros (_ & _ & Hd). apply HdLF. exact Hd.
    + apply scan_spec_cons; [exact Hc| |apply IH].
      intros (_ & Hc0 & _). apply HnotLF. exact Hc0.
Qed.

(** C6: for every buffer, [verify_headers] reports [NUL_IN_HEADER] (for
    the first NUL byte) if a NUL byte occurs with no [LF LF] separator
    before it; otherwise it returns 0 without any diagnostic if there is
    an [LF LF] separator, or if there is none but the buffer is not empty
    and ends with LF; in all other cases it reports
    [UNTERMINATED_HEADER]. *)
Theorem verify_headers_verdict `{Host} (buffer : string)
  (obj : option object) (options : fsck_options) :
  ((exists i, nul_in_header buffer i) ->
   exists n,
     nul_in_header buffer n /\ nul_free_before buffer n
     /\ verify_headers buffer obj options
        = report options obj FSCK_MSG_NUL_IN_HEADER
            ("unterminated header: NUL at offset " +:+ pretty (Z.of_nat n)))
  /\ (~ (exists i, nul_in_header buffer i) ->
      (exists j, separator_at buffer j) \/ ends_with_LF buffer ->
      verify_headers buffer obj options = mret 0)
  /\ (~ (exists i, nul_in_header buffer i) ->
      ~ (exists j, separator_at buffer j) -> ~ ends_with_LF buffer ->
      verify_headers buffer obj options
      = report options obj FSCK_MSG_UNTERMINATED_HEADER
          "unterminated header").
Proof.
  pose proof (verify_headers_loop_spec buffer 0) as Hscan.
  unfold verify_headers.
  destruct (verify_headers_loop buffer 0) as [n| |]; cbn [scan_spec] in Hscan.
  - destruct Hscan as (k & -> & Hk & Hnul & Hfree & Hsfree).
    assert (Hin : nul_in_header buffer k) by (repeat split; assumption).
    split; [|split].
    + intros _. exists k. repeat split; assumption.
    + intros Hno. contradiction Hno. exists k. exact Hin.
    + intros Hno. contradiction Hno. exists k. exact Hin.
  - destruct Hscan as (k & Hsep & Hfree & Hsfree).
    split; [|split].
    + intros (i & Hi & Hnul & Hbefore). exfalso.
      destruct (Nat.lt_trichotomy i k) as [Hlt|[->|Hgt]].
      * exact (Hfree i Hlt Hnul).
      * destruct Hsep as (_ & HLF & _). rewrite HLF in Hnul.
        discriminate Hnul.
      * exact (Hbefore k Hgt Hsep).
    + reflexivity.
    + intros _ Hno. contradiction Hno. exists k. exact Hsep.
  - destruct Hscan as (Hfree & Hsfree).
    split; [|split].
    + intros (i & Hi & Hnul & _). exfalso. exact (Hfree i Hi Hnul).
    + intros _ [(j & Hsep)|(Hne & Hlast)].
      * exfalso. exact (Hsfree j Hsep).
      * apply Nat.eqb_neq in Hne. rewrite Hne, Hlast. reflexivity.
    + intros _ _ Hends.
      destruct (Nat.eqb_spec (String.length buffer) 0) as [Hz|Hnz];
        [reflexivity|].
      destruct (Ascii.eqb_spec (char_at buffer (String.length buffer - 1))
                  LF) as [Hlast|Hlast]; [|reflexivity].
      contradiction Hends. split; assumption.
Qed.

Lemma verify_headers_verdict_witness :
  (exists n,
     nul_in_header header_with_nul n /\ nul_free_before header_with_nul n
     /\ verify_headers (H := example_host) header_with_nul None
          FSCK_OPTIONS_DEFAULT
        = report (H := example_host) FSCK_OPTIONS_DEFAULT None
            FSCK_MSG_NUL_IN_HEADER
            ("unterminated header: NUL at offset " +:+ pretty (Z.of_nat n)))
  /\ verify_headers (H := example_host) header_with_body None
       FSCK_OPTIONS_DEFAULT = mret 0
  /\ verify_headers (H := example_host) header_cut_short None
       FSCK_OPTIONS_DEFAULT
     = report (H := example_host) FSCK_OPTIONS_DEFAULT None
         FSCK_MSG_UNTERMINATED_HEADER "unterminated header".
Proof.
  assert (Hbody : ~ (exists i, nul_in_header header_with_body i)).
  { intros (i & Hi & Hnul & _). cbn in Hi.
    destruct i as [|[|[|[|i]]]]; try discriminate Hnul. lia. }
  assert (Hshort : ~ (exists i, nul_in_header header_cut_short i)).
  { intros (i & Hi & Hnul & _). cbn in Hi.
    destruct i as [|i]; [discriminate Hnul|lia]. }
  split; [|split].
  - apply (verify_headers_verdict (H := example_host) header_with_nul None
             FSCK_OPTIONS_DEFAULT).
    exists 1%nat. split; [cbn; lia|]. split; [reflexivity|].
    intros [|j] Hj (Hlen & HLF & _); [discriminate HLF|lia].
  - apply (verify_headers_verdict (H := example_host) header_with_body None
             FSCK_OPTIONS_DEFAULT); [exact Hbody|].
    left. exists 1%nat. split; [cbn; lia|]. split; reflexivity.
  - apply (verify_headers_verdict (H := example_host) header_cut_short None
             FSCK_OPTIONS_DEFAULT); [exact Hshort| |].
    + intros (j & Hlen & _). cbn in Hlen. lia.
    + intros (_ & Hlast). discriminate Hlast.
Defined.

(** ** Tree order *)

Lemma no_nul_cons (c : ascii) (s : string) :
  no_nul (String c s) -> c <> NUL /\ no_nul s.
Proof.
  intros Hno. split.
  - apply (Hno O). cbn. lia.
  - intros i Hi. apply (Hno (S i)). cbn. lia.
Qed.

Lemma is_nul_false (c : ascii) : c <> NUL -> is_nul c = false.
Proof.
  intros Hc. destruct (is_nul c) eqn:Hn; [|reflexivity].
  apply is_nul_spec in Hn. contradiction.
Qed.

Lemma memcmp_cons (c1 c2 : ascii) (rest1 rest2 : string) (n : nat) :
  memcmp (String c1 rest1) (String c2 rest2) (S n)
  = if (byte_val c1 <? byte_val c2)%N then -1
    else if (byte_val c2 <? byte_val c1)%N then 1
    else memcmp rest1 rest2 n.
Proof. reflexivity. Qed.

Lemma min_length_cons (a b : nat) :
  (if Nat.ltb (S a) (S b) then S a else S b)
  = S (if Nat.ltb a b then a else b).
Proof.
  change (Nat.ltb (S a) (S b)) with (Nat.ltb a b).
  destruct (Nat.ltb a b); reflexivity.
Qed.

(** A common first byte can be dropped from both names. *)
Lemma verify_ordered_cons (mode1 mode2 : Z) (c1 c2 : ascii)
  (rest1 rest2 : string) :
  (byte_val c1 <? byte_val c2)%N = false ->
  (byte_val c2 <? byte_val c1)%N = false ->
  verify_ordered mode1 (String c1 rest1) mode2 (String c2 rest2)
  = verify_ordered mode1 rest1 mode2 rest2.
Proof.
  intros H12 H21. unfold verify_ordered. cbn [String.length].
  rewrite min_length_cons, memcmp_cons, H12, H21, !char_at_cons_S.
  reflexivity.
Qed.

(** A differing first byte decides. *)
Lemma verify_ordered_first_byte (mode1 mode2 : Z) (c1 c2 : ascii)
  (rest1 rest2 : string) :
  ((byte_val c1 <? byte_val c2)%N = true ->
   verify_ordered mode1 (String c1 rest1) mode2 (String c2 rest2) = 0)
  /\ ((byte_val c1 <? byte_val c2)%N = false ->
      (byte_val c2 <? byte_val c1)%N = true ->
      verify_ordered mode1 (String c1 rest1) mode2 (String c2 rest2)
      = TREE_UNORDERED).
Proof.
  unfold verify_ordered. cbn [String.length].
  rewrite min_length_cons, memcmp_cons.
  split; [intros ->|intros -> ->]; reflexivity.
Qed.

(** [verify_ordered] computes the path order of the specification. *)
Lemma verify_ordered_path_order (mode1 mode2 : Z) (name1 name2 : string) :
  no_nul name1 -> no_nul name2 ->
  verify_ordered mode1 name1 mode2 name2
  = path_order mode1 name1 mode2 name2.
Proof.
  revert name2.
  induction name1 as [|c1 rest1 IH]; intros [|c2 rest2] Hno1 Hno2.
  - reflexivity.
  - apply no_nul_cons in Hno2 as [Hc2 _].
    cbn [path_order]. unfold verify_ordered, virtual_end.
    cbn [String.length].
    change (Nat.ltb 0 (S (String.length rest2))) with true.
    cbn [memcmp Z.ltb Z.compare].
    change (char_at (String c2 rest2) 0) with c2.
    change (char_at EmptyString 0) with NUL.
    rewrite (is_nul_false c2 Hc2).
    change (is_nul NUL) with true. cbn [andb].
    destruct (S_ISDIR mode1); reflexivity.
  - apply no_nul_cons in Hno1 as [Hc1 _].
    cbn [path_order]. unfold verify_ordered, virtual_end.
    cbn [String.length].
    change (Nat.ltb (S (String.length rest1)) 0) with false.
    cbn [memcmp Z.ltb Z.compare].
    change (char_at (String c1 rest1) 0) with c1.
    change (char_at EmptyString 0) with NUL.
    rewrite (is_nul_false c1 Hc1).
    change (is_nul NUL) with true. cbn [andb].
    destruct (S_ISDIR mode2); reflexivity.
  - apply no_nul_cons in Hno1 as [_ Hno1].
    apply no_nul_cons in Hno2 as [_ Hno2].
    cbn [path_order].
    destruct (verify_ordered_first_byte mode1 mode2 c1 c2 rest1 rest2)
      as [Hlt Hgt].
    destruct (byte_val c1 <? byte_val c2)%N eqn:H12; [now apply Hlt|].
    destruct (byte_val c2 <? byte_val c1)%N eqn:H21; [now apply Hgt|].
    rewrite verify_ordered_cons by assumption.
    apply IH; assumption.
Qed.

Lemma memcmp_same (s : string) (n : nat) : memcmp s s n = 0.
Proof.
  revert s. induction n as [|n IH]; intros s; [reflexivity|].
  cbn [memcmp]. rewrite N.ltb_irrefl. apply IH.
Qed.

(** Two entries of the same name are duplicates, whatever their modes. *)
Lemma verify_ordered_same_name (mode1 mode2 : Z) (name : string) :
  verify_ordered mode1 name mode2 name = TREE_HAS_DUPS.
Proof.
  unfold verify_ordered. rewrite Nat.ltb_irrefl, memcmp_same.
  rewrite char_at_length. reflexivity.
Qed.

(** ** Runs and their events *)

Lemma runs_mret {A} (a : A) (w : world) : runs (mret a) w a w [].
Proof. split; [reflexivity|]. now rewrite app_nil_r. Qed.

Lemma runs_bind {A B} (m : M A) (k : A -> M B) (w w1 w2 : world) (a : A)
  (b : B) (evs1 evs2 : list event) :
  runs m w a w1 evs1 -> runs (k a) w1 b w2 evs2 ->
  runs (m ≫= k) w b w2 (evs1 ++ evs2)%list.
Proof.
  intros [Hm Hl1] [Hk Hl2]. split.
  - unfold mbind, M_bind. now rewrite Hm.
  - rewrite Hl2, Hl1. now rewrite app_assoc.
Qed.

Lemma runs_events {A} (m : M A) (w w' : world) (a : A)
  (evs : list event) :
  runs m w a w' evs -> events_of m w = evs.
Proof.
  intros [Hm Hl]. unfold events_of. rewrite Hm, Hl.
  apply drop_app_length.
Qed.

Lemma runs_report `{Host} (options : fsck_options)
  (object : option object) (id : fsck_msg_id) (message : string)
  (w : world) :
  exists r w' d,
    runs (report options object id message) w r w' [EvReport id object d].
Proof.
  destruct (report_one_event options object id message w)
    as (r & w' & d & Hr & _ & Hl & _).
  exists r, w', d. split; assumption.
Qed.

Lemma reported_nil (id : fsck_msg_id) : ~ reported id [].
Proof. intros (obj & d & []). Qed.

Lemma reported_app (id : fsck_msg_id) (evs1 evs2 : list event) :
  reported id (evs1 ++ evs2)%list <-> reported id evs1 \/ reported id evs2.
Proof.
  unfold reported. split.
  - intros (obj & d & Hin). apply in_app_or in Hin as [Hin|Hin]; eauto.
  - intros [(obj & d & Hin)|(obj & d & Hin)]; exists obj, d;
      apply in_or_app; tauto.
Qed.

Lemma reported_one (id id' : fsck_msg_id) (obj : option object)
  (d : disposition) :
  reported id [EvReport id' obj d] <-> id = id'.
Proof.
  unfold reported. split.
  - intros (o & d' & [Heq|[]]). now injection Heq.
  - intros ->. exists obj, d. left. reflexivity.
Qed.

(** A conditional report adds a report of its kind iff its flag is
    set. *)
Lemma runs_report_if `{Host} (flag : bool) (retval : Z)
  (options : fsck_options) (object : option object) (id : fsck_msg_id)
  (message : string) (w : world) :
  exists r w' evs,
    runs (report_if flag retval options object id message) w r w' evs
    /\ forall id', reported id' evs <-> flag = true /\ id' = id.
Proof.
  destruct flag; cbn [report_if].
  - destruct (runs_report options object id message w) as (r & w' & d & Hr).
    exists (retval + r), w', ([EvReport id object d] ++ [])%list.
    split.
    + eapply runs_bind; [exact Hr|apply runs_mret].
    + intros id'. cbn [app]. rewrite reported_one. tauto.
  - exists retval, w, []. split; [apply runs_mret|].
    intros id'. split; [intros Hr; now apply reported_nil in Hr|].
    intros [Hf _]. discriminate Hf.
Qed.

(** [fsck_tree] returns, and reports exactly the kinds whose flag the
    pass over the entries has set. *)
Lemma fsck_tree_reports `{Host} (item : object) (buffer : list tree_entry)
  (options : fsck_options) (w : world) :
  exists r w' evs,
    runs (fsck_tree item buffer options) w r w' evs
    /\ forall id,
         reported id evs
         <-> tree_flag (fsck_tree_loop (strict options) buffer None no_flags)
               id = true.
Proof.
  unfold fsck_tree.
  set (fl := fsck_tree_loop (strict options) buffer None no_flags).
  destruct (runs_report_if (has_null_sha1 fl) 0 options (Some item)
              FSCK_MSG_NULL_SHA1 "contains entries pointing to null sha1" w)
    as (r1 & w1 & e1 & R1 & P1).
  destruct (runs_report_if (has_full_path fl) r1 options (Some item)
              FSCK_MSG_FULL_PATHNAME "contains full pathnames" w1)
    as (r2 & w2 & e2 & R2 & P2).
  destruct (runs_report_if (has_empty_name fl) r2 options (Some item)
              FSCK_MSG_EMPTY_NAME "contains empty pathname" w2)
    as (r3 & w3 & e3 & R3 & P3).
  destruct (runs_report_if (has_dot fl) r3 options (Some item)
              FSCK_MSG_HAS_DOT "contains '.'" w3)
    as (r4 & w4 & e4 & R4 & P4).
  destruct (runs_report_if (has_dotdot fl) r4 options (Some item)
              FSCK_MSG_HAS_DOTDOT "contains '..'" w4)
    as (r5 & w5 & e5 & R5 & P5).
  destruct (runs_report_if (has_dotgit fl) r5 options (Some item)
              FSCK_MSG_HAS_DOTGIT "contains '.git'" w5)
    as (r6 & w6 & e6 & R6 & P6).
  destruct (runs_report_if (has_zero_pad fl) r6 options (Some item)
              FSCK_MSG_ZERO_PADDED_FILEMODE
              "contains zero-padded file modes" w6)
    as (r7 & w7 & e7 & R7 & P7).
  destruct (runs_report_if (has_bad_modes fl) r7 options (Some item)
              FSCK_MSG_BAD_FILEMODE "contains bad file modes" w7)
    as (r8 & w8 & e8 & R8 & P8).
  destruct (runs_report_if (has_dup_entries fl) r8 options (Some item)
              FSCK_MSG_DUPLICATE_ENTRIES "contains duplicate file entries"
              w8)
    as (r9 & w9 & e9 & R9 & P9).
  destruct (runs_report_if (not_properly_sorted fl) r9 options (Some item)
              FSCK_MSG_TREE_NOT_SORTED "not properly sorted" w9)
    as (r10 & w10 & e10 & R10 & P10).
  exists r10, w10,
    (e1 ++ e2 ++ e3 ++ e4 ++ e5 ++ e6 ++ e7 ++ e8 ++ e9 ++ e10 ++ [])%list.
  split.
  - repeat (eapply runs_bind; [eassumption|]). apply runs_mret.
  - intros id. rewrite !reported_app, P1, P2, P3, P4, P5, P6, P7, P8, P9, P10.
    pose proof (reported_nil id) as Hnil.
    destruct id; cbn [tree_flag];
      (split; [intros Hd; repeat (destruct Hd as [Hd|Hd]);
                 try (destruct Hd as [_ Hd]; discriminate Hd);
                 try (destruct Hd as [Hd _]; exact Hd);
                 try contradiction
              |intros Hf; try discriminate Hf; tauto]).
Qed.

Lemma has_dup_entries_kept `{Host} (strict : bool) (desc : list tree_entry)
  (o : option (Z * string)) (fl : tree_flags) :
  has_dup_entries fl = true ->
  has_dup_entries (fsck_tree_loop strict desc o fl) = true.
Proof.
  revert o fl. induction desc as [|e desc IH]; intros o fl Hfl;
    [exact Hfl|].
  cbn [fsck_tree_loop]. apply IH. cbn. now rewrite Hfl.
Qed.

(** Two neighbouring entries of the same name set [has_dup_entries],
    wherever they stand in the tree. *)
Lemma same_name_sets_has_dup_entries `{Host} (strict : bool)
  (before after : list tree_entry) (e1 e2 : tree_entry)
  (o : option (Z * string)) (fl : tree_flags) :
  entry_name e1 = entry_name e2 ->
  has_dup_entries
    (fsck_tree_loop strict (before ++ e1 :: e2 :: after) o fl) = true.
Proof.
  intros Hname. revert o fl.
  induction before as [|e before IH]; intros o fl.
  - cbn [app fsck_tree_loop]. apply has_dup_entries_kept.
    cbn. rewrite Hname, verify_ordered_same_name.
    apply orb_true_r.
  - cbn [app fsck_tree_loop]. apply IH.
Qed.

(** C5: the ordering check of tree entries is the path order of the
    specification: names are compared byte by byte up to the shorter
    length, and when one name is a strict prefix of the other, the
    virtual next character (the terminating byte, replaced by ['/'] iff
    the entry is a directory) is compared.  Consequently the regular file
    [a.c] followed by the directory [a] is accepted with no diagnostic at
    all, and two entries of the same name are duplicates, reported as
    [DUPLICATE_ENTRIES] and not as [TREE_NOT_SORTED]. *)
Theorem tree_entries_path_order `{Host} :
  (forall mode1 name1 mode2 name2,
     no_nul name1 -> no_nul name2 ->
     verify_ordered mode1 name1 mode2 name2
     = path_order mode1 name1 mode2 name2)
  /\ (forall item oid1 oid2 options,
        is_null_sha1 oid1 = false -> is_null_sha1 oid2 = false ->
        is_hfs_dotgit "a.c" = false -> is_ntfs_dotgit "a.c" = false ->
        is_hfs_dotgit "a" = false -> is_ntfs_dotgit "a" = false ->
        verify_ordered (Z.lor S_IFREG 420) "a.c" S_IFDIR "a" = 0
        /\ fsck_tree item (file_then_directory oid1 oid2) options = mret 0)
  /\ (forall item e1 e2 before after options w,
        entry_name e1 = entry_name e2 ->
        verify_ordered (entry_mode e1) (entry_name e1)
          (entry_mode e2) (entry_name e2) = TREE_HAS_DUPS
        /\ reported FSCK_MSG_DUPLICATE_ENTRIES
             (events_of
                (fsck_tree item (before ++ e1 :: e2 :: after) options) w)
        /\ ~ reported FSCK_MSG_TREE_NOT_SORTED
               (events_of (fsck_tree item [e1; e2] options) w)).
Proof.
  split; [|split].
  - intros. now apply verify_ordered_path_order.
  - intros item oid1 oid2 options Hn1 Hn2 Hh1 Hf1 Hh2 Hf2.
    split; [reflexivity|].
    unfold fsck_tree, file_then_directory.
    cbn [fsck_tree_loop fsck_tree_entry entry_mode entry_name entry_oid
           first_byte no_flags has_null_sha1 has_full_path has_empty_name
           has_dot has_dotdot has_dotgit has_zero_pad has_bad_modes
           has_dup_entries not_properly_sorted].
    rewrite Hn1, Hn2, Hh1, Hf1, Hh2, Hf2.
    destruct (strict options); reflexivity.
  - intros item e1 e2 before after options w Hname.
    split; [rewrite Hname; apply verify_ordered_same_name|].
    split.
    + destruct (fsck_tree_reports item (before ++ e1 :: e2 :: after)
                  options w) as (r & w' & evs & Hrun & Hrep).
      rewrite (runs_events _ _ _ _ _ Hrun). apply Hrep. cbn [tree_flag].
      now apply same_name_sets_has_dup_entries.
    + destruct (fsck_tree_reports item [e1; e2] options w)
        as (r & w' & evs & Hrun & Hrep).
      rewrite (runs_events _ _ _ _ _ Hrun). rewrite Hrep. cbn [tree_flag].
      cbn. rewrite Hname, verify_ordered_same_name. cbn. discriminate.
Qed.

Lemma tree_entries_path_order_witness :
  verify_ordered S_IFDIR "a" (Z.lor S_IFREG 420) "a.c"
  = path_order S_IFDIR "a" (Z.lor S_IFREG 420) "a.c"
  /\ (verify_ordered (Z.lor S_IFREG 420) "a.c" S_IFDIR "a" = 0
      /\ fsck_tree (H := example_host) skipped_tree
           (file_then_directory "1" "2") FSCK_OPTIONS_STRICT = mret 0)
  /\ (verify_ordered (Z.lor S_IFREG 420) "foo" S_IFDIR "foo" = TREE_HAS_DUPS
      /\ reported FSCK_MSG_DUPLICATE_ENTRIES
           (events_of
              (fsck_tree (H := example_host) skipped_tree
                 ([] ++ [mk_tree_entry "1" (Z.lor S_IFREG 420) "foo" "1";
                         mk_tree_entry "4" S_IFDIR "foo" "2"])
                 FSCK_OPTIONS_DEFAULT) initial_world)
      /\ ~ reported FSCK_MSG_TREE_NOT_SORTED
             (events_of
                (fsck_tree (H := example_host) skipped_tree
                   [mk_tree_entry "1" (Z.lor S_IFREG 420) "foo" "1";
                    mk_tree_entry "4" S_IFDIR "foo" "2"]
                   FSCK_OPTIONS_DEFAULT) initial_world)).
Proof.
  destruct (tree_entries_path_order (H := example_host))
    as (Horder & Hexample & Hdups).
  split; [|split].
  - apply Horder; intros i Hi; cbn in Hi.
    + destruct i as [|i]; [discriminate|lia].
    + destruct i as [|[|[|i]]]; try discriminate. lia.
  - apply Hexample; reflexivity.
  - apply (Hdups skipped_tree
             (mk_tree_entry "1" (Z.lor S_IFREG 420) "foo" "1")
             (mk_tree_entry "4" S_IFDIR "foo" "2") [] []
             FSCK_OPTIONS_DEFAULT initial_world).
    reflexivity.
Defined.

(** ** Identity lines *)

(** A failing check of [fsck_ident] adds the report of its kind and
    nothing else. *)
Lemma events_of_fail `{Host} {B} (options : fsck_options)
  (obj : option object) (id : fsck_msg_id) (message : string)
  (g : Z -> B) (w : world) :
  exists d,
    events_of (report options obj id message ≫= (fun r => mret (g r))) w
    = [EvReport id obj d].
Proof.
  destruct (runs_report options obj id message w) as (r & w' & d & Hr).
  exists d.
  rewrite (runs_events _ w w' (g r) ([EvReport id obj d] ++ [])%list);
    [reflexivity|].
  eapply runs_bind; [exact Hr|apply runs_mret].
Qed.

Lemma events_of_mret {A} (a : A) (w : world) : events_of (mret a) w = [].
Proof. apply (runs_events _ _ _ _ _ (runs_mret a w)). Qed.

Lemma mem_angle_or_LF (c : ascii) :
  mem_char c angle_or_LF = false ->
  Ascii.eqb c "<" = false /\ Ascii.eqb c ">" = false.
Proof.
  unfold angle_or_LF. cbn [mem_char]. intros Hc.
  apply orb_false_elim in Hc as [H1 Hc].
  apply orb_false_elim in Hc as [H2 _]. split; assumption.
Qed.

Lemma ident_line_chars (name email rest : string) (k : nat) :
  char_at (ident_line name email rest)
    (String.length name + S (String.length email + k))
  = char_at (String ">" (String " " rest)) k.
Proof.
  unfold ident_line. rewrite char_at_append, char_at_cons_S.
  apply char_at_append.
Qed.

Lemma char_at_advance (i j : nat) (s : string) :
  char_at (advance i s) j = char_at s (i + j).
Proof.
  revert s. induction i as [|i IH]; intros s; [reflexivity|].
  destruct s as [|c s]; cbn [advance].
  - unfold char_at. now destruct j.
  - rewrite IH. reflexivity.
Qed.

Lemma take_advance (i : nat) (s : string) :
  take_bytes i s +:+ advance i s = s.
Proof.
  revert s. induction i as [|i IH]; intros s; [reflexivity|].
  destruct s as [|c s]; [reflexivity|].
  cbn [take_bytes advance]. rewrite append_cons. now rewrite IH.
Qed.

Lemma length_take_bytes_le (i : nat) (s : string) :
  (i <= String.length s)%nat -> String.length (take_bytes i s) = i.
Proof.
  revert s. induction i as [|i IH]; intros s Hi; [reflexivity|].
  destruct s as [|c s]; cbn [String.length] in Hi; [lia|].
  cbn [take_bytes String.length]. rewrite IH; lia.
Qed.

Lemma char_at_take (i j : nat) (s : string) :
  (j < i)%nat -> char_at (take_bytes i s) j = char_at s j.
Proof.
  revert j s. induction i as [|i IH]; intros j s Hj; [lia|].
  destruct s as [|c s]; [reflexivity|].
  cbn [take_bytes]. destruct j as [|j]; [reflexivity|].
  rewrite !char_at_cons_S. apply IH. lia.
Qed.

Lemma strcspn_le (s reject : string) :
  (strcspn s reject <= String.length s)%nat.
Proof.
  induction s as [|c s IH]; cbn [strcspn String.length]; [lia|].
  destruct (mem_char c reject); lia.
Qed.

Lemma free_of_take_strcspn (s reject : string) :
  free_of reject (take_bytes (strcspn s reject) s).
Proof.
  induction s as [|c s IH]; [reflexivity|].
  cbn [strcspn]. destruct (mem_char c reject) eqn:Hc; [reflexivity|].
  cbn [take_bytes]. apply free_of_cons. split; assumption.
Qed.

Lemma char_at_lt (s : string) (i : nat) :
  char_at s i <> NUL -> (i < String.length s)%nat.
Proof.
  revert i. induction s as [|c s IH]; intros i Hc.
  - contradiction Hc. unfold char_at. now destruct i.
  - destruct i as [|i]; cbn [String.length]; [lia|].
    rewrite char_at_cons_S in Hc. apply IH in Hc. lia.
Qed.

Lemma advance_char (s : string) (i : nat) :
  (i < String.length s)%nat ->
  advance i s = String (char_at s i) (advance (S i) s).
Proof.
  revert i. induction s as [|c s IH]; intros i Hi; cbn [String.length] in Hi;
    [lia|].
  destruct i as [|i]; [reflexivity|].
  cbn [advance]. rewrite char_at_cons_S. apply IH. lia.
Qed.

(** A [report] followed by a plain return adds the report of its kind
    and nothing else. *)
Lemma events_of_report_then `{Host} {B} (options : fsck_options)
  (obj : option object) (id : fsck_msg_id) (message : string)
  (k : Z -> M B) (w : world) :
  (forall r, exists b, k r = mret b) ->
  exists d, events_of (report options obj id message ≫= k) w
            = [EvReport id obj d].
Proof.
  intros Hk.
  destruct (runs_report options obj id message w) as (r & w' & d & Hr).
  destruct (Hk r) as [b Hb].
  exists d.
  rewrite (runs_events _ w w' b ([EvReport id obj d] ++ [])%list);
    [reflexivity|].
  eapply runs_bind; [exact Hr|]. rewrite Hb. apply runs_mret.
Qed.

(** A report of another kind is not one of [ZERO_PADDED_DATE]. *)
Ltac other_report Hrep :=
  exfalso;
  match type of Hrep with
  | reported _ (events_of (report ?o ?ob ?id ?msg ≫= ?k) ?w0) =>
      let d := fresh "d" in
      let Hd := fresh "Hd" in
      destruct (events_of_report_then o ob id msg k w0) as [d Hd];
      [intros ?; eexists; reflexivity|];
      rewrite Hd in Hrep; apply reported_one in Hrep; discriminate Hrep
  end.

(** [ZERO_PADDED_DATE] is reported only on a line whose name and e-mail
    parts are well formed. *)
Lemma fsck_ident_zero_padded_only `{Host} (ident : string)
  (obj : option object) (options : fsck_options) (w : world) :
  reported FSCK_MSG_ZERO_PADDED_DATE
    (events_of (fsck_ident ident obj options) w) ->
  exists name email rest,
    ident = ident_line name email rest
    /\ name <> EmptyString
    /\ free_of angle_or_LF name
    /\ char_at name (String.length name - 1) = " "%char
    /\ free_of angle_or_LF email.
Proof.
  intros Hrep. unfold fsck_ident in Hrep. cbv zeta in Hrep.
  change (0 + strcspn (advance 0 ident) angle_or_LF)%nat
    with (strcspn ident angle_or_LF) in Hrep.
  set (p := strcspn ident angle_or_LF) in *.
  set (m := strcspn (advance (S p) ident) angle_or_LF) in *.
  destruct (Ascii.eqb_spec (char_at ident 0) "<") as [E1|E1];
    [other_report Hrep|].
  destruct (Ascii.eqb_spec (char_at ident p) ">") as [E2|E2];
    [other_report Hrep|].
  destruct (Ascii.eqb_spec (char_at ident p) "<") as [E3|E3];
    cbn [negb] in Hrep; [|other_report Hrep].
  destruct (Ascii.eqb_spec (char_at ident (p - 1)) " ") as [E4|E4];
    cbn [negb] in Hrep; [|other_report Hrep].
  destruct (Ascii.eqb_spec (char_at ident (S p + m)) ">") as [E5|E5];
    cbn [negb] in Hrep; [|other_report Hrep].
  destruct (Ascii.eqb_spec (char_at ident (S (S p + m))) " ") as [E6|E6];
    cbn [negb] in Hrep; [|other_report Hrep].
  clear Hrep.
  assert (Hp : (p < String.length ident)%nat).
  { apply char_at_lt. rewrite E3. discriminate. }
  assert (Hq : (S p + m < String.length ident)%nat).
  { apply char_at_lt. rewrite E5. discriminate. }
  assert (Hq' : (S (S p + m) < String.length ident)%nat).
  { apply char_at_lt. rewrite E6. discriminate. }
  assert (Hp0 : p <> O).
  { intros Hz. rewrite Hz in E3. contradiction. }
  exists (take_bytes p ident), (take_bytes m (advance (S p) ident)),
    (advance (S (S (S p + m))) ident).
  assert (Hlen : String.length (take_bytes p ident) = p)
    by (apply length_take_bytes_le; lia).
  split; [|split; [|split; [|split]]].
  - unfold ident_line.
    rewrite <- (take_advance p ident) at 1. f_equal.
    rewrite (advance_char ident p Hp), E3. f_equal.
    rewrite <- (take_advance m (advance (S p) ident)) at 1. f_equal.
    rewrite <- advance_plus.
    rewrite (advance_char ident (S p + m) Hq), E5. f_equal.
    rewrite (advance_char ident (S (S p + m)) Hq'), E6. reflexivity.
  - intros Hnil. rewrite Hnil in Hlen. cbn in Hlen. lia.
  - apply free_of_take_strcspn.
  - rewrite Hlen, char_at_take by lia. exact E4.
  - apply free_of_take_strcspn.
Qed.

(** The date check of [fsck_ident] on a line whose name and e-mail parts
    are well formed: [ZERO_PADDED_DATE] is reported iff [rest], the text
    after ["> "], starts with ['0'] and goes on with anything but a
    space. *)
Lemma fsck_ident_zero_padded `{Host} (name email rest : string)
  (obj : option object) (options : fsck_options) (w : world) :
  name <> EmptyString ->
  free_of angle_or_LF name ->
  char_at name (String.length name - 1) = " "%char ->
  free_of angle_or_LF email ->
  reported FSCK_MSG_ZERO_PADDED_DATE
    (events_of (fsck_ident (ident_line name email rest) obj options) w)
  <-> char_at rest 0 = "0"%char /\ char_at rest 1 <> " "%char.
Proof.
  intros Hne Hname Hlast Hemail.
  set (ident := ident_line name email rest).
  set (n := String.length name). set (m := String.length email).
  assert (F1 : Ascii.eqb (char_at ident 0) "<" = false).
  { unfold ident, ident_line. destruct name as [|c name']; [congruence|].
    apply free_of_cons in Hname as [Hc _].
    apply mem_angle_or_LF in Hc as [Hc _]. exact Hc. }
  assert (F2 : (0 + strcspn (advance 0 ident) angle_or_LF)%nat = n).
  { change (strcspn ident angle_or_LF = n).
    unfold ident, ident_line. rewrite strcspn_append by exact Hname.
    cbn [strcspn]. change (mem_char "<" angle_or_LF) with true.
    cbv iota. fold n. lia. }
  assert (F3 : char_at ident n = "<"%char).
  { unfold ident, ident_line, n.
    rewrite <- (Nat.add_0_r (String.length name)).
    rewrite char_at_append. reflexivity. }
  assert (F4 : char_at ident (n - 1) = " "%char).
  { unfold ident, ident_line. rewrite char_at_append_l; [exact Hlast|].
    destruct name; [congruence|]. cbn. lia. }
  assert (F5 : (S n + strcspn (advance (S n) ident) angle_or_LF)%nat
               = (S n + m)%nat).
  { f_equal. unfold ident, ident_line, n.
    replace (S (String.length name)) with (String.length name + 1)%nat
      by lia.
    rewrite advance_plus, advance_append. cbn [advance].
    rewrite strcspn_append by exact Hemail. cbn [strcspn].
    change (mem_char ">" angle_or_LF) with true. cbv iota. fold m. lia. }
  assert (F6 : forall k, char_at ident (S n + m + k)
                         = char_at (String ">" (String " " rest)) k).
  { intros k. unfold ident, n, m.
    rewrite <- ident_line_chars with (name := name) (email := email).
    f_equal. lia. }
  assert (E6 : char_at ident (S n + m) = ">"%char).
  { rewrite <- (Nat.add_0_r (S n + m)), F6. reflexivity. }
  assert (E7 : char_at ident (S (S n + m)) = " "%char).
  { replace (S (S n + m)) with (S n + m + 1)%nat by lia.
    rewrite F6. reflexivity. }
  assert (E8 : char_at ident (S (S (S n + m))) = char_at rest 0).
  { replace (S (S (S n + m))) with (S n + m + 2)%nat by lia.
    rewrite F6. reflexivity. }
  assert (E9 : char_at ident (S (S (S (S n + m)))) = char_at rest 1).
  { replace (S (S (S (S n + m)))) with (S n + m + 3)%nat by lia.
    rewrite F6. reflexivity. }
  unfold fsck_ident. cbv zeta. fold ident.
  set (next := if Ascii.eqb (char_at ident _) LF then _ else _).
  rewrite F1, F2, F3, F4, F5, E6, E7, E8, E9.
  change (Ascii.eqb "<" ">") with false.
  change (negb (Ascii.eqb "<" "<")) with false.
  change (negb (Ascii.eqb " " " ")) with false.
  change (negb (Ascii.eqb ">" ">")) with false.
  cbv iota.
  destruct (Ascii.eqb_spec (char_at rest 0) "0") as [H0|H0];
    destruct (Ascii.eqb_spec (char_at rest 1) " ") as [H1|H1];
    cbn [andb negb].
  2: { destruct (events_of_fail options obj FSCK_MSG_ZERO_PADDED_DATE
                   ("invalid author/committer line - "
                    +:+ "zero-padded date")
                   (fun r => (r, next)) w) as [d ->].
       rewrite reported_one. tauto. }
  all: destruct (strtoul _) as [date len];
    repeat match goal with
           | |- context [if ?c then _ else _] => destruct c
           end;
    try match goal with
        | |- context [events_of (report ?o ?ob ?id ?msg ≫= _) ?w0] =>
            destruct (events_of_fail o ob id msg (fun r => (r, next)) w0)
              as [d ->];
            rewrite reported_one
        end;
    rewrite ?events_of_mret;
    (split;
     [intros Hrep;
      first [discriminate Hrep | now apply reported_nil in Hrep]
     |intros [Hc0 Hc1]; contradiction]).
Qed.

(** C7 as the code has it: [ZERO_PADDED_DATE] is reported exactly when
    the name and e-mail parts of the identity line pass their checks, the
    date field starts with ['0'], and the character after that ['0'] is
    not a space.  So on such a line it is reported whenever the ['0'] is
    followed by another digit, and a date that is the single digit ['0']
    followed by a space does not trigger it. *)
Theorem zero_padded_date_check `{Host} (obj : option object)
  (options : fsck_options) (w : world) :
  (forall ident,
     reported FSCK_MSG_ZERO_PADDED_DATE
       (events_of (fsck_ident ident obj options) w)
     <-> exists name email rest,
           ident = ident_line name email rest
           /\ name <> EmptyString
           /\ free_of angle_or_LF name
           /\ char_at name (String.length name - 1) = " "%char
           /\ free_of angle_or_LF email
           /\ char_at rest 0 = "0"%char /\ char_at rest 1 <> " "%char)
  /\ (forall name email rest,
        name <> EmptyString ->
        free_of angle_or_LF name ->
        char_at name (String.length name - 1) = " "%char ->
        free_of angle_or_LF email ->
        (reported FSCK_MSG_ZERO_PADDED_DATE
           (events_of
              (fsck_ident (ident_line name email rest) obj options) w)
         <-> char_at rest 0 = "0"%char /\ char_at rest 1 <> " "%char)
        /\ (char_at rest 0 = "0"%char -> isdigit (char_at rest 1) = true ->
            reported FSCK_MSG_ZERO_PADDED_DATE
              (events_of
                 (fsck_ident (ident_line name email rest) obj options) w))
        /\ (forall tail, rest = String "0" (String " " tail) ->
            ~ reported FSCK_MSG_ZERO_PADDED_DATE
                (events_of
                   (fsck_ident (ident_line name email rest) obj options)
                   w))).
Proof.
  split.
  - intros ident. split.
    + intros Hrep.
      destruct (fsck_ident_zero_padded_only ident obj options w Hrep)
        as (name & email & rest & -> & Hne & Hname & Hlast & Hemail).
      exists name, email, rest.
      apply (fsck_ident_zero_padded name email rest obj options w
               Hne Hname Hlast Hemail) in Hrep.
      tauto.
    + intros (name & email & rest & -> & Hne & Hname & Hlast & Hemail
              & Hdate).
      now apply (fsck_ident_zero_padded name email rest obj options w
                   Hne Hname Hlast Hemail).
  - intros name email rest Hne Hname Hlast Hemail.
    pose proof (fsck_ident_zero_padded name email rest obj options w
                  Hne Hname Hlast Hemail) as Hiff.
    split; [exact Hiff|]. split.
    + intros H0 Hdigit. apply Hiff. split; [exact H0|].
      intros Hsp. rewrite Hsp in Hdigit. discriminate Hdigit.
    + intros tail -> Hrep. apply Hiff in Hrep as [_ Hsp].
      apply Hsp. reflexivity.
Qed.

Lemma zero_padded_date_check_witness :
  (reported FSCK_MSG_ZERO_PADDED_DATE
     (events_of
        (fsck_ident (H := example_host)
           (ident_line "A U Thor " "a@x" padded_date) None
           FSCK_OPTIONS_DEFAULT) initial_world)
   <-> char_at padded_date 0 = "0"%char
       /\ char_at padded_date 1 <> " "%char)
  /\ (char_at padded_date 0 = "0"%char ->
      isdigit (char_at padded_date 1) = true ->
      reported FSCK_MSG_ZERO_PADDED_DATE
        (events_of
           (fsck_ident (H := example_host)
              (ident_line "A U Thor " "a@x" padded_date) None
              FSCK_OPTIONS_DEFAULT) initial_world))
  /\ (forall tail, padded_date = String "0" (String " " tail) ->
      ~ reported FSCK_MSG_ZERO_PADDED_DATE
          (events_of
             (fsck_ident (H := example_host)
                (ident_line "A U Thor " "a@x" padded_date) None
                FSCK_OPTIONS_DEFAULT) initial_world)).
Proof.
  apply (zero_padded_date_check (H := example_host) None
           FSCK_OPTIONS_DEFAULT initial_world).
  - discriminate.
  - reflexivity.
  - reflexivity.
  - reflexivity.
Defined.

(** C7 as stated fails: the date field of this line starts with ['0'] and
    has one digit only, and [ZERO_PADDED_DATE] is reported. *)
Lemma lone_zero_reported_as_padded :
  ~ (reported FSCK_MSG_ZERO_PADDED_DATE
       (events_of
          (fsck_ident (H := example_host)
             (ident_line "A " "a@b" lone_zero_date) None
             FSCK_OPTIONS_DEFAULT) initial_world)
     <-> char_at lone_zero_date 0 = "0"%char
         /\ (1 < leading_digits lone_zero_date)%nat).
Proof.
  intros [Hfwd _].
  assert (Hrep : reported FSCK_MSG_ZERO_PADDED_DATE
                   (events_of
                      (fsck_ident (H := example_host)
                         (ident_line "A " "a@b" lone_zero_date) None
                         FSCK_OPTIONS_DEFAULT) initial_world)).
  { eexists _, _. vm_compute. left. reflexivity. }
  apply Hfwd in Hrep as [_ Hdigits].
  vm_compute in Hdigits. lia.
Qed.

(** ** The loop bounds of the model are never hit *)

Lemma read_in_full_length (f : file) (pos count : nat) (chunk : string) :
  read_in_full f pos count = Some chunk ->
  (String.length chunk <= String.length (file_data f) - pos)%nat.
Proof.
  unfold read_in_full. intros Hread.
  assert (Hchunk : chunk = take_bytes count (advance pos (file_data f))).
  { destruct (file_fails_at f) as [n|];
      [destruct (_ && _)|]; congruence. }
  subst chunk. rewrite <- length_advance. apply length_take_bytes.
Qed.

Lemma read_skiplist_total `{Host} (fuel : nat) (path : string) (f : file)
  (pos : nat) (buffer : string) (sorted : bool) (w : world) :
  (String.length (file_data f) - pos < fuel)%nat ->
  read_skiplist fuel path f pos buffer sorted w <> Stuck.
Proof.
  revert pos buffer sorted w.
  induction fuel as [|fuel IH]; intros pos buffer sorted w Hfuel; [lia|].
  cbn [read_skiplist].
  destruct (read_in_full f pos 41) as [chunk|] eqn:Hread; [|discriminate].
  apply read_in_full_length in Hread.
  destruct (Nat.eqb_spec (String.length chunk) 0) as [Hz|Hnz];
    [discriminate|].
  destruct (get_sha1_hex _) as [h|]; [|discriminate].
  destruct (Ascii.eqb _ LF); [|discriminate].
  run_monad. apply IH. lia.
Qed.

Lemma init_skiplist_total `{Host} (options : fsck_options) (path : string)
  (w : world) :
  init_skiplist options path w <> Stuck.
Proof.
  unfold init_skiplist.
  destruct (skiplist options) as [p|]; run_monad;
    (destruct (open_file path) as [f|]; [|discriminate]);
    match goal with
    | |- context [read_skiplist ?fuel ?pa ?fi ?po ?bu ?so ?w0] =>
        pose proof (read_skiplist_total fuel pa fi po bu so w0) as Hns;
        destruct (read_skiplist fuel pa fi po bu so w0) as [[[] w1]| |]
    end;
    cbn; try discriminate; exfalso; (apply Hns; [lia|reflexivity]).
Qed.

Lemma fsck_set_msg_type_total (options : fsck_options)
  (msg_id msg_type : string) (w : world) :
  fsck_set_msg_type options msg_id msg_type w <> Stuck.
Proof.
  unfold fsck_set_msg_type, parse_msg_type, mbind, M_bind, mret, M_ret,
    die.
  destruct (parse_msg_id msg_id); [|discriminate].
  repeat match goal with
         | |- context [if ?c then _ else _] => destruct c
         end; cbn; discriminate.
Qed.

Lemma set_msg_types_loop_total `{Host} (fuel : nat)
  (options : fsck_options) (buf : string) (w : world) :
  (String.length buf < fuel)%nat ->
  set_msg_types_loop fuel options buf w <> Stuck.
Proof.
  revert options buf w.
  induction fuel as [|fuel IH]; intros options buf w Hfuel; [lia|].
  cbn [set_msg_types_loop].
  assert (Hrest : forall i, (0 < i)%nat -> buf <> EmptyString ->
                    (String.length (advance i buf) < fuel)%nat).
  { intros i Hi Hbuf. rewrite length_advance.
    destruct buf; [congruence|]. cbn [String.length] in *. lia. }
  destruct (Nat.eqb_spec (strcspn buf " ,|") 0) as [Hz|Hnz].
  - destruct (is_nul _) eqn:Hdone; [discriminate|].
    apply IH, Hrest; [lia|].
    intros ->. rewrite Hz in Hdone. discriminate Hdone.
  - assert (Hbuf : buf <> EmptyString) by (intros ->; apply Hnz; reflexivity).
    assert (Hnext : forall options' w',
              (if is_nul (char_at buf (strcspn buf " ,|"))
               then mret options'
               else set_msg_types_loop fuel options'
                      (advance (strcspn buf " ,|" + 1) buf)) w' <> Stuck).
    { intros options' w'. destruct (is_nul _); [discriminate|].
      apply IH, Hrest; [lia|exact Hbuf]. }
    destruct (String.eqb _ "skiplist").
    + destruct (Nat.eqb _ _); [discriminate|].
      unfold mbind, M_bind.
      pose proof (init_skiplist_total options
                    (advance
                       (strcspn (take_bytes (strcspn buf " ,|") buf) "=:"
                        + 1)
                       (take_bytes (strcspn buf " ,|") buf)) w) as Hinit.
      destruct (init_skiplist _ _ w) as [[options' w']| |];
        [apply Hnext|discriminate|contradiction].
    + destruct (Nat.eqb _ _); [discriminate|].
      unfold mbind, M_bind.
      match goal with
      | |- context [fsck_set_msg_type ?o ?a ?b w] =>
          pose proof (fsck_set_msg_type_total o a b w) as Hset;
          destruct (fsck_set_msg_type o a b w) as [[options' w']| |]
      end; [apply Hnext|discriminate|contradiction].
Qed.

(** [fsck_set_msg_types] always ends: with the new options, or by
    [die]. *)
Lemma fsck_set_msg_types_total `{Host} (options : fsck_options)
  (values : string) (w : world) :
  fsck_set_msg_types options values w <> Stuck.
Proof. apply set_msg_types_loop_total. lia. Qed.

(** ** The validators always return *)

Lemma total_mret {A} (a : A) : total (mret a).
Proof. intros w. exists a, w. reflexivity. Qed.

Lemma total_bind {A B} (m : M A) (k : A -> M B) :
  total m -> (forall a, total (k a)) -> total (m ≫= k).
Proof.
  intros Hm Hk w. destruct (Hm w) as (a & w1 & Ha).
  destruct (Hk a w1) as (b & w2 & Hb).
  exists b, w2. unfold mbind, M_bind. now rewrite Ha.
Qed.

Lemma total_if {A} (c : bool) (m1 m2 : M A) :
  total m1 -> total m2 -> total (if c then m1 else m2).
Proof. now destruct c. Qed.

Lemma total_report `{Host} (options : fsck_options)
  (object : option object) (id : fsck_msg_id) (message : string) :
  total (report options object id message).
Proof.
  intros w.
  destruct (report_one_event options object id message w)
    as (r & w' & _ & Hr & _).
  eauto.
Qed.

Lemma total_emit (e : event) : total (emit e).
Proof. intros w. eexists _, _. reflexivity. Qed.

Lemma lands_if {A} (next : string) (c : bool) (m1 m2 : M (A * string)) :
  lands next m1 -> lands next m2 -> lands next (if c then m1 else m2).
Proof. now destruct c. Qed.

Lemma lands_mret {A} (next : string) (a : A) : lands next (mret (a, next)).
Proof. intros w. exists a, w. reflexivity. Qed.

Lemma lands_fail `{Host} (next : string) (options : fsck_options)
  (obj : option object) (id : fsck_msg_id) (message : string) :
  lands next (report options obj id message ≫= (fun r => mret (r, next))).
Proof.
  intros w. destruct (total_report options obj id message w)
    as (r & w' & Hr).
  exists r, w'. unfold mbind, M_bind. now rewrite Hr.
Qed.

(** [fsck_ident] always returns, and leaves [*ident] at the next line. *)
Lemma fsck_ident_lands `{Host} (ident : string) (obj : option object)
  (options : fsck_options) :
  lands (next_line ident) (fsck_ident ident obj options).
Proof.
  unfold fsck_ident. cbv zeta. fold (next_line ident).
  repeat first
    [ apply lands_fail
    | apply lands_mret
    | apply lands_if
    | match goal with
      | |- lands _ (let '(_, _) := ?x in _) => destruct x
      end ].
Qed.

Lemma skip_prefix_length (str prefix rest : string) :
  skip_prefix str prefix = Some rest ->
  (String.length rest + String.length prefix = String.length str)%nat.
Proof.
  revert str. induction prefix as [|p prefix IH]; intros str Hskip.
  - destruct str; cbn in Hskip; inversion Hskip; subst; cbn; lia.
  - destruct str as [|c str]; [discriminate Hskip|].
    cbn [skip_prefix] in Hskip.
    destruct (Ascii.eqb p c); [|discriminate Hskip].
    apply IH in Hskip. cbn [String.length]. lia.
Qed.

Lemma next_line_length (ident : string) :
  (String.length (next_line ident) <= String.length ident)%nat.
Proof.
  unfold next_line. cbv zeta.
  destruct (Ascii.eqb _ LF); rewrite length_advance; lia.
Qed.

Lemma ends_of_total {A} (m : M A) : total m -> ends m.
Proof. intros Hm w. destruct (Hm w) as (a & w' & ->). discriminate. Qed.

Lemma ends_bind {A B} (m : M A) (k : A -> M B) :
  ends m -> (forall a, ends (k a)) -> ends (m ≫= k).
Proof.
  intros Hm Hk w. unfold mbind, M_bind.
  pose proof (Hm w) as Hw.
  destruct (m w) as [[a w1]| |]; [apply Hk|discriminate|contradiction].
Qed.

Lemma ends_if {A} (c : bool) (m1 m2 : M A) :
  ends m1 -> ends m2 -> ends (if c then m1 else m2).
Proof. now destruct c. Qed.

Lemma step_over_cases (n : nat) (buffer : string) (w : world) :
  ((n <= String.length buffer)%nat
   /\ step_over n buffer w = Ok (advance n buffer, w))
  \/ ((String.length buffer < n)%nat
      /\ step_over n buffer w = Died "read outside the buffer").
Proof.
  unfold step_over.
  destruct (Nat.leb_spec n (String.length buffer)); [left|right];
    (split; [assumption|reflexivity]).
Qed.

(** Behind a step over [n] bytes the buffer is shorter by [n]. *)
Lemma ends_step_over {B} (n : nat) (buffer : string) (k : string -> M B) :
  (forall rest, (String.length rest + n = String.length buffer)%nat ->
                ends (k rest)) ->
  ends (step_over n buffer ≫= k).
Proof.
  intros Hk w. unfold mbind, M_bind.
  destruct (step_over_cases n buffer w) as [[Hn ->]|[Hn ->]];
    [|discriminate].
  apply Hk. rewrite length_advance. lia.
Qed.

Lemma parent_lines_ends `{Host} (fuel : nat) (buffer : string)
  (count : nat) (obj : option object) (options : fsck_options) :
  (String.length buffer < fuel)%nat ->
  ends (parent_lines fuel buffer count obj options).
Proof.
  revert buffer count.
  induction fuel as [|fuel IH]; intros buffer count Hfuel; [lia|].
  cbn [parent_lines].
  destruct (skip_prefix buffer "parent ") as [rest|] eqn:Hskip;
    [|apply ends_of_total, total_mret].
  apply skip_prefix_length in Hskip. cbn [String.length] in Hskip.
  apply ends_bind.
  - apply ends_of_total.
    apply total_if; [apply total_report|apply total_mret].
  - intros err. apply ends_if; [apply ends_of_total, total_mret|].
    apply ends_step_over. intros rest' Hrest'. apply IH. lia.
Qed.

Lemma author_lines_total `{Host} (fuel : nat) (buffer : string)
  (count : nat) (obj : option object) (options : fsck_options) :
  (String.length buffer < fuel)%nat ->
  total (author_lines fuel buffer count obj options).
Proof.
  revert buffer count.
  induction fuel as [|fuel IH]; intros buffer count Hfuel; [lia|].
  cbn [author_lines].
  destruct (skip_prefix buffer "author ") as [rest|] eqn:Hskip;
    [|apply total_mret].
  apply skip_prefix_length in Hskip. cbn [String.length] in Hskip.
  intros w. destruct (fsck_ident_lands rest obj options w)
    as (err & w1 & Hident).
  unfold mbind, M_bind. rewrite Hident.
  apply total_if; [apply total_mret|].
  apply IH. pose proof (next_line_length rest). lia.
Qed.

Lemma total_of_lands {A} (next : string) (m : M (A * string)) :
  lands next m -> total m.
Proof. intros Hm w. destruct (Hm w) as (a & w' & Ha). eauto. Qed.

Ltac prove_total :=
  repeat first
    [ apply total_mret
    | apply total_report
    | apply total_emit
    | apply total_if
    | eapply total_of_lands; apply fsck_ident_lands
    | apply author_lines_total; lia
    | apply total_bind; [|intros ?]
    | match goal with
      | |- total (match ?x with _ => _ end) => destruct x
      end ].

Lemma verify_headers_total `{Host} (buffer : string) (obj : option object)
  (options : fsck_options) :
  total (verify_headers buffer obj options).
Proof. unfold verify_headers. prove_total. Qed.

Lemma fsck_tree_total `{Host} (item : object) (buffer : list tree_entry)
  (options : fsck_options) :
  total (fsck_tree item buffer options).
Proof. unfold fsck_tree, report_if. cbv zeta. prove_total. Qed.

Ltac prove_ends :=
  repeat first
    [ apply ends_of_total; solve [prove_total]
    | apply ends_if
    | apply parent_lines_ends; lia
    | apply ends_step_over; intros ? ?
    | apply ends_bind; [|intros ?]
    | match goal with
      | |- ends (match ?x with _ => _ end) => destruct x
      end ].

Lemma fsck_commit_buffer_ends `{Host} (commit : object)
  (tree : option object) (parents : list object) (buffer : string)
  (options : fsck_options) :
  ends (fsck_commit_buffer commit tree parents buffer options).
Proof.
  unfold fsck_commit_buffer. cbv zeta.
  apply ends_bind; [apply ends_of_total, verify_headers_total|intros r].
  prove_ends.
Qed.

Lemma fsck_tag_lines_ends `{Host} (obj : option object) (buffer : string)
  (options : fsck_options) :
  ends (fsck_tag_lines obj buffer options).
Proof.
  unfold fsck_tag_lines. cbv zeta.
  apply ends_bind; [apply ends_of_total, verify_headers_total|intros r].
  prove_ends.
Qed.

(** [fsck_object] ends for every object, buffer and option value: it
    returns, unless the parse of a commit or a tag leaves the buffer. *)
Lemma fsck_object_ends `{Host} (obj : option object)
  (data : option string) (options : fsck_options) :
  ends (fsck_object obj data options).
Proof.
  destruct obj as [[oid|oid parsed buffer|oid parsed tree parents
                    |oid parsed tagged|type oid]|];
    cbn [fsck_object].
  - apply ends_of_total, total_mret.
  - apply ends_of_total, fsck_tree_total.
  - apply fsck_commit_buffer_ends.
  - unfold fsck_tag, fsck_tag_buffer.
    destruct tagged; [|apply ends_of_total, total_report].
    destruct data; [apply fsck_tag_lines_ends|].
    destruct (read_sha1_file _) as [[type buffer]|];
      [|apply ends_of_total, total_report].
    apply ends_if;
      [apply ends_of_total, total_report|apply fsck_tag_lines_ends].
  - apply ends_of_total, total_report.
  - apply ends_of_total, total_report.
Qed.

Lemma fsck_walk_tree_loop_total `{Host} (tree : object)
  (desc : list tree_entry) (res : Z) (options : fsck_options) :
  total (fsck_walk_tree_loop tree desc res options).
Proof.
  revert res. induction desc as [|entry desc IH]; intros res;
    cbn [fsck_walk_tree_loop]; [apply total_mret|].
  apply total_if; [apply IH|].
  apply total_bind.
  - unfold call_walk, error. prove_total.
  - intros result. apply total_if; [apply total_mret|apply IH].
Qed.

Lemma fsck_walk_parents_total (parents : list object) (res : Z)
  (options : fsck_options) :
  total (fsck_walk_parents parents res options).
Proof.
  revert res. induction parents as [|item next IH]; intros res;
    cbn [fsck_walk_parents]; [apply total_mret|].
  apply total_bind; [unfold call_walk; prove_total|].
  intros result. apply total_if; [apply total_mret|apply IH].
Qed.

(** [fsck_walk] returns for every object. *)
Lemma fsck_walk_total `{Host} (obj : option object)
  (options : fsck_options) :
  total (fsck_walk obj options).
Proof.
  destruct obj as [[oid|oid parsed buffer|oid parsed tree parents
                    |oid parsed tagged|type oid]|];
    cbn [fsck_walk];
    unfold fsck_walk_tree, fsck_walk_commit, fsck_walk_tag, call_walk,
      error.
  - apply total_mret.
  - apply total_if; [apply total_mret|apply fsck_walk_tree_loop_total].
  - apply total_if; [apply total_mret|].
    apply total_bind; [prove_total|].
    intros result.
    apply total_if; [apply total_mret|apply fsck_walk_parents_total].
  - prove_total.
  - prove_total.
  - apply total_mret.
Qed.

(** * Further properties *)

(** ** Kind names *)

Lemma parse_msg_id_sound (text : string) (k : fsck_msg_id) :
  parse_msg_id text = Some k -> text = downcased k.
Proof.
  intros Hfind. unfold parse_msg_id in Hfind.
  apply find_some in Hfind as [_ Heq].
  now apply String.eqb_eq in Heq.
Qed.

(** X1: [parse_msg_id] accepts exactly the lower-case names of the
    catalog: it returns the kind [k] for a text iff the text is the
    catalog name of [k] without underscores, in lower case. *)
Theorem parse_msg_id_exact (text : string) (k : fsck_msg_id) :
  parse_msg_id text = Some k <-> text = downcased k.
Proof.
  split; [apply parse_msg_id_sound|].
  intros ->. apply parse_msg_id_downcased.
Qed.

Lemma camel_case_lower (k : fsck_msg_id) :
  map_string tolower (camel_case k) = downcased k
  /\ msg_prefix k = camel_case k +:+ ": ".
Proof. destruct k; split; reflexivity. Qed.

(** X2: the name that a delivered message shows before its colon selects
    the kind of the message when it is used as the kind of an override
    token. *)
Theorem message_prefix_names_kind `{Host} (options options2 : fsck_options)
  (obj : option object) (k : fsck_msg_id) (message text severity : string)
  (sep : ascii) (type : msg_type) (r : Z) (w w2 : world) :
  In (EvReport k obj (Delivered type text r))
    (events_of (report options obj k message) w) ->
  sep = "="%char \/ sep = ":"%char ->
  free_of " ,|" severity ->
  text = camel_case k +:+ ": " +:+ message
  /\ fsck_set_msg_types options2 (camel_case k +:+ String sep severity) w2
     = fsck_set_msg_type options2 (downcased k) severity w2.
Proof.
  intros Hin Hsep Hsev.
  destruct (camel_case_lower k) as [Hlower Hprefix].
  split.
  - destruct (report_one_event options obj k message w)
      as (r' & w' & d & _ & Hev & _ & Hd).
    rewrite Hev in Hin. destruct Hin as [Heq|[]].
    destruct Hd as [[-> _]|[[-> _]|[-> _]]]; try discriminate Heq.
    injection Heq as _ <- _. rewrite Hprefix.
    apply append_assoc.
  - destruct (downcased_plain k) as [Hplain Hskip].
    rewrite <- Hlower in Hplain, Hskip.
    destruct (tolower_free_of _ Hplain) as [Hfree1 Hfree2].
    unfold fsck_set_msg_types.
    pose proof (set_msg_types_token
                  (String.length (camel_case k +:+ String sep severity))
                  options2 (camel_case k) severity EmptyString sep w2
                  Hfree1 Hfree2 Hsep Hsev Hskip eq_refl) as Htok.
    rewrite append_nil_r in Htok. rewrite Htok, Hlower.
    apply bind_mret_run.
Qed.

Lemma message_prefix_names_kind_witness :
  "missingEmail: invalid author/committer line - missing email"
  = camel_case FSCK_MSG_MISSING_EMAIL +:+ ": "
    +:+ "invalid author/committer line - missing email"
  /\ fsck_set_msg_types (H := example_host) FSCK_OPTIONS_STRICT
       (camel_case FSCK_MSG_MISSING_EMAIL +:+ String "=" "ignore")
       initial_world
     = fsck_set_msg_type FSCK_OPTIONS_STRICT
         (downcased FSCK_MSG_MISSING_EMAIL) "ignore" initial_world.
Proof.
  apply (message_prefix_names_kind (H := example_host) FSCK_OPTIONS_DEFAULT
           FSCK_OPTIONS_STRICT None FSCK_MSG_MISSING_EMAIL
           "invalid author/committer line - missing email"
           "missingEmail: invalid author/committer line - missing email"
           "ignore" "="%char FSCK_ERROR 1 initial_world initial_world).
  - vm_compute. left. reflexivity.
  - left. reflexivity.
  - reflexivity.
Defined.

(** ** Overrides *)

Lemma parse_msg_type_cases (str : string) (w : world) :
  (exists type, parse_msg_type str w = Ok (type, w)
     /\ str = severity_name type
     /\ (type = FSCK_ERROR \/ type = FSCK_WARN \/ type = FSCK_IGNORE))
  \/ parse_msg_type str w
     = Died ("Unknown fsck message type: '" +:+ str +:+ "'").
Proof.
  unfold parse_msg_type.
  destruct (String.eqb_spec str "error") as [->|_];
    [left; exists FSCK_ERROR; repeat split; tauto|].
  destruct (String.eqb_spec str "warn") as [->|_];
    [left; exists FSCK_WARN; repeat split; tauto|].
  destruct (String.eqb_spec str "ignore") as [->|_];
    [left; exists FSCK_IGNORE; repeat split; tauto|].
  right. reflexivity.
Qed.

Lemma fsck_set_msg_type_ok (options options' : fsck_options)
  (msg_id msg_type : string) (w w' : world) :
  fsck_set_msg_type options msg_id msg_type w = Ok (options', w') ->
  w' = w
  /\ strict options' = strict options
  /\ skiplist options' = skiplist options
  /\ walk options' = walk options
  /\ error_func options' = error_func options
  /\ exists id type,
       msg_id = downcased id /\ msg_type = severity_name type
       /\ (type = FSCK_ERROR \/ type = FSCK_WARN \/ type = FSCK_IGNORE)
       /\ (default_msg_type (msg_id_info id) = FSCK_FATAL ->
           type = FSCK_ERROR)
       /\ forall j, fsck_msg_type j options'
                    = if decide (j = id) then type
                      else fsck_msg_type j options.
Proof.
  unfold fsck_set_msg_type. intros Hset.
  destruct (parse_msg_id msg_id) as [id|] eqn:Hid; [|discriminate Hset].
  apply parse_msg_id_sound in Hid.
  unfold mbind, M_bind in Hset.
  destruct (parse_msg_type_cases msg_type w)
    as [(type & Htype & Hname & Hrange)|Hdie];
    rewrite ?Htype, ?Hdie in Hset; [|discriminate Hset].
  destruct (bool_decide (type <> FSCK_ERROR)
            && bool_decide (default_msg_type (msg_id_info id) = FSCK_FATAL))
    eqn:Hcheck; [discriminate Hset|].
  injection Hset as <- <-. repeat (split; [reflexivity|]).
  exists id, type. repeat (split; [assumption|]). split.
  - intros Hfatal. apply andb_false_iff in Hcheck as [Hc|Hc].
    + apply bool_decide_eq_false in Hc.
      destruct (decide (type = FSCK_ERROR)); [assumption|contradiction].
    + apply bool_decide_eq_false in Hc. contradiction.
  - intros j. unfold fsck_msg_type at 1. cbn. unfold table_set.
    destruct (decide (j = id)); [reflexivity|].
    unfold fsck_msg_type. destruct (msg_type_table options); reflexivity.
Qed.

(** X3: a successful [fsck_set_msg_type] changes nothing but the severity
    of the kind it names: the process state, the strict flag, the skip
    list and the callbacks stay, the kind named gets the severity named
    (one of error, warn, ignore, and error if the kind is [Fatal] by
    default), and every other kind keeps the severity it had. *)
Theorem fsck_set_msg_type_effect (options options' : fsck_options)
  (msg_id msg_type : string) (w w' : world) :
  fsck_set_msg_type options msg_id msg_type w = Ok (options', w') ->
  w' = w
  /\ strict options' = strict options
  /\ skiplist options' = skiplist options
  /\ walk options' = walk options
  /\ error_func options' = error_func options
  /\ exists id type,
       msg_id = downcased id /\ msg_type = severity_name type
       /\ (type = FSCK_ERROR \/ type = FSCK_WARN \/ type = FSCK_IGNORE)
       /\ (default_msg_type (msg_id_info id) = FSCK_FATAL ->
           type = FSCK_ERROR)
       /\ forall j, fsck_msg_type j options'
                    = if decide (j = id) then type
                      else fsck_msg_type j options.
Proof. apply fsck_set_msg_type_ok. Qed.

Lemma fsck_set_msg_type_effect_witness :
  exists options',
    fsck_set_msg_type FSCK_OPTIONS_STRICT "hasdotgit" "warn" initial_world
    = Ok (options', initial_world)
    /\ fsck_msg_type FSCK_MSG_HAS_DOTGIT options' = FSCK_WARN
    /\ fsck_msg_type FSCK_MSG_HAS_DOT options' = FSCK_ERROR.
Proof.
  destruct (fsck_set_msg_type FSCK_OPTIONS_STRICT "hasdotgit" "warn"
              initial_world) as [[options' w']| |] eqn:Hset;
    try discriminate Hset.
  pose proof (fsck_set_msg_type_effect _ _ _ _ _ _ Hset)
    as (-> & _ & _ & _ & _ & id & type & Hid & Htype & _ & _ & Hall).
  assert (id = FSCK_MSG_HAS_DOTGIT) as ->.
  { destruct id; vm_compute in Hid; congruence. }
  assert (type = FSCK_WARN) as ->.
  { destruct type; vm_compute in Htype; congruence. }
  exists options'. split; [reflexivity|].
  split; rewrite Hall; reflexivity.
Defined.

(** ** Override lists, token by token *)

Lemma bind_die {A B} (msg : string) (k : A -> M B) (w : world) :
  (die msg ≫= k) w = Died msg.
Proof. reflexivity. Qed.

Lemma length_take_strcspn (s reject : string) :
  String.length (take_bytes (strcspn s reject) s) = strcspn s reject.
Proof. apply length_take_bytes_le, strcspn_le. Qed.

(** One turn of the loop: separators are stepped over one by one; a token
    is handled, and the loop goes on behind it unless the list ends
    there. *)
Lemma set_msg_types_loop_step `{Host} (fuel : nat)
  (options : fsck_options) (buf : string) (w : world) :
  set_msg_types_loop (S fuel) options buf w
  = let len := strcspn buf " ,|" in
    let done := is_nul (char_at buf len) in
    if Nat.eqb len 0 then
      (if done then mret options
       else set_msg_types_loop fuel options (advance 1 buf)) w
    else
      (handle_token options (take_bytes len buf)
       ≫= fun options' =>
            if done then mret options'
            else set_msg_types_loop fuel options'
                   (advance (len + 1) buf)) w.
Proof.
  cbn [set_msg_types_loop]. cbv zeta. unfold handle_token. cbv zeta.
  rewrite length_take_strcspn.
  destruct (Nat.eqb (strcspn buf " ,|") 0); [reflexivity|].
  destruct (String.eqb _ "skiplist");
    destruct (Nat.eqb _ (strcspn buf " ,|")); reflexivity.
Qed.

Lemma separator_not_nul (c : ascii) :
  mem_char c " ,|" = true -> is_nul c = false.
Proof.
  intros Hc. destruct (is_nul c) eqn:Hn; [|reflexivity].
  apply is_nul_spec in Hn. subst c. discriminate Hc.
Qed.

Lemma strcspn_sep_head (c : ascii) (s reject : string) :
  mem_char c reject = true -> strcspn (String c s) reject = O.
Proof. intros Hc. cbn [strcspn]. now rewrite Hc. Qed.

(** Before a separator, [strcspn] sees the same as without what follows
    it. *)
Lemma strcspn_before_sep (a b reject : string) (d : ascii) :
  mem_char d reject = true ->
  strcspn (a +:+ String d b) reject = strcspn a reject.
Proof.
  intros Hd. induction a as [|c a IH].
  - change (strcspn (String d b) reject = O).
    now apply strcspn_sep_head.
  - rewrite append_cons. cbn [strcspn].
    destruct (mem_char c reject); [reflexivity|]. now rewrite IH.
Qed.

Lemma take_bytes_append_le (i : nat) (a b : string) :
  (i <= String.length a)%nat -> take_bytes i (a +:+ b) = take_bytes i a.
Proof.
  revert a. induction i as [|i IH]; intros a Hi; [reflexivity|].
  destruct a as [|c a]; cbn [String.length] in Hi; [lia|].
  rewrite append_cons. cbn [take_bytes]. rewrite IH; [reflexivity|lia].
Qed.

Lemma advance_append_le (i : nat) (a b : string) :
  (i <= String.length a)%nat -> advance i (a +:+ b) = advance i a +:+ b.
Proof.
  revert a. induction i as [|i IH]; intros a Hi; [reflexivity|].
  destruct a as [|c a]; cbn [String.length] in Hi; [lia|].
  rewrite append_cons. cbn [advance]. apply IH. lia.
Qed.

Lemma char_at_append_lt (a b : string) (i : nat) :
  (i < String.length a)%nat -> char_at (a +:+ b) i = char_at a i.
Proof. apply char_at_append_l. Qed.

(** The character at which [strcspn] stops inside a string is one of the
    rejected ones. *)
Lemma strcspn_stops (s reject : string) :
  (strcspn s reject < String.length s)%nat ->
  mem_char (char_at s (strcspn s reject)) reject = true.
Proof.
  induction s as [|c s IH]; cbn [String.length strcspn]; [lia|].
  destruct (mem_char c reject) eqn:Hc; [intros _; exact Hc|].
  intros Hlt. rewrite char_at_cons_S. apply IH. lia.
Qed.

(** X5: a list without any token -- empty, or separators only -- leaves
    the options and the process as they are. *)
Theorem fsck_set_msg_types_no_token `{Host} (options : fsck_options)
  (values : string) (w : world) :
  all_in " ,|" values = true ->
  fsck_set_msg_types options values w = Ok (options, w).
Proof.
  unfold fsck_set_msg_types.
  generalize (le_n (S (String.length values))).
  generalize (S (String.length values)) at 2 3 as fuel.
  intros fuel. revert values.
  induction fuel as [|fuel IH]; intros values Hfuel Hall; [lia|].
  rewrite set_msg_types_loop_step. cbv zeta.
  destruct values as [|c values]; [reflexivity|].
  cbn [all_in] in Hall. apply andb_true_iff in Hall as [Hc Hall].
  rewrite (strcspn_sep_head c values _ Hc).
  change (char_at (String c values) 0) with c.
  rewrite (separator_not_nul c Hc). cbn [Nat.eqb advance].
  apply IH; [cbn [String.length] in Hfuel; lia|exact Hall].
Qed.

Lemma fsck_set_msg_types_no_token_witness :
  fsck_set_msg_types (H := example_host) FSCK_OPTIONS_STRICT " ,| ,"
    initial_world = Ok (FSCK_OPTIONS_STRICT, initial_world).
Proof.
  apply (fsck_set_msg_types_no_token (H := example_host)
           FSCK_OPTIONS_STRICT " ,| ," initial_world).
  reflexivity.
Defined.

(** A token at the head of a list, and what follows it. *)
Lemma set_msg_types_head_token `{Host} (fuel : nat)
  (options : fsck_options) (token tail : string) (w : world) :
  token <> EmptyString -> free_of " ,|" token ->
  strcspn tail " ,|" = O ->
  set_msg_types_loop (S fuel) options (token +:+ tail) w
  = (handle_token options token
     ≫= fun options' =>
          if is_nul (char_at tail 0) then mret options'
          else set_msg_types_loop fuel options' (advance 1 tail)) w.
Proof.
  intros Hne Hfree Htail.
  rewrite set_msg_types_loop_step. cbv zeta.
  rewrite strcspn_append by exact Hfree. rewrite Htail, Nat.add_0_r.
  rewrite take_bytes_append.
  assert (E1 : char_at (token +:+ tail) (String.length token)
               = char_at tail 0).
  { rewrite <- (Nat.add_0_r (String.length token)) at 1.
    apply char_at_append. }
  assert (E2 : advance (String.length token + 1) (token +:+ tail)
               = advance 1 tail).
  { rewrite advance_plus, advance_append. reflexivity. }
  rewrite E1, E2.
  destruct token as [|c token]; [congruence|]. reflexivity.
Qed.

(** X6: a token that has neither ['='] nor [':'] ends the process: with
    "skiplist requires a path" if it is [skiplist] in any letter case,
    else with "Missing '='" and the token in lower case; the tokens
    behind it are not looked at. *)
Theorem token_without_value_dies `{Host} (options : fsck_options)
  (token tail : string) (w : world) :
  token <> EmptyString -> free_of " ,|" token -> free_of "=:" token ->
  strcspn tail " ,|" = O ->
  fsck_set_msg_types options (token +:+ tail) w
  = Died (if String.eqb (map_string tolower token) "skiplist"
          then "skiplist requires a path"
          else "Missing '=': '" +:+ map_string tolower token +:+ "'").
Proof.
  intros Hne Hfree Hnoeq Htail. unfold fsck_set_msg_types.
  rewrite set_msg_types_head_token by assumption.
  unfold handle_token. cbv zeta.
  rewrite Hnoeq, take_bytes_all, Nat.eqb_refl.
  destruct (String.eqb _ "skiplist"); reflexivity.
Qed.

Lemma token_without_value_dies_witness :
  fsck_set_msg_types (H := example_host) FSCK_OPTIONS_DEFAULT
    ("BadDate" +:+ ",baddate=warn") initial_world
  = Died "Missing '=': 'baddate'"
  /\ fsck_set_msg_types (H := example_host) FSCK_OPTIONS_DEFAULT
       ("SkipList" +:+ "") initial_world
     = Died "skiplist requires a path".
Proof.
  split.
  - apply (token_without_value_dies (H := example_host)
             FSCK_OPTIONS_DEFAULT "BadDate" ",baddate=warn" initial_world);
      [discriminate|reflexivity|reflexivity|reflexivity].
  - apply (token_without_value_dies (H := example_host)
             FSCK_OPTIONS_DEFAULT "SkipList" "" initial_world);
      [discriminate|reflexivity|reflexivity|reflexivity].
Defined.

Lemma bind_assoc_run {A B C} (m : M A) (k : A -> M B) (k' : B -> M C)
  (w : world) :
  ((m ≫= k) ≫= k') w = (m ≫= fun a => k a ≫= k') w.
Proof.
  unfold mbind, M_bind. destruct (m w) as [[a w1]| |]; reflexivity.
Qed.

Lemma bind_ext_run {A B} (m : M A) (k1 k2 : A -> M B) (w : world) :
  (forall a w1, k1 a w1 = k2 a w1) -> (m ≫= k1) w = (m ≫= k2) w.
Proof.
  intros Hk. unfold mbind, M_bind.
  destruct (m w) as [[a w1]| |]; [apply Hk|reflexivity|reflexivity].
Qed.

(** A list cut at a separator: the loop over the whole list is the loop
    over the part before the separator, then the loop over the part
    behind it. *)
Lemma set_msg_types_loop_append `{Host} (fuel : nat) :
  forall (fuel1 fuel2 : nat) (options : fsck_options) (a b : string)
    (d : ascii) (w : world),
    mem_char d " ,|" = true ->
    (String.length a < fuel)%nat ->
    (String.length (a +:+ String d b) < fuel1)%nat ->
    (String.length b < fuel2)%nat ->
    set_msg_types_loop fuel1 options (a +:+ String d b) w
    = (set_msg_types_loop fuel options a
       ≫= fun options' => set_msg_types_loop fuel2 options' b) w.
Proof.
  induction fuel as [|fuel IH];
    intros fuel1 fuel2 options a b d w Hd Ha Hab Hb; [lia|].
  destruct fuel1 as [|fuel1]; [lia|].
  rewrite length_append in Hab. cbn [String.length] in Hab.
  unfold mbind at 1, M_bind at 1.
  rewrite !set_msg_types_loop_step. cbv zeta.
  rewrite strcspn_before_sep by exact Hd.
  pose proof (strcspn_le a " ,|") as Hle.
  destruct (Nat.eqb_spec (strcspn a " ,|") 0) as [Hz|Hnz].
  - (* no token at the head of [a] *)
    rewrite Hz. destruct a as [|c a].
    + change (EmptyString +:+ String d b) with (String d b).
      change (char_at (String d b) 0) with d.
      change (char_at EmptyString 0) with NUL.
      rewrite (separator_not_nul d Hd).
      change (is_nul NUL) with true. cbn.
      apply set_msg_types_loop_fuel; lia.
    + assert (Hc : mem_char c " ,|" = true).
      { cbn [strcspn] in Hz. destruct (mem_char c " ,|");
          [reflexivity|discriminate Hz]. }
      rewrite append_cons.
      change (char_at (String c (a +:+ String d b)) 0) with c.
      change (char_at (String c a) 0) with c.
      rewrite (separator_not_nul c Hc). cbn [advance].
      cbn [String.length] in Ha, Hab.
      rewrite (IH fuel1 fuel2 options a b d w Hd);
        [reflexivity|lia|rewrite length_append; cbn [String.length]; lia
        |exact Hb].
  - (* a token at the head of [a] *)
    rewrite take_bytes_append_le by exact Hle.
    set (len := strcspn a " ,|") in *.
    set (m := handle_token options (take_bytes len a)).
    destruct (Nat.eq_dec len (String.length a)) as [Hend|Hmid].
    + (* the token is the last thing in [a] *)
      assert (E1 : char_at (a +:+ String d b) len = d).
      { rewrite Hend, <- (Nat.add_0_r (String.length a)).
        rewrite char_at_append. reflexivity. }
      assert (E2 : advance (len + 1) (a +:+ String d b) = b).
      { rewrite Hend, advance_plus, advance_append. reflexivity. }
      assert (E3 : char_at a len = NUL)
        by (rewrite Hend; apply char_at_length).
      rewrite E1, E2, E3, (separator_not_nul d Hd).
      change (is_nul NUL) with true. cbv iota.
      unfold mbind, M_bind.
      destruct (m w) as [[options' w1]| |]; try reflexivity.
      cbn. apply set_msg_types_loop_fuel; lia.
    + (* the list [a] goes on behind the token *)
      assert (Hlt : (len < String.length a)%nat) by lia.
      assert (Hsep : mem_char (char_at a len) " ,|" = true)
        by (apply strcspn_stops; exact Hlt).
      rewrite char_at_append_lt by exact Hlt.
      rewrite (separator_not_nul _ Hsep).
      rewrite advance_append_le by lia.
      unfold mbind, M_bind.
      destruct (m w) as [[options' w1]| |]; try reflexivity.
      rewrite (IH fuel1 fuel2 options' (advance (len + 1) a) b d w1 Hd);
        [reflexivity| | |exact Hb].
      * rewrite length_advance. lia.
      * rewrite length_append, length_advance. cbn [String.length]. lia.
Qed.

(** X7: an override list composes over its separators: handling
    [a <sep> b] is handling [a], then handling [b] with the options that
    [a] has left (and dying where [a] dies). *)
Theorem fsck_set_msg_types_append `{Host} (options : fsck_options)
  (a b : string) (d : ascii) (w : world) :
  mem_char d " ,|" = true ->
  fsck_set_msg_types options (a +:+ String d b) w
  = (options' ← fsck_set_msg_types options a;
     fsck_set_msg_types options' b) w.
Proof.
  intros Hd. unfold fsck_set_msg_types.
  apply set_msg_types_loop_append; [exact Hd|lia|lia|lia].
Qed.

Lemma fsck_set_msg_types_append_witness :
  fsck_set_msg_types (H := example_host) FSCK_OPTIONS_DEFAULT
    ("hasdot=error" +:+ String "," "skiplist=skip|hasdot:ignore")
    initial_world
  = (options' ← fsck_set_msg_types (H := example_host)
                  FSCK_OPTIONS_DEFAULT "hasdot=error";
     fsck_set_msg_types (H := example_host) options'
       "skiplist=skip|hasdot:ignore") initial_world.
Proof.
  apply (fsck_set_msg_types_append (H := example_host)
           FSCK_OPTIONS_DEFAULT "hasdot=error"
           "skiplist=skip|hasdot:ignore" ","%char initial_world).
  reflexivity.
Defined.

(** ** Fatal kinds *)

Lemma fatal_kept_no_table (options : fsck_options) :
  msg_type_table options = None -> fatal_kept options.
Proof.
  intros Hnone id Hfatal. unfold fsck_msg_type.
  rewrite Hnone, Hfatal. now destruct (strict options).
Qed.

Lemma fatal_kept_set_msg_type (options options' : fsck_options)
  (msg_id msg_type : string) (w w' : world) :
  fatal_kept options ->
  fsck_set_msg_type options msg_id msg_type w = Ok (options', w') ->
  fatal_kept options'.
Proof.
  intros Hkept Hset.
  destruct (fsck_set_msg_type_ok _ _ _ _ _ _ Hset)
    as (_ & _ & _ & _ & _ & id & type & _ & _ & _ & Hfatal & Hall).
  intros j Hj. rewrite Hall. destruct (decide (j = id)) as [->|_].
  - now rewrite (Hfatal Hj).
  - now apply Hkept.
Qed.

Lemma init_skiplist_options `{Host} (options options' : fsck_options)
  (path : string) (w w' : world) :
  init_skiplist options path w = Ok (options', w') ->
  msg_type_table options' = msg_type_table options
  /\ strict options' = strict options
  /\ error_func options' = error_func options
  /\ walk options' = walk options
  /\ skiplist options'
     = Some (default static_skiplist (skiplist options))
  /\ log w' = log w.
Proof.
  unfold init_skiplist. intros Hrun.
  assert (Hlog : forall fuel f pos buffer sorted w0 r w1,
            read_skiplist fuel path f pos buffer sorted w0 = Ok (r, w1) ->
            log w1 = log w0).
  { clear. intros fuel f. induction fuel as [|fuel IH];
      intros pos buffer sorted w0 r w1 Hread; [discriminate Hread|].
    cbn [read_skiplist] in Hread.
    destruct (read_in_full f pos 41) as [chunk|]; [|discriminate Hread].
    destruct (Nat.eqb _ 0); [injection Hread as _ <-; reflexivity|].
    destruct (get_sha1_hex _); [|discriminate Hread].
    destruct (Ascii.eqb _ LF); [|discriminate Hread].
    run_monad. apply IH in Hread. exact Hread. }
  destruct (skiplist options) as [p|] eqn:Hsk; run_monad;
    (destruct (open_file path) as [f|]; [|discriminate Hrun]);
    match type of Hrun with
    | context [read_skiplist ?fuel ?pa ?fi ?po ?bu ?so ?w0] =>
        destruct (read_skiplist fuel pa fi po bu so w0)
          as [[[] w1]| |] eqn:Hread
    end; try discriminate Hrun;
    apply Hlog in Hread; cbn in Hrun; injection Hrun as <- <-;
    repeat split; try reflexivity; try exact Hread;
    cbn; rewrite ?Hsk; reflexivity.
Qed.

Lemma fatal_kept_loop `{Host} (fuel : nat) (options options' : fsck_options)
  (buf : string) (w w' : world) :
  fatal_kept options ->
  set_msg_types_loop fuel options buf w = Ok (options', w') ->
  fatal_kept options'.
Proof.
  revert options buf w.
  induction fuel as [|fuel IH]; intros options buf w Hkept Hrun;
    [discriminate Hrun|].
  rewrite set_msg_types_loop_step in Hrun. cbv zeta in Hrun.
  destruct (Nat.eqb _ 0).
  - destruct (is_nul _).
    + injection Hrun as <- _. exact Hkept.
    + eapply IH; eassumption.
  - unfold mbind, M_bind in Hrun.
    destruct (handle_token options _ w) as [[options1 w1]| |] eqn:Htok;
      try discriminate Hrun.
    assert (Hkept1 : fatal_kept options1).
    { unfold handle_token in Htok. cbv zeta in Htok.
      destruct (String.eqb _ "skiplist").
      - destruct (Nat.eqb _ _); [discriminate Htok|].
        apply init_skiplist_options in Htok as (Htable & Hstrict & _).
        intros id Hid. specialize (Hkept id Hid).
        unfold fsck_msg_type in *. now rewrite Htable, Hstrict.
      - destruct (Nat.eqb _ _); [discriminate Htok|].
        eapply fatal_kept_set_msg_type; eassumption. }
    destruct (is_nul _).
    + injection Hrun as <- _. exact Hkept1.
    + eapply IH; eassumption.
Qed.

(** X4: no override list can demote a [Fatal] kind.  If the Fatal kinds
    are errors under the options (as they are while no table exists) and
    [fsck_set_msg_types] accepts a list, then under the new options a
    report of a Fatal kind is never ignored: it is skipped by the skip
    list or delivered to the sink as [Error]; and the Fatal kinds are
    errors under the new options too. *)
Theorem fatal_kinds_stay_errors `{Host} (options options' : fsck_options)
  (values : string) (w w' : world) (id : fsck_msg_id)
  (obj : option object) (message : string) (w2 : world) :
  fatal_kept options ->
  fsck_set_msg_types options values w = Ok (options', w') ->
  default_msg_type (msg_id_info id) = FSCK_FATAL ->
  fatal_kept options'
  /\ exists r w3 d,
       report options' obj id message w2 = Ok (r, w3)
       /\ log w3 = (log w2 ++ [EvReport id obj d])%list
       /\ (d = Skipped \/ exists text, d = Delivered FSCK_ERROR text r).
Proof.
  intros Hkept Hrun Hfatal.
  assert (Hkept' : fatal_kept options')
    by (eapply fatal_kept_loop; eassumption).
  split; [exact Hkept'|].
  specialize (Hkept' id Hfatal). rewrite fsck_msg_type_policy in Hkept'.
  pose proof (report_cases options' obj id message w2) as Hr.
  rewrite bool_decide_eq_false_2 in Hr
    by (intros Hig; rewrite Hig in Hkept'; discriminate Hkept').
  unfold deliver in Hr. rewrite Hkept' in Hr.
  destruct (skiplist options') as [p|], obj as [o|]; cbv zeta in Hr;
    try destruct (Z.leb 0 _);
    (eexists _, _, _; split; [exact Hr|]; split; [reflexivity|]);
    first [left; reflexivity | right; eexists; reflexivity].
Qed.

Lemma fatal_kinds_stay_errors_witness :
  exists options',
    fsck_set_msg_types (H := example_host) FSCK_OPTIONS_DEFAULT
      "nulinheader=error,baddate=ignore" initial_world
    = Ok (options', initial_world)
    /\ fatal_kept options'
    /\ exists r w3 d,
         report (H := example_host) options' None
           FSCK_MSG_UNTERMINATED_HEADER "unterminated header" initial_world
         = Ok (r, w3)
         /\ log w3
            = (log initial_world
               ++ [EvReport FSCK_MSG_UNTERMINATED_HEADER None d])%list
         /\ (d = Skipped \/ exists text, d = Delivered FSCK_ERROR text r).
Proof.
  destruct (fsck_set_msg_types (H := example_host) FSCK_OPTIONS_DEFAULT
              "nulinheader=error,baddate=ignore" initial_world)
    as [[options' w']| |] eqn:Hrun; try (vm_compute in Hrun; discriminate).
  assert (Hw : w' = initial_world).
  { vm_compute in Hrun. now injection Hrun as _ <-. }
  subst w'. exists options'. split; [reflexivity|].
  apply (fatal_kinds_stay_errors (H := example_host) FSCK_OPTIONS_DEFAULT
           options' "nulinheader=error,baddate=ignore" initial_world
           initial_world FSCK_MSG_UNTERMINATED_HEADER None
           "unterminated header" initial_world).
  - apply fatal_kept_no_table. reflexivity.
  - exact Hrun.
  - reflexivity.
Defined.

(** Two [die] messages that differ within their first three characters
    are not the same. *)
Ltac message_clash H :=
  exfalso; unfold die in H;
  apply (f_equal (fun r => match r with
                           | Died s => (String.get 0 s, String.get 2 s)
                           | _ => (None, None)
                           end)) in H;
  cbv in H; discriminate H.

(** X8: [is_valid_msg_type] checks the two names and nothing else.  It
    returns 0 exactly when [fsck_set_msg_type] would die of an unknown
    kind; it returns 1 exactly when [fsck_set_msg_type] would succeed or
    die of the demotion of a [Fatal] kind, which it does not check; and
    like [fsck_set_msg_type] it dies of an unknown severity. *)
Theorem is_valid_msg_type_cases (options : fsck_options)
  (msg_id msg_type : string) (w : world) :
  (is_valid_msg_type msg_id msg_type w = Ok (0, w)
   <-> fsck_set_msg_type options msg_id msg_type w
       = Died ("Unhandled message id: " +:+ msg_id))
  /\ (is_valid_msg_type msg_id msg_type w = Ok (1, w)
      <-> (exists options',
             fsck_set_msg_type options msg_id msg_type w = Ok (options', w))
          \/ fsck_set_msg_type options msg_id msg_type w
             = Died ("Cannot demote " +:+ msg_id +:+ " to " +:+ msg_type))
  /\ (is_valid_msg_type msg_id msg_type w
      = Died ("Unknown fsck message type: '" +:+ msg_type +:+ "'")
      <-> fsck_set_msg_type options msg_id msg_type w
          = Died ("Unknown fsck message type: '" +:+ msg_type +:+ "'")).
Proof.
  unfold is_valid_msg_type, fsck_set_msg_type.
  destruct (parse_msg_id msg_id) as [id|].
  - unfold mbind, M_bind.
    destruct (parse_msg_type_cases msg_type w)
      as [(type & Htype & _ & _)|Hdie]; rewrite ?Htype, ?Hdie.
    + destruct (bool_decide (type <> FSCK_ERROR) && bool_decide _);
        (split; [|split]); split; intros Hres;
        try discriminate Hres; try reflexivity; eauto;
        destruct Hres as [[o Ho]|Hd]; discriminate.
    + split; [|split]; split; intros Hres;
        try discriminate Hres; try reflexivity; try message_clash Hres.
      destruct Hres as [[o Ho]|Hd]; [discriminate Ho|message_clash Hd].
  - split; [|split]; split; intros Hres;
      try discriminate Hres; try reflexivity; try message_clash Hres.
    destruct Hres as [[o Ho]|Hd]; discriminate.
Qed.


(** ** Skip-list files *)

Lemma advance_all (i : nat) (s : string) :
  (String.length s <= i)%nat -> advance i s = EmptyString.
Proof.
  revert s. induction i as [|i IH]; intros s Hlen.
  - destruct s; [reflexivity|cbn in Hlen; lia].
  - destruct s as [|c s]; [reflexivity|].
    cbn [advance]. apply IH. cbn in Hlen. lia.
Qed.

Lemma file_of_lines_cons (line : string) (lines : list string) :
  line <> EmptyString ->
  file_of_lines (line :: lines) = line +:+ file_of_lines lines.
Proof.
  intros Hne. unfold file_of_lines. destruct lines as [|l lines].
  - cbn. now rewrite append_nil_r.
  - reflexivity.
Qed.

Lemma last_default {A} (l : list A) (a d d' : A) :
  List.last (a :: l) d = List.last (a :: l) d'.
Proof.
  revert a. induction l as [|b l IH]; intros a; [reflexivity|].
  change (List.last (b :: l) d = List.last (b :: l) d'). apply IH.
Qed.

Lemma last_cons_default {A} (l : list A) (a d : A) :
  List.last (a :: l) d = List.last l a.
Proof.
  rewrite (last_default l a d a). now destruct l.
Qed.

(** One turn of the read loop on a complete, well-formed line. *)
Lemma read_skiplist_line `{Host} (fuel : nat) (path : string) (f : file)
  (before line after buffer : string) (h : sha1) (sorted : bool)
  (w : world) :
  file_data f = before +:+ (line +:+ after) ->
  file_fails_at f = None ->
  skiplist_line line h ->
  (String.length buffer <= 41)%nat ->
  read_skiplist (S fuel) path f (String.length before) buffer sorted w
  = read_skiplist fuel path f (String.length (before +:+ line)) line
      (load_names [h] sorted w).1 (load_names [h] sorted w).2.
Proof.
  intros Hdata Hfail (Hlen & HLF & Hhex) Hbuf.
  assert (Htake : take_bytes 41 (line +:+ after) = line)
    by (rewrite <- Hlen; apply take_bytes_append).
  cbn [read_skiplist]. unfold read_in_full.
  rewrite Hfail, Hdata, advance_append, Htake, Hlen.
  cbn [Nat.eqb].
  rewrite (advance_all 41 buffer Hbuf), append_nil_r, Hhex, HLF.
  rewrite Ascii.eqb_refl, length_append, Hlen.
  reflexivity.
Qed.

(** The read loop over complete, well-formed lines: as many turns as
    lines, after which the loop stands behind them. *)
Lemma read_skiplist_lines `{Host} (path : string) (f : file)
  (lines : list string) (hs : list sha1) :
  Forall2 skiplist_line lines hs ->
  forall (fuel : nat) (before after buffer : string) (sorted : bool)
    (w : world),
    file_data f = before +:+ (file_of_lines lines +:+ after) ->
    file_fails_at f = None ->
    (String.length buffer <= 41)%nat ->
    read_skiplist (length lines + fuel) path f (String.length before)
      buffer sorted w
    = read_skiplist fuel path f
        (String.length (before +:+ file_of_lines lines))
        (List.last lines buffer)
        (load_names hs sorted w).1 (load_names hs sorted w).2.
Proof.
  induction 1 as [|line h lines hs Hline Hlines IH];
    intros fuel before after buffer sorted w Hdata Hfail Hbuf.
  - cbn. unfold file_of_lines. cbn. now rewrite append_nil_r.
  - assert (Hlen : String.length line = 41%nat) by apply Hline.
    assert (Hne : line <> EmptyString)
      by (intros ->; discriminate Hlen).
    rewrite file_of_lines_cons in Hdata |- * by exact Hne.
    assert (Hdata1 : file_data f
                     = before +:+ (line +:+ (file_of_lines lines +:+ after)))
      by (rewrite Hdata, !append_assoc; reflexivity).
    assert (Hdata2 : file_data f
                     = (before +:+ line) +:+ (file_of_lines lines +:+ after))
      by (rewrite Hdata, !append_assoc; reflexivity).
    cbn [length Nat.add].
    rewrite (read_skiplist_line _ path f before line
               (file_of_lines lines +:+ after) buffer h sorted w
               Hdata1 Hfail Hline Hbuf).
    rewrite (IH fuel (before +:+ line) after line _ _ Hdata2 Hfail)
      by lia.
    rewrite append_assoc.
    f_equal. symmetry. apply last_cons_default.
Qed.

(** What [load_names] does to the process: the names are appended to the
    static array and nothing else changes. *)
Lemma load_names_world (hs : list sha1) :
  forall (s0 : bool) (w : world),
    sha1s (arrays (load_names hs s0 w).2 static_skiplist)
    = (sha1s (arrays w static_skiplist) ++ hs)%list
    /\ (forall p, p <> static_skiplist ->
          arrays (load_names hs s0 w).2 p = arrays w p)
    /\ log (load_names hs s0 w).2 = log w
    /\ (hs <> [] ->
        sorted (arrays (load_names hs s0 w).2 static_skiplist)
        = false).
Proof.
  induction hs as [|h hs IH]; intros s0 w.
  - cbn. rewrite app_nil_r. repeat split; intros; congruence.
  - cbn [load_names].
    match goal with
    | |- context [load_names hs ?s ?w1] =>
        destruct (IH s w1) as (Hnames & Hframe & Hlog & Hflag)
    end.
    rewrite Hnames, Hlog. repeat split.
    + cbn. rewrite decide_True by reflexivity. cbn.
      rewrite <- app_assoc. reflexivity.
    + intros p Hp. rewrite (Hframe p Hp). cbn.
      now rewrite decide_False by exact Hp.
    + intros _. destruct hs as [|h' hs]; [reflexivity|].
      apply Hflag. discriminate.
Qed.

Lemma ascending_app (l l' : list sha1) (x : sha1) :
  ascending (l ++ x :: l')%list
  = ascending (l ++ [x])%list && ascending (x :: l').
Proof.
  induction l as [|a l IH]; [reflexivity|].
  destruct l as [|b l].
  - cbn. now rewrite andb_true_r.
  - change (negb (Z.ltb 0 (hashcmp a b))
            && ascending ((b :: l) ++ x :: l')%list
            = negb (Z.ltb 0 (hashcmp a b))
              && ascending ((b :: l) ++ [x])%list && ascending (x :: l')).
    rewrite IH. now rewrite andb_assoc.
Qed.

(** The test of the loop on the name just appended. *)
Lemma sorted_step (sorted : bool) (cur : list sha1) (h : sha1) :
  (if sorted && Nat.ltb 1 (length (cur ++ [h])%list)
      && Z.ltb 0 (hashcmp (nth (length (cur ++ [h])%list - 2)
                             (cur ++ [h])%list EmptyString) h)
   then false else sorted)
  = sorted && ascending (drop (length cur - 1) cur ++ [h])%list.
Proof.
  destruct cur as [|c cur0] using rev_ind.
  - cbn. now rewrite andb_false_r, andb_true_r.
  - clear IHcur0. rewrite !length_app. cbn [length].
    replace (length cur0 + 1 + 1 - 2)%nat with (length cur0) by lia.
    replace (length cur0 + 1 - 1)%nat with (length cur0) by lia.
    rewrite drop_app_length.
    rewrite <- app_assoc. cbn [app].
    rewrite nth_middle.
    replace (Nat.ltb 1 (length cur0 + 1 + 1)) with true
      by (symmetry; apply Nat.ltb_lt; lia).
    cbn [ascending]. rewrite andb_true_r.
    destruct sorted, (Z.ltb 0 (hashcmp c h)); reflexivity.
Qed.

Lemma load_names_cons (h : sha1) (hs : list sha1) (sorted : bool)
  (w : world) :
  load_names (h :: hs) sorted w
  = load_names hs
      (sorted
       && ascending
            (drop (length (sha1s (arrays w static_skiplist)) - 1)
               (sha1s (arrays w static_skiplist)) ++ [h])%list)
      (set_array static_skiplist
         (sha1_array_append (arrays w static_skiplist) h) w).
Proof.
  rewrite <- sorted_step. reflexivity.
Qed.

(** The local [sorted] after the loop: it was set before, and each name
    appended was at least the name before it in the array. *)
Lemma load_names_sorted (hs : list sha1) :
  forall (sorted : bool) (w : world),
    (load_names hs sorted w).1
    = sorted
      && ascending
           (drop (length (sha1s (arrays w static_skiplist)) - 1)
              (sha1s (arrays w static_skiplist)) ++ hs)%list.
Proof.
  induction hs as [|h hs IH]; intros sorted w.
  - cbn [load_names fst]. rewrite app_nil_r.
    destruct (sha1s (arrays w static_skiplist)) as [|c cur0] using rev_ind.
    + cbn. now rewrite andb_true_r.
    + rewrite length_app. cbn [length].
      replace (length cur0 + 1 - 1)%nat with (length cur0) by lia.
      rewrite drop_app_length. cbn. now rewrite andb_true_r.
  - rewrite load_names_cons, IH.
    change (arrays (set_array static_skiplist
                      (sha1_array_append (arrays w static_skiplist) h) w)
              static_skiplist)
      with (sha1_array_append (arrays w static_skiplist) h).
    cbn [sha1_array_append sha1s].
    set (cur := sha1s (arrays w static_skiplist)).
    rewrite length_app. cbn [length].
    replace (length cur + 1 - 1)%nat with (length cur) by lia.
    rewrite drop_app_length.
    rewrite (ascending_app (drop (length cur - 1) cur) hs h).
    now rewrite andb_assoc.
Qed.

Lemma read_skiplist_end `{Host} (fuel : nat) (path : string) (f : file)
  (pos : nat) (buffer : string) (sorted : bool) (w : world) :
  file_fails_at f = None ->
  (String.length (file_data f) <= pos)%nat ->
  read_skiplist (S fuel) path f pos buffer sorted w = Ok (sorted, w).
Proof.
  intros Hfail Hpos. cbn [read_skiplist]. unfold read_in_full.
  rewrite Hfail, (advance_all pos _ Hpos). reflexivity.
Qed.

(** The run of [init_skiplist] on a file of well-formed lines. *)
Lemma init_skiplist_loads `{Host} (options : fsck_options) (path : string)
  (f : file) (lines : list string) (hs : list sha1) (w : world) :
  open_file path = Some f ->
  file_fails_at f = None ->
  file_data f = file_of_lines lines ->
  Forall2 skiplist_line lines hs ->
  (String.length (uninitialized 41) <= 41)%nat ->
  init_skiplist options path w
  = let sorted0 :=
      match skiplist options with
      | Some p => sorted (arrays w p)
      | None => true
      end in
    let w1 := (load_names hs sorted0 w).2 in
    Ok (match skiplist options with
        | Some _ => options
        | None => with_skiplist options static_skiplist
        end,
        if (load_names hs sorted0 w).1
        then set_array static_skiplist
               (mk_sha1_array (sha1s (arrays w1 static_skiplist)) true) w1
        else w1).
Proof.
  intros Hopen Hfail Hdata Hlines Hbuf.
  assert (Hn : (String.length (file_data f) = 41 * length lines)%nat).
  { rewrite Hdata. clear Hdata. induction Hlines as [|l h ls hs' Hl _ IH].
    - reflexivity.
    - destruct Hl as (Hlen & _).
      rewrite file_of_lines_cons by (intros ->; discriminate Hlen).
      rewrite length_append, IH, Hlen. cbn [List.length].
      rewrite Nat.mul_succ_r. apply Nat.add_comm. }
  assert (Hread : forall sorted0,
            read_skiplist (S (String.length (file_data f))) path f 0
              (uninitialized 41) sorted0 w
            = Ok (load_names hs sorted0 w)).
  { intros sorted0.
    replace (S (String.length (file_data f)))
      with (length lines + S (40 * length lines))%nat by lia.
    rewrite (read_skiplist_lines path f lines hs Hlines _ EmptyString
               EmptyString (uninitialized 41) sorted0 w);
      [| cbn; rewrite append_nil_r; exact Hdata | exact Hfail | exact Hbuf].
    rewrite read_skiplist_end;
      [ now destruct (load_names hs sorted0 w) | exact Hfail | ].
    rewrite Hdata. apply Nat.le_refl. }
  unfold init_skiplist. rewrite Hopen.
  destruct (skiplist options) as [p|];
    unfold mbind, M_bind, get_array, put_array, mret, M_ret;
    cbn -[read_skiplist load_names]; rewrite Hread;
    destruct (load_names hs _ w) as [[] w1]; reflexivity.
Qed.

(** X9: a skip-list file made of well-formed lines is read to its end, and
    the names it spells are appended to the static array in the order of
    the file; no other array and no diagnostic is touched. *)
Theorem init_skiplist_appends_names `{Host} (options : fsck_options)
  (path : string) (f : file) (lines : list string) (hs : list sha1)
  (w : world) :
  open_file path = Some f ->
  file_fails_at f = None ->
  file_data f = file_of_lines lines ->
  Forall2 skiplist_line lines hs ->
  (String.length (uninitialized 41) <= 41)%nat ->
  exists options' w',
    init_skiplist options path w = Ok (options', w')
    /\ sha1s (arrays w' static_skiplist)
       = (sha1s (arrays w static_skiplist) ++ hs)%list
    /\ (forall n, arrays w' (caller_array n) = arrays w (caller_array n))
    /\ log w' = log w.
Proof.
  intros Hopen Hfail Hdata Hlines Hbuf.
  rewrite (init_skiplist_loads options path f lines hs w
             Hopen Hfail Hdata Hlines Hbuf).
  cbv zeta. eexists _, _. split; [reflexivity|].
  match goal with
  | |- context [load_names hs ?s w] =>
      destruct (load_names_world hs s w) as (Hnames & Hframe & Hlog & _);
      destruct (load_names hs s w) as [[] w1]
  end; cbn [fst snd] in *.
  - cbn. rewrite decide_True by reflexivity. cbn.
    repeat split; [exact Hnames| |exact Hlog].
    intros n. rewrite decide_False by discriminate.
    apply Hframe. discriminate.
  - repeat split; [exact Hnames| |exact Hlog].
    intros n. apply Hframe. discriminate.
Qed.

Lemma init_skiplist_appends_names_witness :
  exists options' w',
    init_skiplist (H := host_with_file (skip_line_2 +:+ skip_line_1))
      FSCK_OPTIONS_DEFAULT "any" skiplist_world = Ok (options', w')
    /\ sha1s (arrays w' static_skiplist)
       = ("0123456789abcdefghij"
          :: [name_of_line skip_line_2; name_of_line skip_line_1])%list
    /\ (forall n, arrays w' (caller_array n)
                  = arrays skiplist_world (caller_array n))
    /\ log w' = log skiplist_world.
Proof.
  apply (init_skiplist_appends_names
           (H := host_with_file (skip_line_2 +:+ skip_line_1))
           FSCK_OPTIONS_DEFAULT "any"
           (mk_file (skip_line_2 +:+ skip_line_1) None)
           [skip_line_2; skip_line_1]
           [name_of_line skip_line_2; name_of_line skip_line_1]
           skiplist_world).
  - reflexivity.
  - reflexivity.
  - reflexivity.
  - repeat constructor.
  - vm_compute. lia.
Defined.

(** X10: the first load of a process (options without a skip list, the
    static array empty) leaves the array holding the names of the file and
    marked sorted exactly when the names are in ascending order. *)
Theorem fresh_skiplist_marked_sorted `{Host} (options : fsck_options)
  (path : string) (f : file) (lines : list string) (hs : list sha1)
  (w : world) :
  skiplist options = None ->
  sha1s (arrays w static_skiplist) = [] ->
  open_file path = Some f ->
  file_fails_at f = None ->
  file_data f = file_of_lines lines ->
  Forall2 skiplist_line lines hs ->
  (String.length (uninitialized 41) <= 41)%nat ->
  exists w',
    init_skiplist options path w
    = Ok (with_skiplist options static_skiplist, w')
    /\ arrays w' static_skiplist = mk_sha1_array hs (ascending hs).
Proof.
  intros Hsk Hempty Hopen Hfail Hdata Hlines Hbuf.
  rewrite (init_skiplist_loads options path f lines hs w
             Hopen Hfail Hdata Hlines Hbuf).
  rewrite Hsk. cbv zeta. eexists. split; [reflexivity|].
  pose proof (load_names_sorted hs true w) as Hsorted.
  destruct (load_names_world hs true w) as (Hnames & _ & _ & Hflag).
  rewrite Hempty in Hsorted, Hnames. cbn in Hsorted, Hnames.
  destruct (load_names hs true w) as [s' w1]. cbn [fst snd] in *.
  subst s'. destruct (ascending hs) eqn:Hasc.
  - cbn. rewrite decide_True by reflexivity. now rewrite Hnames.
  - destruct (arrays w1 static_skiplist) as [names flag].
    cbn in Hnames, Hflag. subst names. rewrite Hflag; [reflexivity|].
    intros ->. discriminate Hasc.
Qed.

Lemma fresh_skiplist_marked_sorted_witness :
  exists w',
    init_skiplist (H := host_with_file (skip_line_2 +:+ skip_line_1))
      FSCK_OPTIONS_DEFAULT "any" initial_world
    = Ok (with_skiplist FSCK_OPTIONS_DEFAULT static_skiplist, w')
    /\ arrays w' static_skiplist
       = mk_sha1_array
           [name_of_line skip_line_2; name_of_line skip_line_1]
           (ascending [name_of_line skip_line_2; name_of_line skip_line_1]).
Proof.
  apply (fresh_skiplist_marked_sorted
           (H := host_with_file (skip_line_2 +:+ skip_line_1))
           FSCK_OPTIONS_DEFAULT "any"
           (mk_file (skip_line_2 +:+ skip_line_1) None)
           [skip_line_2; skip_line_1]
           [name_of_line skip_line_2; name_of_line skip_line_1]
           initial_world).
  - reflexivity.
  - reflexivity.
  - reflexivity.
  - reflexivity.
  - reflexivity.
  - repeat constructor.
  - vm_compute. lia.
Defined.

Lemma ascending_snoc (cur : list sha1) (h : sha1) :
  ascending (cur ++ [h])%list
  = ascending cur
    && ascending (drop (length cur - 1) cur ++ [h])%list.
Proof.
  destruct cur as [|x c0 _] using rev_ind.
  - reflexivity.
  - rewrite length_app. cbn [List.length].
    replace (length c0 + 1 - 1)%nat with (length c0) by lia.
    rewrite drop_app_length, <- app_assoc.
    apply (ascending_app c0 [h] x).
Qed.

Lemma ascending_app_l (l l' : list sha1) :
  ascending (l ++ l')%list = true -> ascending l = true.
Proof.
  destruct l as [|x c0 _] using rev_ind; [reflexivity|].
  rewrite <- app_assoc. cbn [app]. rewrite ascending_app.
  intros Hasc. now apply andb_prop in Hasc.
Qed.

(** While the loop runs, its local [sorted], if still set, and the
    [sorted] flag of the static array, if set, tell the truth. *)
Lemma read_skiplist_truthful `{Host} (fuel : nat) (path : string)
  (f : file) :
  forall (pos : nat) (buffer : string) (sorted : bool) (w w' : world)
    (r : bool),
    read_skiplist fuel path f pos buffer sorted w = Ok (r, w') ->
    (sorted = true -> ascending (sha1s (arrays w static_skiplist)) = true) ->
    flag_truthful (arrays w static_skiplist) ->
    (r = true -> ascending (sha1s (arrays w' static_skiplist)) = true)
    /\ flag_truthful (arrays w' static_skiplist).
Proof.
  induction fuel as [|fuel IH];
    intros pos buffer sorted w w' r Hrun Hsorted Hflag.
  - discriminate Hrun.
  - cbn [read_skiplist] in Hrun.
    destruct (read_in_full f pos 41) as [chunk|]; [|discriminate Hrun].
    destruct (Nat.eqb (String.length chunk) 0).
    { injection Hrun as <- <-. split; assumption. }
    destruct (get_sha1_hex _) as [h|]; [|discriminate Hrun].
    destruct (Ascii.eqb _ LF); [|discriminate Hrun].
    run_monad.
    apply IH in Hrun; [exact Hrun| |].
    + set (cur := sha1s (arrays w static_skiplist)) in *.
      intros Hs.
      change ((if sorted && Nat.ltb 1 (length (cur ++ [h])%list)
                  && Z.ltb 0 (hashcmp (nth (length (cur ++ [h])%list - 2)
                                         (cur ++ [h])%list EmptyString) h)
               then false else sorted) = true) in Hs.
      rewrite sorted_step in Hs. apply andb_prop in Hs as [Hs Hpair].
      change (ascending (cur ++ [h])%list = true).
      rewrite ascending_snoc, (Hsorted Hs), Hpair. reflexivity.
    + intros Hf. exfalso. revert Hf.
      change (false = true -> False). discriminate.
Qed.

(** X11: a load keeps the [sorted] flag of the static array truthful.  If
    the flag told the truth before, and the options already point at the
    static array or that array was in ascending order, then after any
    successful [init_skiplist] the array is marked sorted only if its
    names are in ascending order. *)
Theorem init_skiplist_flag_truthful `{Host} (options options' : fsck_options)
  (path : string) (w w' : world) :
  flag_truthful (arrays w static_skiplist) ->
  skiplist options = Some static_skiplist
  \/ ascending (sha1s (arrays w static_skiplist)) = true ->
  init_skiplist options path w = Ok (options', w') ->
  flag_truthful (arrays w' static_skiplist).
Proof.
  intros Hflag Hstart Hrun. unfold init_skiplist in Hrun.
  assert (Hloop : forall sorted0 fuel f r w1,
            (sorted0 = true ->
             ascending (sha1s (arrays w static_skiplist)) = true) ->
            read_skiplist fuel path f 0 (uninitialized 41) sorted0 w
            = Ok (r, w1) ->
            flag_truthful
              (arrays (if r
                       then set_array static_skiplist
                              (mk_sha1_array
                                 (sha1s (arrays w1 static_skiplist)) true) w1
                       else w1) static_skiplist)).
  { intros sorted0 fuel f r w1 Hs0 Hread.
    apply read_skiplist_truthful in Hread as [Hr Hf]; [|exact Hs0|exact Hflag].
    destruct r; [|exact Hf].
    intros _. cbn. rewrite decide_True by reflexivity. now apply Hr. }
  destruct (skiplist options) as [p|] eqn:Hsk; run_monad;
    (destruct (open_file path) as [f|]; [|discriminate Hrun]);
    match type of Hrun with
    | context [read_skiplist ?fuel path f 0 ?b ?s w] =>
        destruct (read_skiplist fuel path f 0 b s w) as [[r w1]| |] eqn:Hread;
          try discriminate Hrun;
          apply Hloop in Hread
    end.
  - destruct r; injection Hrun as _ <-; exact Hread.
  - intros Hs. destruct Hstart as [Hp|Hasc]; [|exact Hasc].
    injection Hp as ->. now apply Hflag.
  - destruct r; injection Hrun as _ <-; exact Hread.
  - intros _. destruct Hstart as [Hp|Hasc]; [discriminate Hp|exact Hasc].
Qed.

Lemma init_skiplist_flag_truthful_witness :
  exists options' w',
    init_skiplist (H := host_with_file (skip_line_1 +:+ skip_line_2))
      FSCK_OPTIONS_DEFAULT "any" skiplist_world = Ok (options', w')
    /\ flag_truthful (arrays w' static_skiplist).
Proof.
  destruct (init_skiplist (H := host_with_file (skip_line_1 +:+ skip_line_2))
              FSCK_OPTIONS_DEFAULT "any" skiplist_world)
    as [[options' w']| |] eqn:Hrun; try (vm_compute in Hrun; discriminate).
  exists options', w'. split; [reflexivity|].
  apply (init_skiplist_flag_truthful
           (H := host_with_file (skip_line_1 +:+ skip_line_2))
           FSCK_OPTIONS_DEFAULT options' "any" skiplist_world w').
  - intros _. reflexivity.
  - right. reflexivity.
  - exact Hrun.
Defined.

(** X12: the flag can lie after a load with options that have no skip
    list yet.  [init_skiplist] then starts from [sorted = 1] whatever the
    static array already holds: if its names were not in ascending order
    and the names of the file ascend from its last name on, the array is
    marked sorted although it is not. *)
Theorem fresh_options_stale_flag `{Host} (options : fsck_options)
  (path : string) (f : file) (lines : list string) (hs : list sha1)
  (w : world) :
  skiplist options = None ->
  ascending (sha1s (arrays w static_skiplist)) = false ->
  ascending
    (drop (length (sha1s (arrays w static_skiplist)) - 1)
       (sha1s (arrays w static_skiplist)) ++ hs)%list = true ->
  open_file path = Some f ->
  file_fails_at f = None ->
  file_data f = file_of_lines lines ->
  Forall2 skiplist_line lines hs ->
  (String.length (uninitialized 41) <= 41)%nat ->
  exists options' w',
    init_skiplist options path w = Ok (options', w')
    /\ sorted (arrays w' static_skiplist) = true
    /\ ascending (sha1s (arrays w' static_skiplist)) = false.
Proof.
  intros Hsk Hcur Hnew Hopen Hfail Hdata Hlines Hbuf.
  rewrite (init_skiplist_loads options path f lines hs w
             Hopen Hfail Hdata Hlines Hbuf).
  rewrite Hsk. cbv zeta. eexists _, _. split; [reflexivity|].
  pose proof (load_names_sorted hs true w) as Hsorted.
  destruct (load_names_world hs true w) as (Hnames & _ & _ & _).
  rewrite Hnew in Hsorted.
  destruct (load_names hs true w) as [s' w1]. cbn [fst snd] in *.
  subst s'. cbn. rewrite decide_True by reflexivity. cbn.
  split; [reflexivity|]. rewrite Hnames.
  destruct (ascending (sha1s (arrays w static_skiplist) ++ hs)%list)
    eqn:Hasc; [|reflexivity].
  apply ascending_app_l in Hasc. congruence.
Qed.

Lemma fresh_options_stale_flag_witness :
  exists options' w',
    init_skiplist (H := host_with_file skip_line_2)
      FSCK_OPTIONS_DEFAULT "any"
      (mk_world
         (fun _ => mk_sha1_array
                     [name_of_line skip_line_2; name_of_line skip_line_1]
                     false) [])
    = Ok (options', w')
    /\ sorted (arrays w' static_skiplist) = true
    /\ ascending (sha1s (arrays w' static_skiplist)) = false.
Proof.
  apply (fresh_options_stale_flag (H := host_with_file skip_line_2)
           FSCK_OPTIONS_DEFAULT "any" (mk_file skip_line_2 None)
           [skip_line_2] [name_of_line skip_line_2]).
  - reflexivity.
  - reflexivity.
  - reflexivity.
  - reflexivity.
  - reflexivity.
  - reflexivity.
  - repeat constructor.
  - vm_compute. lia.
Defined.

Lemma take_bytes_ge (i : nat) (s : string) :
  (String.length s <= i)%nat -> take_bytes i s = s.
Proof.
  revert s. induction i as [|i IH]; intros s Hlen.
  - destruct s; [reflexivity|cbn in Hlen; lia].
  - destruct s as [|c s]; [reflexivity|].
    cbn [take_bytes]. f_equal. apply IH. cbn in Hlen. lia.
Qed.

(** [init_skiplist] around its read loop. *)
Lemma init_skiplist_run `{Host} (options : fsck_options) (path : string)
  (f : file) (w : world) :
  open_file path = Some f ->
  init_skiplist options path w
  = match
      read_skiplist (S (String.length (file_data f))) path f 0
        (uninitialized 41)
        match skiplist options with
        | Some p => sorted (arrays w p)
        | None => true
        end w
    with
    | Ok (s', w1) =>
        Ok (match skiplist options with
            | Some _ => options
            | None => with_skiplist options static_skiplist
            end,
            if s' : bool
            then set_array static_skiplist
                   (mk_sha1_array (sha1s (arrays w1 static_skiplist)) true)
                   w1
            else w1)
    | Died msg => Died msg
    | Stuck => Stuck
    end.
Proof.
  intros Hopen. unfold init_skiplist. rewrite Hopen.
  destruct (skiplist options) as [p|];
    unfold mbind, M_bind, get_array, put_array, mret, M_ret;
    cbn -[read_skiplist];
    destruct (read_skiplist _ path f 0 _ _ w) as [[[] w1]| |];
    reflexivity.
Qed.

Lemma length_file_of_lines `{Host} (lines : list string) (hs : list sha1) :
  Forall2 skiplist_line lines hs ->
  String.length (file_of_lines lines) = (41 * length lines)%nat.
Proof.
  induction 1 as [|l h ls hs' Hl _ IH]; [reflexivity|].
  destruct Hl as (Hlen & _).
  rewrite file_of_lines_cons by (intros ->; discriminate Hlen).
  rewrite length_append, IH, Hlen. cbn [List.length].
  rewrite Nat.mul_succ_r. apply Nat.add_comm.
Qed.

Lemma last_skiplist_line `{Host} (lines : list string) (hs : list sha1)
  (d : string) :
  Forall2 skiplist_line lines hs ->
  lines <> [] ->
  String.length (List.last lines d) = 41%nat
  /\ char_at (List.last lines d) 40 = LF.
Proof.
  induction 1 as [|l h ls hs' Hl Hls IH]; intros Hne; [congruence|].
  destruct Hls as [|l2 h2 ls2 hs2 Hl2 Hls2].
  - cbn. destruct Hl as (Hlen & HLF & _). now split.
  - change (List.last (l :: l2 :: ls2) d) with (List.last (l2 :: ls2) d).
    apply IH. discriminate.
Qed.

(** One turn of the read loop on the short rest of the file. *)
Lemma read_skiplist_partial `{Host} (fuel : nat) (path : string) (f : file)
  (before partial buffer : string) (h : sha1) (sorted : bool) (w : world) :
  file_data f = before +:+ partial ->
  file_fails_at f = None ->
  (0 < String.length partial <= 41)%nat ->
  get_sha1_hex (partial +:+ advance (String.length partial) buffer)
  = Some h ->
  char_at (partial +:+ advance (String.length partial) buffer) 40 = LF ->
  read_skiplist (S fuel) path f (String.length before) buffer sorted w
  = read_skiplist fuel path f (String.length before + String.length partial)
      (partial +:+ advance (String.length partial) buffer)
      (load_names [h] sorted w).1 (load_names [h] sorted w).2.
Proof.
  intros Hdata Hfail Hk Hhex HLF.
  cbn [read_skiplist]. unfold read_in_full.
  rewrite Hfail, Hdata, advance_append, (take_bytes_ge 41 partial) by lia.
  destruct (Nat.eqb_spec (String.length partial) 0) as [Hz|_]; [lia|].
  rewrite Hhex, HLF, Ascii.eqb_refl. reflexivity.
Qed.

Lemma load_names_snoc (hs : list sha1) (h : sha1) :
  forall (sorted : bool) (w : world),
    load_names [h] (load_names hs sorted w).1 (load_names hs sorted w).2
    = load_names (hs ++ [h]) sorted w.
Proof.
  induction hs as [|h0 hs IH]; intros sorted w; [reflexivity|].
  cbn [app]. rewrite !load_names_cons.
  rewrite <- IH, load_names_cons. reflexivity.
Qed.

(** X13: a truncated last line is completed with the tail of the line
    before it.  When the file ends in fewer than 41 bytes after at least
    one full line, the short read overwrites only the head of the buffer;
    if the completed buffer spells a name, that name is appended like any
    other (so a last line without its newline is accepted). *)
Theorem truncated_last_line_completed `{Host} (options : fsck_options)
  (path : string) (f : file) (lines : list string) (hs : list sha1)
  (partial : string) (h : sha1) (w : world) :
  open_file path = Some f ->
  file_fails_at f = None ->
  file_data f = file_of_lines lines +:+ partial ->
  Forall2 skiplist_line lines hs ->
  lines <> [] ->
  (0 < String.length partial < 41)%nat ->
  get_sha1_hex
    (partial +:+ advance (String.length partial) (List.last lines EmptyString))
  = Some h ->
  (String.length (uninitialized 41) <= 41)%nat ->
  exists options' w',
    init_skiplist options path w = Ok (options', w')
    /\ sha1s (arrays w' static_skiplist)
       = (sha1s (arrays w static_skiplist) ++ hs ++ [h])%list.
Proof.
  intros Hopen Hfail Hdata Hlines Hne Hk Hhex Hbuf.
  rewrite (init_skiplist_run options path f w Hopen).
  set (sorted0 := match skiplist options with
                  | Some p => sorted (arrays w p)
                  | None => true
                  end).
  assert (Hn : String.length (file_data f)
               = (41 * length lines + String.length partial)%nat)
    by (rewrite Hdata, length_append, (length_file_of_lines lines hs Hlines);
        reflexivity).
  destruct (last_skiplist_line lines hs (uninitialized 41) Hlines Hne)
    as (Hlast & HLF).
  assert (Hd : List.last lines EmptyString
               = List.last lines (uninitialized 41)).
  { destruct lines as [|l ls]; [congruence|]. apply last_default. }
  rewrite Hd in Hhex.
  set (line := List.last lines (uninitialized 41)) in *.
  set (buffer := partial +:+ advance (String.length partial) line) in *.
  assert (Hread :
    read_skiplist (S (String.length (file_data f))) path f 0
      (uninitialized 41) sorted0 w
    = Ok (load_names (hs ++ [h]) sorted0 w)).
  { replace (S (String.length (file_data f)))
      with (length lines
            + S (S (40 * length lines + String.length partial - 1)))%nat
      by lia.
    rewrite (read_skiplist_lines path f lines hs Hlines _ EmptyString
               partial (uninitialized 41) sorted0 w);
      [| exact Hdata | exact Hfail | exact Hbuf].
    change (EmptyString +:+ file_of_lines lines) with (file_of_lines lines).
    fold line.
    assert (HLF' : char_at buffer 40 = LF).
    { unfold buffer.
      replace 40%nat
        with (String.length partial + (40 - String.length partial))%nat
        by lia.
      rewrite char_at_append, char_at_advance.
      replace (String.length partial + (40 - String.length partial))%nat
        with 40%nat by lia.
      exact HLF. }
    rewrite (read_skiplist_partial _ path f (file_of_lines lines) partial
               line h _ _ Hdata Hfail ltac:(lia) Hhex HLF').
    rewrite read_skiplist_end;
      [| exact Hfail
       | rewrite Hdata, length_append; apply Nat.le_refl ].
    rewrite <- load_names_snoc.
    now destruct (load_names [h] _ _). }
  rewrite Hread.
  destruct (load_names_world (hs ++ [h]) sorted0 w) as (Hnames & _).
  destruct (load_names (hs ++ [h]) sorted0 w) as [[] w1];
    cbn [fst snd] in *; eexists _, _; (split; [reflexivity|]);
    [cbn; rewrite decide_True by reflexivity|]; exact Hnames.
Qed.

Lemma truncated_last_line_completed_witness :
  exists options' w',
    init_skiplist (H := host_with_file (skip_line_1 +:+ skip_line_2_cut))
      FSCK_OPTIONS_DEFAULT "any" initial_world = Ok (options', w')
    /\ sha1s (arrays w' static_skiplist)
       = (sha1s (arrays initial_world static_skiplist)
          ++ [name_of_line skip_line_1] ++ [name_of_line skip_line_2])%list.
Proof.
  apply (truncated_last_line_completed
           (H := host_with_file (skip_line_1 +:+ skip_line_2_cut))
           FSCK_OPTIONS_DEFAULT "any"
           (mk_file (skip_line_1 +:+ skip_line_2_cut) None)
           [skip_line_1] [name_of_line skip_line_1] skip_line_2_cut
           (name_of_line skip_line_2) initial_world).
  - reflexivity.
  - reflexivity.
  - reflexivity.
  - repeat constructor.
  - discriminate.
  - vm_compute. lia.
  - reflexivity.
  - vm_compute. lia.
Defined.

(** X14: a malformed line ends the process.  After any number of
    well-formed lines, 41 bytes that spell no name, or whose last byte is
    not LF, make [init_skiplist] die with an "Invalid SHA-1" message;
    nothing behind them is read. *)
Theorem malformed_line_dies `{Host} (options : fsck_options)
  (path : string) (f : file) (lines : list string) (hs : list sha1)
  (bad rest : string) (w : world) :
  open_file path = Some f ->
  file_fails_at f = None ->
  file_data f = file_of_lines lines +:+ (bad +:+ rest) ->
  Forall2 skiplist_line lines hs ->
  String.length bad = 41%nat ->
  get_sha1_hex bad = None \/ char_at bad 40 <> LF ->
  (String.length (uninitialized 41) <= 41)%nat ->
  exists text,
    init_skiplist options path w = Died ("Invalid SHA-1: " +:+ text).
Proof.
  intros Hopen Hfail Hdata Hlines Hlen Hbad Hbuf.
  rewrite (init_skiplist_run options path f w Hopen).
  set (sorted0 := match skiplist options with
                  | Some p => sorted (arrays w p)
                  | None => true
                  end).
  assert (Hn : String.length (file_data f)
               = (41 * length lines + (41 + String.length rest))%nat)
    by (rewrite Hdata, !length_append, (length_file_of_lines lines hs Hlines),
          Hlen; reflexivity).
  exists (c_str bad).
  replace (S (String.length (file_data f)))
    with (length lines
          + S (40 * length lines + (41 + String.length rest)))%nat
    by lia.
  rewrite (read_skiplist_lines path f lines hs Hlines _ EmptyString
             (bad +:+ rest) (uninitialized 41) sorted0 w);
    [| exact Hdata | exact Hfail | exact Hbuf].
  change (EmptyString +:+ file_of_lines lines) with (file_of_lines lines).
  assert (Htake : take_bytes 41 (bad +:+ rest) = bad)
    by (rewrite <- Hlen; apply take_bytes_append).
  assert (Hrest : forall buffer,
            (String.length buffer <= 41)%nat ->
            bad +:+ advance 41 buffer = bad)
    by (intros buffer Hb; rewrite (advance_all 41 buffer Hb);
        apply append_nil_r).
  assert (Hb : (String.length (List.last lines (uninitialized 41)) <= 41)%nat).
  { destruct lines as [|l ls]; [exact Hbuf|].
    destruct (last_skiplist_line (l :: ls) hs (uninitialized 41) Hlines)
      as (Hl & _); [discriminate|]. lia. }
  cbn [read_skiplist]. unfold read_in_full.
  rewrite Hfail, Hdata, advance_append, Htake, Hlen.
  cbn [Nat.eqb]. rewrite (Hrest _ Hb).
  destruct (get_sha1_hex bad) as [h|]; [|reflexivity].
  destruct (Ascii.eqb_spec (char_at bad 40) LF) as [HLF|_]; [|reflexivity].
  destruct Hbad as [Hbad|Hbad]; [discriminate Hbad|contradiction].
Qed.

Lemma malformed_line_dies_witness :
  exists text,
    init_skiplist
      (H := host_with_file (skip_line_1 +:+ (bad_skip_line +:+ skip_line_2)))
      FSCK_OPTIONS_DEFAULT "any" initial_world
    = Died ("Invalid SHA-1: " +:+ text).
Proof.
  apply (malformed_line_dies
           (H := host_with_file
                   (skip_line_1 +:+ (bad_skip_line +:+ skip_line_2)))
           FSCK_OPTIONS_DEFAULT "any"
           (mk_file (skip_line_1 +:+ (bad_skip_line +:+ skip_line_2)) None)
           [skip_line_1] [name_of_line skip_line_1] bad_skip_line skip_line_2
           initial_world).
  - reflexivity.
  - reflexivity.
  - reflexivity.
  - repeat constructor.
  - reflexivity.
  - right. vm_compute. discriminate.
  - vm_compute. lia.
Defined.


(** ** Results and diagnostics of the validators *)

Lemma verdict_nil : verdict 0 [].
Proof. left. split; [reflexivity|constructor]. Qed.

Lemma verdict_app (r : Z) (evs1 evs2 : list event) :
  all_zero evs1 -> verdict r evs2 -> verdict r (evs1 ++ evs2)%list.
Proof.
  intros Hz [[-> Hall]|[Hr (evs0 & e & -> & Hz0 & He)]].
  - left. split; [reflexivity|]. now apply Forall_app.
  - right. split; [exact Hr|].
    exists (evs1 ++ evs0)%list, e.
    rewrite app_assoc. repeat split; [|exact He]. now apply Forall_app.
Qed.

Lemma verdict_zero (evs : list event) : verdict 0 evs -> all_zero evs.
Proof. intros [[_ Hall]|[Hr _]]; [exact Hall|congruence]. Qed.

Lemma checks_mret {A} (obj : option object) (res : A -> Z) (a : A) :
  res a = 0 -> checks obj res (mret a).
Proof.
  intros Hres w. right. exists a, w, []. split; [apply runs_mret|].
  split; [constructor|]. rewrite Hres. apply verdict_nil.
Qed.

Lemma leaves_buffer_bind {A B} (m : M A) (k : A -> M B) (w : world) :
  leaves_buffer m w -> leaves_buffer (m ≫= k) w.
Proof.
  unfold leaves_buffer, mbind, M_bind. now intros ->.
Qed.

Lemma leaves_buffer_then {A B} (m : M A) (k : A -> M B) (w w1 : world)
  (a : A) :
  m w = Ok (a, w1) -> leaves_buffer (k a) w1 -> leaves_buffer (m ≫= k) w.
Proof.
  unfold leaves_buffer, mbind, M_bind. now intros ->.
Qed.

Lemma checks_if {A} (obj : option object) (res : A -> Z) (c : bool)
  (m1 m2 : M A) :
  checks obj res m1 -> checks obj res m2 ->
  checks obj res (if c then m1 else m2).
Proof. now destruct c. Qed.

Lemma checks_bind_post {A B} (obj : option object) (resA : A -> Z)
  (resB : B -> Z) (P : A -> Prop) (m : M A) (k : A -> M B) :
  checks obj resA m ->
  (forall w a w', m w = Ok (a, w') -> P a) ->
  (forall a, P a -> resA a = 0 -> checks obj resB (k a)) ->
  (forall a, resA a <> 0 -> exists b, k a = mret b /\ resB b = resA a) ->
  checks obj resB (m ≫= k).
Proof.
  intros Hm HP Hk Hstop w.
  destruct (Hm w) as [Hout|(a & w1 & evs1 & Hrun1 & Hab1 & Hv1)];
    [left; now apply leaves_buffer_bind|].
  destruct (Z.eq_dec (resA a) 0) as [Hz|Hnz].
  - destruct (Hk a (HP w a w1 (proj1 Hrun1)) Hz w1)
      as [Hout|(b & w2 & evs2 & Hrun2 & Hab2 & Hv2)];
      [left; eapply leaves_buffer_then; [apply Hrun1|exact Hout]|].
    right. exists b, w2, (evs1 ++ evs2)%list.
    split; [eapply runs_bind; eassumption|].
    split; [now apply Forall_app|].
    apply verdict_app; [|exact Hv2].
    rewrite Hz in Hv1. now apply verdict_zero.
  - destruct (Hstop a Hnz) as (b & Hkb & Hres).
    right. exists b, w1, evs1.
    split.
    + rewrite <- (app_nil_r evs1). eapply runs_bind; [exact Hrun1|].
      rewrite Hkb. apply runs_mret.
    + split; [exact Hab1|]. now rewrite Hres.
Qed.

Lemma checks_bind {A B} (obj : option object) (resA : A -> Z)
  (resB : B -> Z) (m : M A) (k : A -> M B) :
  checks obj resA m ->
  (forall a, resA a = 0 -> checks obj resB (k a)) ->
  (forall a, resA a <> 0 -> exists b, k a = mret b /\ resB b = resA a) ->
  checks obj resB (m ≫= k).
Proof.
  intros Hm Hk. apply (checks_bind_post obj resA resB (fun _ => True));
    auto.
Qed.

Lemma checks_report `{Host} (options : fsck_options) (obj : option object)
  (id : fsck_msg_id) (message : string) :
  checks obj (fun r => r) (report options obj id message).
Proof.
  intros w.
  destruct (report_one_event options obj id message w)
    as (r & w' & d & Hr & _ & Hl & Hd).
  right. exists r, w', [EvReport id obj d].
  split; [split; assumption|].
  split; [repeat constructor; eexists _, _; reflexivity|].
  assert (He : event_result (EvReport id obj d) = r)
    by (destruct Hd as [[-> ->]|[[-> ->]|[-> _]]]; reflexivity).
  destruct (Z.eq_dec r 0) as [->|Hnz].
  - left. split; [reflexivity|]. repeat constructor. exact He.
  - right. split; [exact Hnz|]. exists [], (EvReport id obj d).
    repeat split; [constructor|exact He].
Qed.

(** [err = report (...); if (err) return err;] and what follows. *)
Lemma checks_err `{Host} {B} (obj : option object) (resB : B -> Z)
  (m : M Z) (stop : Z -> B) (k : M B) :
  checks obj (fun r => r) m ->
  (forall r, resB (stop r) = r) ->
  checks obj resB k ->
  checks obj resB
    (err ← m; if negb (Z.eqb err 0) then mret (stop err) else k).
Proof.
  intros Hm Hstop Hk. eapply checks_bind; [exact Hm| |].
  - intros a ->. exact Hk.
  - intros a Ha. exists (stop a). split; [|apply Hstop].
    destruct (Z.eqb_spec a 0); [contradiction|reflexivity].
Qed.

(** The [fail] of [fsck_ident]. *)
Lemma checks_fail `{Host} (obj : option object) (options : fsck_options)
  (id : fsck_msg_id) (message next : string) :
  checks obj fst (report options obj id message ≫= fun r => mret (r, next)).
Proof.
  intros w. destruct (checks_report options obj id message w)
    as [Hout|(r & w' & evs & Hrun & Hab & Hv)];
    [left; now apply leaves_buffer_bind|].
  right. exists (r, next), w', evs. split; [|split; assumption].
  rewrite <- (app_nil_r evs). eapply runs_bind; [exact Hrun|].
  apply runs_mret.
Qed.

Lemma fsck_ident_checks `{Host} (ident : string) (obj : option object)
  (options : fsck_options) :
  checks obj fst (fsck_ident ident obj options).
Proof.
  unfold fsck_ident. cbv zeta.
  repeat first
    [ apply checks_fail
    | apply checks_mret; reflexivity
    | apply checks_if
    | match goal with
      | |- checks _ _ (let '(_, _) := ?x in _) => destruct x
      end ].
Qed.

(** [fsck_ident] and what follows its [if (err) return err;]. *)
Lemma checks_ident `{Host} {B} (obj : option object) (resB : B -> Z)
  (ident : string) (options : fsck_options) (stop : Z -> B)
  (k : string -> M B) :
  (forall r, resB (stop r) = r) ->
  checks obj resB (k (next_line ident)) ->
  checks obj resB
    ('(err, buffer) ← fsck_ident ident obj options;
     if negb (Z.eqb err 0) then mret (stop err) else k buffer).
Proof.
  intros Hstop Hk.
  apply (checks_bind_post obj fst resB
           (fun a => a.2 = next_line ident)); [apply fsck_ident_checks| | |].
  - intros w a w' Hrun.
    destruct (fsck_ident_lands ident obj options w) as (r & w1 & Hland).
    rewrite Hland in Hrun. now injection Hrun as <- _.
  - intros [err next] Hnext Herr. cbn in Hnext, Herr. subst. exact Hk.
  - intros [err next] Herr. cbn in Herr. exists (stop err).
    split; [|apply Hstop].
    destruct (Z.eqb_spec err 0); [contradiction|reflexivity].
Qed.

(** [buffer += n] and what follows it. *)
Lemma checks_step_over {B} (obj : option object) (resB : B -> Z)
  (n : nat) (buffer : string) (k : string -> M B) :
  (forall rest, (String.length rest + n = String.length buffer)%nat ->
                checks obj resB (k rest)) ->
  checks obj resB (step_over n buffer ≫= k).
Proof.
  intros Hk w.
  destruct (step_over_cases n buffer w) as [[Hn Hstep]|[Hn Hstep]].
  - assert (Hlen : (String.length (advance n buffer) + n
                    = String.length buffer)%nat)
      by (rewrite length_advance; lia).
    destruct (Hk _ Hlen w) as [Hout|(b & w' & evs & Hrun & Hrest)].
    + left. eapply leaves_buffer_then; [exact Hstep|exact Hout].
    + right. exists b, w', evs. split; [|exact Hrest].
      destruct Hrun as [Hrun Hlog]. split; [|exact Hlog].
      unfold mbind, M_bind. now rewrite Hstep.
  - left. unfold leaves_buffer, mbind, M_bind. now rewrite Hstep.
Qed.

Lemma verify_headers_checks `{Host} (buffer : string)
  (obj : option object) (options : fsck_options) :
  checks obj (fun r => r) (verify_headers buffer obj options).
Proof.
  unfold verify_headers.
  destruct (verify_headers_loop buffer 0);
    repeat first
      [ apply checks_report | apply checks_mret; reflexivity
      | apply checks_if ].
Qed.

Lemma parent_lines_checks `{Host} (fuel : nat) (buffer : string)
  (count : nat) (obj : option object) (options : fsck_options) :
  (String.length buffer < fuel)%nat ->
  checks obj loop_error (parent_lines fuel buffer count obj options).
Proof.
  revert buffer count.
  induction fuel as [|fuel IH]; intros buffer count Hfuel; [lia|].
  cbn [parent_lines].
  destruct (skip_prefix buffer "parent ") as [rest|] eqn:Hskip;
    [|apply checks_mret; reflexivity].
  apply skip_prefix_length in Hskip. cbn [String.length] in Hskip.
  apply (checks_err obj loop_error _ inl).
  - apply checks_if; [apply checks_report|apply checks_mret; reflexivity].
  - reflexivity.
  - apply checks_step_over. intros rest' Hrest'. apply IH. lia.
Qed.

Lemma author_lines_checks `{Host} (fuel : nat) (buffer : string)
  (count : nat) (obj : option object) (options : fsck_options) :
  (String.length buffer < fuel)%nat ->
  checks obj loop_error (author_lines fuel buffer count obj options).
Proof.
  revert buffer count.
  induction fuel as [|fuel IH]; intros buffer count Hfuel; [lia|].
  cbn [author_lines].
  destruct (skip_prefix buffer "author ") as [rest|] eqn:Hskip;
    [|apply checks_mret; reflexivity].
  apply skip_prefix_length in Hskip. cbn [String.length] in Hskip.
  apply (checks_ident obj loop_error rest options inl
           (fun buffer => author_lines fuel buffer (S count) obj options)).
  - reflexivity.
  - apply IH. pose proof (next_line_length rest). lia.
Qed.

(** A loop of [fsck_commit_buffer] and what follows it. *)
Lemma checks_loop {A} (obj : option object) (m : M (Z + A))
  (k : A -> M Z) :
  checks obj loop_error m ->
  (forall v, checks obj (fun r => r) (k v)) ->
  checks obj (fun r => r)
    (pl ← m; match pl with inl err => mret err | inr v => k v end).
Proof.
  intros Hm Hk. eapply checks_bind; [exact Hm| |].
  - intros [err|v] Hz; [|apply Hk].
    cbn in Hz. subst err. now apply checks_mret.
  - intros [err|v] Hnz; [|now contradiction Hnz].
    exists err. split; reflexivity.
Qed.

(** The last step of [fsck_tag_buffer]: [ret = fsck_ident (...)]. *)
Lemma checks_ident_last `{Host} (obj : option object) (ident : string)
  (options : fsck_options) :
  checks obj (fun r => r)
    ('(ret, _) ← fsck_ident ident obj options; mret ret).
Proof.
  intros w. destruct (fsck_ident_checks ident obj options w)
    as [Hout|([r next] & w' & evs & Hrun & Hab & Hv)];
    [left; now apply leaves_buffer_bind|].
  right. exists r, w', evs. split; [|split; assumption].
  rewrite <- (app_nil_r evs). eapply runs_bind; [exact Hrun|].
  apply runs_mret.
Qed.

Ltac prove_checks :=
  repeat first
    [ apply checks_report
    | apply checks_mret; reflexivity
    | apply checks_ident_last
    | apply checks_if
    | apply (checks_err _ (fun r : Z => r) _ (fun r : Z => r));
        [ | reflexivity | ]
    | apply (checks_ident _ (fun r : Z => r) _ _ (fun r : Z => r));
        [ reflexivity | ]
    | apply checks_loop; [ | intros [? ?] ]
    | apply checks_step_over; intros ? ?
    | apply parent_lines_checks; lia
    | apply author_lines_checks; lia
    | match goal with
      | |- checks _ _ (match ?x with _ => _ end) => destruct x
      end ].

Lemma fsck_tag_lines_checks `{Host} (obj : option object)
  (buffer : string) (options : fsck_options) :
  checks obj (fun r => r) (fsck_tag_lines obj buffer options).
Proof.
  unfold fsck_tag_lines. cbv zeta.
  apply (checks_err _ (fun r : Z => r) _ (fun r : Z => r));
    [apply verify_headers_checks|reflexivity|].
  prove_checks.
Qed.

Lemma fsck_tag_checks `{Host} (tag : object) (tagged : option object)
  (data : option string) (options : fsck_options) :
  checks (Some tag) (fun r => r) (fsck_tag tag tagged data options).
Proof.
  unfold fsck_tag, fsck_tag_buffer.
  destruct tagged; [|apply checks_report].
  destruct data; [apply fsck_tag_lines_checks|].
  destruct (read_sha1_file _) as [[type buffer]|]; [|apply checks_report].
  apply checks_if; [apply checks_report|apply fsck_tag_lines_checks].
Qed.

(** [fsck_commit_buffer]: its header check, and its lines behind it. *)
Lemma fsck_commit_lines_checks `{Host} (commit : object)
  (tree : option object) (parents : list object) (buffer : string)
  (options : fsck_options) (w : world) :
  leaves_buffer (fsck_commit_buffer commit tree parents buffer options) w
  \/ exists r w' evs,
       runs (fsck_commit_buffer commit tree parents buffer options) w r w'
         evs
       /\ Forall (about (Some commit)) evs
       /\ (verdict r evs
           \/ (r = -1 /\ exists r', r' <> 0 /\
                runs (verify_headers buffer (Some commit) options) w r' w'
                  evs
                /\ stopped_by r' evs)).
Proof.
  unfold fsck_commit_buffer. cbv zeta.
  destruct (verify_headers_checks buffer (Some commit) options w)
    as [Hout|(r1 & w1 & evs1 & Hrun1 & Hab1 & Hv1)];
    [left; now apply leaves_buffer_bind|].
  destruct (Z.eqb_spec r1 0) as [->|Hnz].
  - match goal with
    | |- context [mbind ?k _] =>
        assert (Hrest : checks (Some commit) (fun r : Z => r) (k 0))
    end.
    { cbn [Z.eqb negb]. prove_checks. }
    destruct (Hrest w1) as [Hout|(r & w2 & evs2 & Hrun2 & Hab2 & Hv2)].
    { left. eapply leaves_buffer_then; [apply Hrun1|exact Hout]. }
    right. exists r, w2, (evs1 ++ evs2)%list.
    split; [eapply runs_bind; eassumption|].
    split; [now apply Forall_app|]. left.
    apply verdict_app; [now apply verdict_zero|exact Hv2].
  - right. exists (-1), w1, evs1. split.
    + rewrite <- (app_nil_r evs1). eapply runs_bind; [exact Hrun1|].
      destruct (Z.eqb_spec r1 0); [contradiction|]. apply runs_mret.
    + split; [exact Hab1|]. right. split; [reflexivity|].
      exists r1. split; [exact Hnz|]. split; [exact Hrun1|].
      destruct Hv1 as [[Hz _]|Hs]; [contradiction|exact Hs].
Qed.

Lemma report_sink_value `{Host} (options : fsck_options)
  (obj : option object) (id : fsck_msg_id) (message : string) (w : world) :
  exists r w' d,
    runs (report options obj id message) w r w' [EvReport id obj d]
    /\ event_result (EvReport id obj d) = r
    /\ sink_value options obj r.
Proof.
  pose proof (report_cases options obj id message w) as Hr.
  unfold deliver in Hr. cbv zeta in Hr.
  assert (Hrun : forall r w1 d,
            report options obj id message w
            = Ok (r, add_event (EvReport id obj d) w1) ->
            log w1 = log w ->
            runs (report options obj id message) w r
              (add_event (EvReport id obj d) w1) [EvReport id obj d]).
  { intros r w1 d Heq Hlog. split; [exact Heq|]. cbn. now rewrite Hlog. }
  destruct (bool_decide _).
  { eexists _, _, _. split; [apply Hrun; [exact Hr|reflexivity]|].
    split; [reflexivity|left; reflexivity]. }
  destruct (skiplist options) as [p|], obj as [o|];
    try destruct (Z.leb 0 _);
    (eexists _, _, _; split; [apply Hrun; [exact Hr|reflexivity]|]);
    (split; [reflexivity|]);
    first [ left; reflexivity | right; eexists _, _; reflexivity ].
Qed.

Lemma sum_results_app (evs1 evs2 : list event) :
  sum_results (evs1 ++ evs2)%list = sum_results evs1 + sum_results evs2.
Proof.
  unfold sum_results.
  induction evs1 as [|e evs1 IH]; cbn [foldr app]; [reflexivity|].
  rewrite IH. lia.
Qed.

Lemma tallies_mret (options : fsck_options) (obj : option object)
  (r : Z) :
  tallies options obj r [] (mret r).
Proof.
  intros w. exists r, w, []. split; [apply runs_mret|].
  repeat split; try constructor. cbn. lia.
Qed.

Lemma tallies_bind (options : fsck_options) (obj : option object)
  (base : Z) (kinds1 kinds2 : list fsck_msg_id) (m : M Z) (k : Z -> M Z) :
  tallies options obj base kinds1 m ->
  (forall r, tallies options obj r kinds2 (k r)) ->
  tallies options obj base (kinds1 ++ kinds2)%list (m ≫= k).
Proof.
  intros Hm Hk w.
  destruct (Hm w) as (r1 & w1 & evs1 & Hrun1 & Hab1 & Hs1 & Hk1 & Hr1).
  destruct (Hk r1 w1) as (r2 & w2 & evs2 & Hrun2 & Hab2 & Hs2 & Hk2 & Hr2).
  exists r2, w2, (evs1 ++ evs2)%list.
  split; [eapply runs_bind; eassumption|].
  split; [now apply Forall_app|].
  split; [now apply Forall_app|].
  split; [now rewrite !fmap_app, Hk1, Hk2|].
  rewrite sum_results_app. lia.
Qed.

Lemma tallies_report_if `{Host} (flag : bool) (retval : Z)
  (options : fsck_options) (obj : option object) (id : fsck_msg_id)
  (message : string) :
  tallies options obj retval (if flag then [id] else [])
    (report_if flag retval options obj id message).
Proof.
  unfold report_if. destruct flag; [|apply tallies_mret].
  intros w.
  destruct (report_sink_value options obj id message w)
    as (r & w' & d & Hrun & He & Hs).
  exists (retval + r), w', [EvReport id obj d].
  split.
  { change [EvReport id obj d] with ([EvReport id obj d] ++ [])%list.
    eapply runs_bind; [exact Hrun|apply runs_mret]. }
  split; [constructor; [eexists _, _; reflexivity|constructor]|].
  split; [constructor; [now rewrite He|constructor]|].
  split; [reflexivity|]. unfold sum_results. cbn [foldr].
  rewrite He. lia.
Qed.

Lemma fsck_tree_tallies `{Host} (item : object) (buffer : list tree_entry)
  (options : fsck_options) :
  tallies options (Some item) 0
    (List.filter
       (tree_flag (fsck_tree_loop (strict options) buffer None no_flags))
       tree_kinds)
    (fsck_tree item buffer options).
Proof.
  unfold fsck_tree. cbv zeta.
  set (fl := fsck_tree_loop (strict options) buffer None no_flags).
  assert (Hkinds :
    List.filter (tree_flag fl) tree_kinds
    = ((if has_null_sha1 fl then [FSCK_MSG_NULL_SHA1] else [])
       ++ (if has_full_path fl then [FSCK_MSG_FULL_PATHNAME] else [])
       ++ (if has_empty_name fl then [FSCK_MSG_EMPTY_NAME] else [])
       ++ (if has_dot fl then [FSCK_MSG_HAS_DOT] else [])
       ++ (if has_dotdot fl then [FSCK_MSG_HAS_DOTDOT] else [])
       ++ (if has_dotgit fl then [FSCK_MSG_HAS_DOTGIT] else [])
       ++ (if has_zero_pad fl then [FSCK_MSG_ZERO_PADDED_FILEMODE] else [])
       ++ (if has_bad_modes fl then [FSCK_MSG_BAD_FILEMODE] else [])
       ++ (if has_dup_entries fl then [FSCK_MSG_DUPLICATE_ENTRIES] else [])
       ++ (if not_properly_sorted fl then [FSCK_MSG_TREE_NOT_SORTED]
           else [])
       ++ [])%list).
  { cbn [List.filter tree_kinds tree_flag].
    destruct (has_null_sha1 fl), (has_full_path fl), (has_empty_name fl),
      (has_dot fl), (has_dotdot fl), (has_dotgit fl), (has_zero_pad fl),
      (has_bad_modes fl), (has_dup_entries fl), (not_properly_sorted fl);
      reflexivity. }
  rewrite Hkinds.
  repeat (apply tallies_bind; [apply tallies_report_if|intros ?]).
  apply tallies_mret.
Qed.

Lemma stopped_by_not_all_zero (r : Z) (evs : list event) :
  stopped_by r evs -> ~ all_zero evs.
Proof.
  intros [Hr (evs0 & e & -> & _ & He)] Hall.
  apply Forall_app in Hall as [_ Hall].
  inversion Hall as [|? ? Hz _]; subst. congruence.
Qed.

Lemma verdict_zero_iff (r : Z) (evs : list event) :
  verdict r evs -> (r = 0 <-> all_zero evs).
Proof.
  intros [[-> Hall]|Hs]; [tauto|].
  split.
  - intros ->. now destruct Hs.
  - intros Hall. now apply stopped_by_not_all_zero in Hs.
Qed.

Lemma sum_results_zero_iff (evs : list event) :
  Forall (fun e => 0 <= event_result e) evs ->
  (sum_results evs = 0 <-> all_zero evs).
Proof.
  unfold sum_results, all_zero.
  induction 1 as [|e evs He Hevs IH]; cbn [foldr].
  - split; [constructor|reflexivity].
  - assert (Hsum : 0 <= foldr (fun e acc => event_result e + acc) 0 evs).
    { clear IH. induction Hevs as [|e' evs' He' _ IH']; cbn [foldr]; lia. }
    split.
    + intros Hz. constructor; [lia|]. apply IH. lia.
    + intros Hall. inversion Hall as [|? ? Hz Hrest]; subst.
      apply IH in Hrest. lia.
Qed.

Lemma runs_report_inv `{Host} (options : fsck_options)
  (obj : option object) (id : fsck_msg_id) (message : string)
  (w w' : world) (r : Z) (evs : list event) :
  runs (report options obj id message) w r w' evs ->
  exists d, evs = [EvReport id obj d].
Proof.
  intros [Hrun Hlog].
  destruct (report_one_event options obj id message w)
    as (r1 & w1 & d & Hr & _ & Hl & _).
  rewrite Hr in Hrun. injection Hrun as -> ->.
  rewrite Hl in Hlog. apply app_inv_head in Hlog. eauto.
Qed.

Lemma runs_mret_inv {A} (a b : A) (w w' : world) (evs : list event) :
  runs (mret a) w b w' evs -> evs = [].
Proof.
  intros [Hrun Hlog]. injection Hrun as _ <-.
  rewrite <- (app_nil_r (log w)) in Hlog at 1.
  apply app_inv_head in Hlog. congruence.
Qed.

(** [verify_headers] makes at most one [report] call, of one of its two
    kinds. *)
Lemma verify_headers_kinds `{Host} (buffer : string) (obj : option object)
  (options : fsck_options) (w w' : world) (r : Z) (evs : list event) :
  runs (verify_headers buffer obj options) w r w' evs ->
  evs = []
  \/ exists id d,
       evs = [EvReport id obj d]
       /\ (id = FSCK_MSG_NUL_IN_HEADER \/ id = FSCK_MSG_UNTERMINATED_HEADER).
Proof.
  unfold verify_headers. intros Hrun.
  destruct (verify_headers_loop buffer 0);
    repeat match type of Hrun with
           | runs (if ?c then _ else _) _ _ _ _ => destruct c
           end;
    first
      [ apply runs_mret_inv in Hrun; left; exact Hrun
      | apply runs_report_inv in Hrun as [d ->];
        right; eexists _, _; split; [reflexivity|]; auto ].
Qed.

(** X15: unless its parse leaves the buffer, [fsck_tag] returns, and it
    gives up at the first [report] that does not return 0 and returns
    that value.  Every diagnostic is about the tag; a result of 0 means
    that every [report] call returned 0, and any other result is what
    the last [report] call returned, all calls before it having
    returned 0. *)
Theorem fsck_tag_stops_at_first_failure `{Host} (tag : object)
  (tagged : option object) (data : option string)
  (options : fsck_options) (w : world) :
  leaves_buffer (fsck_tag tag tagged data options) w
  \/ exists r w' evs,
       runs (fsck_tag tag tagged data options) w r w' evs
       /\ Forall (about (Some tag)) evs
       /\ ((r = 0 /\ all_zero evs) \/ stopped_by r evs).
Proof.
  destruct (fsck_tag_checks tag tagged data options w)
    as [Hout|(r & w' & evs & Hrun & Habout & Hverdict)];
    [left; exact Hout|].
  right. exists r, w', evs. repeat split; try assumption; apply Hrun.
Qed.

(** X16: unless its parse leaves the buffer, [fsck_commit] returns, and
    it gives up at the first [report] that does not return 0.  It
    returns that value, except that a failed header check makes it
    return -1 whatever [report] returned; then the header diagnostic is
    the only one. *)
Theorem fsck_commit_stops_at_first_failure `{Host} (commit : object)
  (tree : option object) (parents : list object) (data : option string)
  (options : fsck_options) (w : world) :
  leaves_buffer (fsck_commit commit tree parents data options) w
  \/ exists r w' evs,
       runs (fsck_commit commit tree parents data options) w r w' evs
       /\ Forall (about (Some commit)) evs
       /\ ((r = 0 /\ all_zero evs)
           \/ stopped_by r evs
           \/ (r = -1
               /\ exists id d,
                    evs = [EvReport id (Some commit) d]
                    /\ (id = FSCK_MSG_NUL_IN_HEADER
                        \/ id = FSCK_MSG_UNTERMINATED_HEADER)
                    /\ event_result (EvReport id (Some commit) d) <> 0)).
Proof.
  unfold fsck_commit.
  destruct (fsck_commit_lines_checks commit tree parents
              (match data with
               | Some d => d
               | None => get_commit_buffer commit
               end) options w)
    as [Hout|(r & w' & evs & Hrun & Habout & Hres)];
    [left; exact Hout|].
  right. exists r, w', evs. split; [exact Hrun|]. split; [exact Habout|].
  destruct Hres as [[Hz|Hs]|(-> & r' & Hnz & Hhdr & Hs)]; [tauto|tauto|].
  right. right. split; [reflexivity|].
  destruct Hs as [_ (evs0 & e & -> & _ & He)].
  apply verify_headers_kinds in Hhdr as [Hnil|(id & d & Hone & Hid)].
  - now destruct evs0.
  - destruct evs0 as [|e0 [|e1 evs0]]; try discriminate Hone.
    injection Hone as ->. exists id, d.
    split; [reflexivity|]. split; [exact Hid|]. now rewrite He.
Qed.

(** A [tree] line cut short: once the sink has answered the diagnostic
    with 0, the step of 41 bytes ends behind the buffer. *)
Lemma short_tree_line_leaves_buffer :
  leaves_buffer
    (fsck_commit (H := example_host)
       (Commit "0123456789abcdefghij" 0 None []) None []
       (Some ("tree abc" +:+ String LF (String LF EmptyString)))
       (mk_options (fun _ _ => 0) (fun _ _ _ => 0) false None None))
    initial_world.
Proof. vm_compute. reflexivity. Qed.


(** X18: with a sink whose results are not negative, and small enough
    for the sum that [fsck_tree] forms of up to ten of them to stay an
    [int] (the default sink answers 0 or 1), [fsck_object] returns 0
    exactly when every [report] call of the run returned 0, that is when
    each diagnostic was ignored, skipped, or accepted by the sink with 0;
    and every diagnostic is about the object passed in.  This holds of
    every run that does not leave the buffer of a commit or a tag. *)
Theorem fsck_object_zero_iff_clean `{Host} (obj : option object)
  (data : option string) (options : fsck_options) (w : world) :
  (forall o severity text,
     0 <= error_func options o severity text <= 214748364) ->
  leaves_buffer (fsck_object obj data options) w
  \/ exists r w' evs,
       runs (fsck_object obj data options) w r w' evs
       /\ Forall (about obj) evs
       /\ (r = 0 <-> all_zero evs).
Proof.
  intros Hsink.
  assert (Hchecks : forall m, checks obj (fun r : Z => r) m ->
            leaves_buffer m w
            \/ exists r w' evs,
                 runs m w r w' evs /\ Forall (about obj) evs
                 /\ (r = 0 <-> all_zero evs)).
  { intros m Hm.
    destruct (Hm w) as [Hout|(r & w' & evs & Hrun & Hab & Hv)];
      [left; exact Hout|].
    right. exists r, w', evs. split; [exact Hrun|]. split; [exact Hab|].
    now apply verdict_zero_iff. }
  destruct obj as [[oid|oid parsed buffer|oid parsed tree parents
                    |oid parsed tagged|type oid]|];
    cbn [fsck_object].
  - apply Hchecks. now apply checks_mret.
  - destruct (fsck_tree_tallies (Tree oid parsed buffer) buffer options w)
      as (r & w' & evs & Hrun & Hab & Hs & _ & Hr).
    right. exists r, w', evs. split; [exact Hrun|]. split; [exact Hab|].
    rewrite Hr, Z.add_0_l. apply sum_results_zero_iff.
    eapply Forall_impl; [exact Hs|].
    intros e [->|(severity & text & ->)]; [lia|apply Hsink].
  - destruct (fsck_commit_lines_checks (Commit oid parsed tree parents)
                tree parents
                (match data with
                 | Some d => d
                 | None => get_commit_buffer (Commit oid parsed tree parents)
                 end) options w)
      as [Hout|(r & w' & evs & Hrun & Hab & Hres)]; [left; exact Hout|].
    right. exists r, w', evs. split; [exact Hrun|]. split; [exact Hab|].
    destruct Hres as [Hv|(-> & r' & _ & _ & Hs)];
      [now apply verdict_zero_iff|].
    split; [discriminate|].
    intros Hall. now apply stopped_by_not_all_zero in Hs.
  - apply Hchecks, fsck_tag_checks.
  - apply Hchecks, checks_report.
  - apply Hchecks, checks_report.
Qed.

Lemma fsck_object_zero_iff_clean_witness :
  leaves_buffer
    (fsck_object (H := example_host) (Some untidy_tree) None
       FSCK_OPTIONS_DEFAULT) initial_world
  \/ exists r w' evs,
       runs (fsck_object (H := example_host) (Some untidy_tree) None
               FSCK_OPTIONS_DEFAULT) initial_world r w' evs
       /\ Forall (about (Some untidy_tree)) evs
       /\ (r = 0 <-> all_zero evs).
Proof.
  apply (fsck_object_zero_iff_clean (H := example_host) (Some untidy_tree)
           None FSCK_OPTIONS_DEFAULT initial_world).
  intros o severity text. cbn. unfold returning, fsck_error_function.
  destruct o, (bool_decide (severity = FSCK_WARN)); cbn; lia.
Defined.

(** ** Which trees raise which flag *)

(** The flags after the loop: a flag is set if it was set before, or an
    entry trips it, alone or with the entry before it. *)
Lemma fsck_tree_loop_flags `{Host} (strict : bool) (id : fsck_msg_id)
  (desc : list tree_entry) :
  forall (o : option (Z * string)) (fl : tree_flags),
    tree_flag (fsck_tree_loop strict desc o fl) id
    = tree_flag fl id || existsb (entry_trips strict id) desc
      || pairs_trip id o desc.
Proof.
  induction desc as [|e desc IH]; intros o fl.
  - cbn. now rewrite !orb_false_r.
  - cbn [fsck_tree_loop existsb pairs_trip]. rewrite IH.
    assert (Hstep :
      tree_flag (fsck_tree_entry strict o e fl) id
      = tree_flag fl id || entry_trips strict id e
        || match o with
           | Some (o_mode, o_name) => pair_trips id o_mode o_name e
           | None => false
           end).
    { unfold fsck_tree_entry, entry_trips, pair_trips.
      destruct o as [[o_mode o_name]|], id; cbn [tree_flag];
        cbv zeta; cbn [has_null_sha1 has_full_path has_empty_name has_dot
                       has_dotdot has_dotgit has_zero_pad has_bad_modes
                       has_dup_entries not_properly_sorted];
        rewrite ?orb_false_r; reflexivity. }
    rewrite Hstep.
    destruct (tree_flag fl id), (entry_trips strict id e),
      (existsb (entry_trips strict id) desc),
      (match o with Some (o_mode, o_name) => _ | None => false end),
      (pairs_trip id _ desc); reflexivity.
Qed.

Lemma pairs_trip_spec (id : fsck_msg_id) (desc : list tree_entry) :
  forall o,
    pairs_trip id o desc = true
    <-> (exists o_mode o_name e,
           o = Some (o_mode, o_name) /\ desc !! 0%nat = Some e
           /\ pair_trips id o_mode o_name e = true)
        \/ (exists i e1 e2,
              desc !! i = Some e1 /\ desc !! S i = Some e2
              /\ pair_trips id (entry_mode e1) (entry_name e1) e2 = true).
Proof.
  induction desc as [|e desc IH]; intros o.
  - cbn. split; [discriminate|].
    intros [(? & ? & ? & _ & Hl & _)|(? & ? & ? & Hl & _)]; discriminate Hl.
  - cbn [pairs_trip]. rewrite orb_true_iff, IH. split.
    + intros [Hhead|[(m & n & e2 & Ho & Hl & Hp)|(i & e1 & e2 & H1 & H2 & Hp)]].
      * destruct o as [[m n]|]; [|discriminate Hhead].
        left. exists m, n, e. auto.
      * injection Ho as <- <-. right. exists 0%nat, e, e2. auto.
      * right. exists (S i), e1, e2. auto.
    + intros [(m & n & e0 & -> & Hl & Hp)|(i & e1 & e2 & H1 & H2 & Hp)].
      * injection Hl as <-. left. exact Hp.
      * right. destruct i as [|i].
        -- injection H1 as <-. left. exists (entry_mode e), (entry_name e), e2.
           auto.
        -- right. exists i, e1, e2. auto.
Qed.

(** X19: which trees make [fsck_tree] report which kind.  A kind is
    reported exactly when some entry trips it by itself (the eight kinds
    about names, modes and object names), or some entry trips it together
    with the entry just before it (duplicates and order): no flag is ever
    cleared again, and nothing but the entries and their neighbours
    counts. *)
Theorem fsck_tree_reports_iff `{Host} (item : object)
  (buffer : list tree_entry) (options : fsck_options) (w : world)
  (id : fsck_msg_id) :
  reported id (events_of (fsck_tree item buffer options) w)
  <-> (exists e, In e buffer /\ entry_trips (strict options) id e = true)
      \/ (exists i e1 e2,
            buffer !! i = Some e1 /\ buffer !! S i = Some e2
            /\ pair_trips id (entry_mode e1) (entry_name e1) e2 = true).
Proof.
  destruct (fsck_tree_reports item buffer options w)
    as (r & w' & evs & Hrun & Hrep).
  rewrite (runs_events _ _ _ _ _ Hrun), Hrep, fsck_tree_loop_flags.
  replace (tree_flag no_flags id) with false by now destruct id.
  rewrite orb_false_l, orb_true_iff.
  rewrite existsb_exists, pairs_trip_spec.
  split.
  - intros [He|[(m & n & e & Ho & _)|Hp]]; [left|discriminate Ho|right];
      assumption.
  - intros [He|Hp]; [left|right; right]; assumption.
Qed.

(** ** The order of tree entries *)

Lemma byte_val_inj (c1 c2 : ascii) : byte_val c1 = byte_val c2 -> c1 = c2.
Proof.
  unfold byte_val. intros Heq.
  rewrite <- (ascii_N_embedding c1), <- (ascii_N_embedding c2).
  now rewrite Heq.
Qed.

Lemma path_order_dups (mode1 mode2 : Z) (name1 : string) :
  forall name2,
    path_order mode1 name1 mode2 name2 = TREE_HAS_DUPS <-> name1 = name2.
Proof.
  induction name1 as [|c1 rest1 IH]; intros [|c2 rest2];
    cbn [path_order].
  - tauto.
  - destruct (_ <? _)%N; split; discriminate.
  - destruct (_ <? _)%N; split; discriminate.
  - destruct (N.ltb_spec (byte_val c1) (byte_val c2)) as [Hlt|Hge].
    { split; [discriminate|]. intros Heq. injection Heq as -> _. lia. }
    destruct (N.ltb_spec (byte_val c2) (byte_val c1)) as [Hgt|Hle].
    { split; [discriminate|]. intros Heq. injection Heq as -> _. lia. }
    rewrite IH. assert (c1 = c2) as -> by (apply byte_val_inj; lia).
    split; [now intros ->|]. now intros Heq; injection Heq.
Qed.

Lemma path_order_asymmetric (mode1 mode2 : Z) (name1 : string) :
  forall name2,
    path_order mode1 name1 mode2 name2 = 0 ->
    path_order mode2 name2 mode1 name1 = TREE_UNORDERED.
Proof.
  induction name1 as [|c1 rest1 IH]; intros [|c2 rest2];
    cbn [path_order].
  - discriminate.
  - destruct (N.ltb_spec (byte_val (virtual_end mode1)) (byte_val c2))
      as [Hlt|Hge]; [|discriminate].
    intros _. destruct (N.ltb_spec (byte_val c2)
                          (byte_val (virtual_end mode1))); [lia|reflexivity].
  - destruct (N.ltb_spec (byte_val c1) (byte_val (virtual_end mode2)))
      as [Hlt|Hge]; [|discriminate].
    intros _. destruct (N.ltb_spec (byte_val (virtual_end mode2))
                          (byte_val c1)); [lia|reflexivity].
  - destruct (N.ltb_spec (byte_val c1) (byte_val c2)) as [Hlt|Hge].
    { intros _. destruct (N.ltb_spec (byte_val c2) (byte_val c1)); [lia|].
      reflexivity. }
    destruct (N.ltb_spec (byte_val c2) (byte_val c1)) as [Hgt|Hle];
      [discriminate|].
    apply IH.
Qed.

(** X20: two entries are duplicates for [verify_ordered] exactly when
    their names are the same, whatever their modes: a file and a
    directory of one name are duplicates too. *)
Theorem verify_ordered_dups_iff_same_name (mode1 mode2 : Z)
  (name1 name2 : string) :
  no_nul name1 -> no_nul name2 ->
  (verify_ordered mode1 name1 mode2 name2 = TREE_HAS_DUPS
   <-> name1 = name2).
Proof.
  intros Hno1 Hno2.
  rewrite (verify_ordered_path_order mode1 mode2 name1 name2 Hno1 Hno2).
  apply path_order_dups.
Qed.

Lemma verify_ordered_dups_iff_same_name_witness :
  verify_ordered (Z.lor S_IFREG 420) "a" S_IFDIR "a" = TREE_HAS_DUPS
  <-> "a" = "a".
Proof.
  apply (verify_ordered_dups_iff_same_name (Z.lor S_IFREG 420) S_IFDIR
           "a" "a");
    intros [|[|i]] Hi; cbn in Hi; try lia; discriminate.
Defined.

(** X21: the order that [verify_ordered] accepts is asymmetric: two
    entries that are in order one way round are out of order the other
    way round. *)
Theorem verify_ordered_asymmetric (mode1 mode2 : Z)
  (name1 name2 : string) :
  no_nul name1 -> no_nul name2 ->
  verify_ordered mode1 name1 mode2 name2 = 0 ->
  verify_ordered mode2 name2 mode1 name1 = TREE_UNORDERED.
Proof.
  intros Hno1 Hno2.
  rewrite (verify_ordered_path_order mode1 mode2 name1 name2 Hno1 Hno2),
    (verify_ordered_path_order mode2 mode1 name2 name1 Hno2 Hno1).
  apply path_order_asymmetric.
Qed.

Lemma verify_ordered_asymmetric_witness :
  verify_ordered S_IFDIR "a" (Z.lor S_IFREG 420) "a.c" = TREE_UNORDERED.
Proof.
  apply (verify_ordered_asymmetric (Z.lor S_IFREG 420) S_IFDIR "a.c" "a").
  - intros [|[|[|[|i]]]] Hi; cbn in Hi; try lia; discriminate.
  - intros [|[|i]] Hi; cbn in Hi; try lia; discriminate.
  - reflexivity.
Defined.

Lemma no_nul_append (a b : string) :
  no_nul a -> no_nul b -> no_nul (a +:+ b).
Proof.
  intros Ha Hb i Hi. rewrite length_append in Hi.
  destruct (Nat.lt_ge_cases i (String.length a)) as [Hlt|Hge].
  - rewrite char_at_append_l by exact Hlt. now apply Ha.
  - replace i with (String.length a + (i - String.length a))%nat by lia.
    rewrite char_at_append. apply Hb. lia.
Qed.

Lemma path_order_extended_r (mode1 mode2 : Z) (name tail : string)
  (c : ascii) :
  path_order mode1 name mode2 (name +:+ String c tail)
  = if (byte_val (virtual_end mode1) <? byte_val c)%N then 0
    else TREE_UNORDERED.
Proof.
  induction name as [|d name IH]; [reflexivity|].
  rewrite append_cons. cbn [path_order].
  now rewrite N.ltb_irrefl.
Qed.

Lemma path_order_extended_l (mode1 mode2 : Z) (name tail : string)
  (c : ascii) :
  path_order mode1 (name +:+ String c tail) mode2 name
  = if (byte_val c <? byte_val (virtual_end mode2))%N then 0
    else TREE_UNORDERED.
Proof.
  induction name as [|d name IH]; [reflexivity|].
  rewrite append_cons. cbn [path_order].
  now rewrite N.ltb_irrefl.
Qed.

(** X22: duplicates are only looked for among neighbours.  A tree that
    holds a name as a file, then a longer name that starts with it and
    goes on with a byte below ['/'], then the first name again as a
    directory, is reported neither as holding duplicates nor as badly
    sorted, although the name occurs twice. *)
Theorem separated_duplicates_not_reported `{Host} (item : object)
  (options : fsck_options) (w : world) (e1 e2 e3 : tree_entry)
  (c : ascii) (tail : string) :
  no_nul (entry_name e1) -> no_nul tail ->
  entry_name e3 = entry_name e1 ->
  entry_name e2 = entry_name e1 +:+ String c tail ->
  S_ISDIR (entry_mode e1) = false ->
  S_ISDIR (entry_mode e3) = true ->
  (0 < byte_val c < 47)%N ->
  ~ reported FSCK_MSG_DUPLICATE_ENTRIES
      (events_of (fsck_tree item [e1; e2; e3] options) w)
  /\ ~ reported FSCK_MSG_TREE_NOT_SORTED
         (events_of (fsck_tree item [e1; e2; e3] options) w).
Proof.
  intros Hno1 Htail Hname3 Hname2 Hfile Hdir Hc.
  assert (Hcn : c <> NUL).
  { intros ->. cbn in Hc. lia. }
  assert (Hno2 : no_nul (entry_name e2)).
  { rewrite Hname2. apply no_nul_append; [exact Hno1|].
    intros [|i] Hi; [exact Hcn|]. apply (Htail i). cbn in Hi. lia. }
  assert (H12 : verify_ordered (entry_mode e1) (entry_name e1)
                  (entry_mode e2) (entry_name e2) = 0).
  { rewrite verify_ordered_path_order by assumption.
    rewrite Hname2, path_order_extended_r. unfold virtual_end.
    rewrite Hfile. destruct (N.ltb_spec (byte_val NUL) (byte_val c));
      [reflexivity|]. cbn in *. lia. }
  assert (H23 : verify_ordered (entry_mode e2) (entry_name e2)
                  (entry_mode e3) (entry_name e3) = 0).
  { rewrite verify_ordered_path_order by (rewrite ?Hname3; assumption).
    rewrite Hname3, Hname2, path_order_extended_l. unfold virtual_end.
    rewrite Hdir. destruct (N.ltb_spec (byte_val c) (byte_val "/"));
      [reflexivity|]. cbn in *. lia. }
  destruct (fsck_tree_reports item [e1; e2; e3] options w)
    as (r & w' & evs & Hrun & Hrep).
  rewrite (runs_events _ _ _ _ _ Hrun), !Hrep, !fsck_tree_loop_flags.
  cbn [tree_flag no_flags existsb entry_trips pairs_trip pair_trips
       has_dup_entries not_properly_sorted].
  rewrite H12, H23. split; intros Hflag; discriminate Hflag.
Qed.

Lemma separated_duplicates_not_reported_witness :
  ~ reported FSCK_MSG_DUPLICATE_ENTRIES
      (events_of
         (fsck_tree (H := example_host) skipped_tree
            (file_and_directory_x "0123456789abcdefghij")
            FSCK_OPTIONS_DEFAULT) initial_world)
  /\ ~ reported FSCK_MSG_TREE_NOT_SORTED
         (events_of
            (fsck_tree (H := example_host) skipped_tree
               (file_and_directory_x "0123456789abcdefghij")
               FSCK_OPTIONS_DEFAULT) initial_world).
Proof.
  apply (separated_duplicates_not_reported (H := example_host)
           skipped_tree FSCK_OPTIONS_DEFAULT initial_world
           (mk_tree_entry "1" (Z.lor S_IFREG 420) "x" "0123456789abcdefghij")
           (mk_tree_entry "1" (Z.lor S_IFREG 420) "x.c"
              "0123456789abcdefghij")
           (mk_tree_entry "4" S_IFDIR "x" "0123456789abcdefghij")
           "." "c").
  - intros [|[|i]] Hi; cbn in Hi; try lia; discriminate.
  - intros [|[|i]] Hi; cbn in Hi; try lia; discriminate.
  - reflexivity.
  - reflexivity.
  - reflexivity.
  - reflexivity.
  - vm_compute. split; reflexivity.
Defined.


(** ** The default policy and the default sink *)

(** X23: without overrides and without a skip list nothing is ignored:
    every [report] call reaches the sink, as [Error] for the kinds that
    are [Fatal] or [Error] by default and for [Warn] kinds under
    [strict], as [Warn] otherwise.  [Info] kinds are delivered as
    warnings and are not promoted by [strict].  When the diagnostic is
    about an object and the sink answers as [fsck_error_function] does,
    [report] returns 1 for the errors and 0 for the warnings; of a
    diagnostic without an object, which [fsck_error_function] does not
    survive, nothing of the kind is said. *)
Theorem report_without_overrides `{Host} (options : fsck_options)
  (obj : option object) (id : fsck_msg_id) (message : string) (w : world) :
  msg_type_table options = None ->
  skiplist options = None ->
  exists r,
    report options obj id message w
    = Ok (r, add_event
               (EvReport id obj
                  (Delivered
                     (if error_by_default (strict options) id
                      then FSCK_ERROR else FSCK_WARN)
                     (msg_prefix id +:+ message) r)) w)
    /\ (forall o, obj = Some o ->
        (forall severity text,
           fsck_error_function (Some o) severity text
           = Some (error_func options (Some o) severity text)) ->
        r = if error_by_default (strict options) id then 1 else 0).
Proof.
  intros Htable Hskip.
  pose proof (report_cases options obj id message w) as Hr.
  unfold deliver, policy_severity in Hr. rewrite Htable, Hskip in Hr.
  assert (Hsev :
    match default_msg_type (msg_id_info id) with
    | FSCK_WARN => if strict options then FSCK_ERROR else FSCK_WARN
    | t => t
    end <> FSCK_IGNORE
    /\ collapse
         match default_msg_type (msg_id_info id) with
         | FSCK_WARN => if strict options then FSCK_ERROR else FSCK_WARN
         | t => t
         end
       = if error_by_default (strict options) id
         then FSCK_ERROR else FSCK_WARN).
  { unfold error_by_default.
    destruct id; cbn; destruct (strict options); split;
      first [discriminate | reflexivity]. }
  destruct Hsev as [Hnot Hsev].
  rewrite bool_decide_eq_false_2 in Hr by exact Hnot.
  cbv zeta in Hr. rewrite Hsev in Hr.
  eexists. split; [exact Hr|].
  intros o -> Hsink.
  specialize (Hsink (if error_by_default (strict options) id
                     then FSCK_ERROR else FSCK_WARN)
                (msg_prefix id +:+ message)).
  cbn [fsck_error_function] in Hsink. injection Hsink as <-.
  destruct (error_by_default (strict options) id); reflexivity.
Qed.

Lemma report_without_overrides_witness :
  exists r,
    report (H := example_host) FSCK_OPTIONS_STRICT
      (Some (Tag "0123456789abcdefghij" 0 None))
      FSCK_MSG_BAD_TAG_NAME "invalid 'tag' name: a b" initial_world
    = Ok (r, add_event
               (EvReport FSCK_MSG_BAD_TAG_NAME
                  (Some (Tag "0123456789abcdefghij" 0 None))
                  (Delivered
                     (if error_by_default (strict FSCK_OPTIONS_STRICT)
                           FSCK_MSG_BAD_TAG_NAME
                      then FSCK_ERROR else FSCK_WARN)
                     (msg_prefix FSCK_MSG_BAD_TAG_NAME
                      +:+ "invalid 'tag' name: a b") r)) initial_world)
    /\ (forall o, Some (Tag "0123456789abcdefghij" 0 None) = Some o ->
        (forall severity text,
           fsck_error_function (Some o) severity text
           = Some (error_func FSCK_OPTIONS_STRICT (Some o) severity text)) ->
        r = if error_by_default (strict FSCK_OPTIONS_STRICT)
                 FSCK_MSG_BAD_TAG_NAME
            then 1 else 0).
Proof.
  apply (report_without_overrides (H := example_host) FSCK_OPTIONS_STRICT
           (Some (Tag "0123456789abcdefghij" 0 None))
           FSCK_MSG_BAD_TAG_NAME "invalid 'tag' name: a b"
           initial_world); reflexivity.
Defined.

(** ** The walker *)

Lemma walk_from_cons (res r : Z) (results : list Z) :
  walk_from res (r :: results)
  = if Z.ltb r 0 then r
    else walk_from (if Z.eqb res 0 then r else res) results.
Proof.
  unfold walk_from. cbn [List.find].
  destruct (Z.ltb_spec r 0) as [Hneg|Hpos]; [reflexivity|].
  destruct (List.find (fun r => Z.ltb r 0) results); [reflexivity|].
  destruct (Z.eqb_spec res 0) as [->|Hres].
  - destruct (Z.eqb_spec r 0) as [->|Hr]; cbn [negb]; reflexivity.
  - destruct (Z.eqb_spec res 0); [contradiction|reflexivity].
Qed.

Lemma runs_call_walk (options : fsck_options) (target : option object)
  (type : object_type) (w : world) :
  call_walk options target type w
  = Ok (walk options target type,
        add_event (EvWalk target type (walk options target type)) w).
Proof. reflexivity. Qed.

Lemma fsck_walk_parents_spec `{Host} (tree : object) (parents : list object)
  (options : fsck_options) :
  forall (res : Z) (w : world),
    let steps := map (fun p => Visit (Some p) OBJ_COMMIT) parents in
    exists w',
      fsck_walk_parents parents res options w
      = Ok (walk_from res (step_result options <$> steps), w')
      /\ log w'
         = (log w
            ++ (step_event options tree
                <$> until_negative (step_result options) steps))%list
      /\ arrays w' = arrays w.
Proof.
  induction parents as [|item next IH]; intros res w; cbv zeta.
  - exists w. cbn. rewrite app_nil_r. split; [|split; reflexivity].
    unfold walk_from. cbn.
    destruct (Z.eqb_spec res 0) as [->|_]; reflexivity.
  - cbn [fsck_walk_parents map fmap list_fmap until_negative].
    rewrite walk_from_cons. cbn [step_result].
    unfold mbind, M_bind. rewrite runs_call_walk.
    destruct (Z.ltb (walk options (Some item) OBJ_COMMIT) 0).
    + eexists. split; [reflexivity|]. split; reflexivity.
    + destruct (IH (if Z.eqb res 0
                    then walk options (Some item) OBJ_COMMIT else res)
                  (add_event
                     (EvWalk (Some item) OBJ_COMMIT
                        (walk options (Some item) OBJ_COMMIT)) w))
        as (w' & Hrun & Hlog & Harr).
      exists w'. split; [exact Hrun|]. split; [|exact Harr].
      rewrite Hlog. cbn. now rewrite <- app_assoc.
Qed.

Lemma fsck_walk_tree_loop_spec `{Host} (tree : object)
  (desc : list tree_entry) (options : fsck_options) :
  forall (res : Z) (w : world),
    let steps := omap entry_step desc in
    exists w',
      fsck_walk_tree_loop tree desc res options w
      = Ok (walk_from res (step_result options <$> steps), w')
      /\ log w'
         = (log w
            ++ (step_event options tree
                <$> until_negative (step_result options) steps))%list
      /\ arrays w' = arrays w.
Proof.
  induction desc as [|entry desc IH]; intros res w; cbv zeta.
  - exists w. cbn. rewrite app_nil_r. split; [|split; reflexivity].
    unfold walk_from. cbn.
    destruct (Z.eqb_spec res 0) as [->|_]; reflexivity.
  - cbn [fsck_walk_tree_loop omap list_omap].
    assert (Hstep : forall s result w1,
              step_result options s = result ->
              log w1 = (log w ++ [step_event options tree s])%list ->
              arrays w1 = arrays w ->
              exists w',
                (if Z.ltb result 0 then mret result
                 else fsck_walk_tree_loop tree desc
                        (if Z.eqb res 0 then result else res) options) w1
                = Ok (walk_from res
                        (step_result options <$> s :: omap entry_step desc),
                      w')
                /\ log w'
                   = (log w
                      ++ (step_event options tree
                          <$> until_negative (step_result options)
                                (s :: omap entry_step desc)))%list
                /\ arrays w' = arrays w).
    { intros s result w1 Hres Hlog Harr.
      cbn [fmap list_fmap until_negative]. rewrite walk_from_cons, Hres.
      destruct (Z.ltb result 0).
      - exists w1. split; [reflexivity|]. split; assumption.
      - destruct (IH (if Z.eqb res 0 then result else res) w1)
          as (w' & Hrun & Hlog' & Harr').
        exists w'. split; [exact Hrun|]. split; [|congruence].
        rewrite Hlog', Hlog. cbn. now rewrite <- app_assoc. }
    destruct (S_ISGITLINK (entry_mode entry)) eqn:Hgit.
    { replace (entry_step entry) with (@None walk_step)
        by (unfold entry_step; now rewrite Hgit).
      apply IH. }
    destruct (S_ISDIR (entry_mode entry)) eqn:Hdir.
    { replace (entry_step entry)
        with (Some (Visit (lookup_tree (entry_oid entry)) OBJ_TREE))
        by (unfold entry_step; now rewrite Hgit, Hdir).
      apply Hstep; reflexivity. }
    destruct (S_ISREG (entry_mode entry) || S_ISLNK (entry_mode entry))
      eqn:Hreg.
    { replace (entry_step entry)
        with (Some (Visit (lookup_blob (entry_oid entry)) OBJ_BLOB))
        by (unfold entry_step; now rewrite Hgit, Hdir, Hreg).
      apply Hstep; reflexivity. }
    replace (entry_step entry) with (Some (BadMode entry))
      by (unfold entry_step; now rewrite Hgit, Hdir, Hreg).
    apply (Hstep (BadMode entry) (-1)
             (add_event (step_event options tree (BadMode entry)) w));
      reflexivity.
Qed.

(** X24: the walk of a parsed commit calls the callback on the tree and
    then on the parents in their order, up to and with the first call
    whose result is negative; it returns that negative result, else the
    first result that is not 0, else 0.  It makes no [report] call and
    leaves the skip lists alone. *)
Theorem fsck_walk_commit_visits `{Host} (oid : sha1) (tree : option object)
  (parents : list object) (options : fsck_options) (w : world) :
  exists w',
    fsck_walk (Some (Commit oid 0 tree parents)) options w
    = Ok (walk_from 0 (step_result options <$> commit_steps tree parents),
          w')
    /\ log w'
       = (log w
          ++ (step_event options (Commit oid 0 tree parents)
              <$> until_negative (step_result options)
                    (commit_steps tree parents)))%list
    /\ arrays w' = arrays w.
Proof.
  cbn [fsck_walk]. unfold fsck_walk_commit, commit_steps.
  cbn [Z.eqb negb fmap list_fmap until_negative step_result].
  rewrite walk_from_cons. cbn [Z.eqb].
  unfold mbind, M_bind. rewrite runs_call_walk.
  destruct (Z.ltb (walk options tree OBJ_TREE) 0).
  - eexists. split; [reflexivity|]. split; reflexivity.
  - destruct (fsck_walk_parents_spec (Commit oid 0 tree parents) parents
                options (walk options tree OBJ_TREE)
                (add_event
                   (EvWalk tree OBJ_TREE (walk options tree OBJ_TREE)) w))
      as (w' & Hrun & Hlog & Harr).
    exists w'. split; [exact Hrun|]. split; [|exact Harr].
    rewrite Hlog. cbn. now rewrite <- app_assoc.
Qed.

(** X25: the walk of a parsed tree takes its entries in order.  Gitlinks
    are passed over; directories are handed to the callback as trees,
    files and links as blobs; an entry of any other mode is complained
    about and counts as the result -1.  The walk ends with the first
    negative result and returns it, so it goes no further than a
    bad-mode entry; else it returns the first result that is not 0, else
    0. *)
Theorem fsck_walk_tree_visits `{Host} (oid : sha1)
  (buffer : list tree_entry) (options : fsck_options) (w : world) :
  exists w',
    fsck_walk (Some (Tree oid 0 buffer)) options w
    = Ok (walk_from 0 (step_result options <$> omap entry_step buffer), w')
    /\ log w'
       = (log w
          ++ (step_event options (Tree oid 0 buffer)
              <$> until_negative (step_result options)
                    (omap entry_step buffer)))%list
    /\ arrays w' = arrays w.
Proof.
  cbn [fsck_walk]. unfold fsck_walk_tree. cbn [Z.eqb negb].
  apply (fsck_walk_tree_loop_spec (Tree oid 0 buffer) buffer options 0 w).
Qed.

(** ** Identity lines that pass *)

Lemma free_of_append (reject a b : string) :
  free_of reject a -> free_of reject b -> free_of reject (a +:+ b).
Proof.
  intros Ha Hb. unfold free_of.
  rewrite strcspn_append by exact Ha. rewrite Hb, length_append.
  reflexivity.
Qed.

Lemma free_of_LF (s : string) :
  free_of angle_or_LF s -> free_of (String LF EmptyString) s.
Proof.
  induction s as [|c s IH]; [reflexivity|].
  intros Hs. apply free_of_cons in Hs as [Hc Hs].
  apply free_of_cons. split; [|now apply IH].
  unfold angle_or_LF in Hc. cbn [mem_char] in Hc |- *.
  apply orb_false_elim in Hc as [_ Hc].
  apply orb_false_elim in Hc as [_ Hc]. exact Hc.
Qed.

Lemma next_line_after (line rest : string) :
  free_of (String LF EmptyString) line ->
  next_line (line +:+ String LF rest) = rest.
Proof.
  intros Hline. unfold next_line. cbv zeta.
  rewrite strcspn_append by exact Hline.
  cbn [strcspn]. change (mem_char LF (String LF EmptyString)) with true.
  cbv iota. rewrite char_at_append, advance_plus, advance_plus.
  rewrite advance_append. reflexivity.
Qed.

Lemma isdigit_not_LF (c : ascii) :
  isdigit c = true -> Ascii.eqb c LF = false.
Proof.
  intros Hc. destruct (Ascii.eqb_spec c LF) as [->|_]; [|reflexivity].
  discriminate Hc.
Qed.

(** X26: a well-formed identity line passes [fsck_ident] without a
    diagnostic, and [*ident] is left behind its LF: a name that ends in a
    space and an e-mail in angle brackets, neither holding ['<'], ['>'] or
    LF, a space, a date that [strtoul] reads to its end, that does not
    overflow and has no leading zero unless it is ["0"], a space, a sign,
    four digits and LF. *)
Theorem fsck_ident_accepts `{Host} (name email date rest : string)
  (sign d1 d2 d3 d4 : ascii) (v : N) (obj : option object)
  (options : fsck_options) (w : world) :
  name <> EmptyString ->
  free_of angle_or_LF name ->
  char_at name (String.length name - 1) = " "%char ->
  free_of angle_or_LF email ->
  date <> EmptyString ->
  free_of (String LF EmptyString) date ->
  char_at date 0 <> "0"%char \/ date = "0" ->
  strtoul (date_and_zone date sign d1 d2 d3 d4 rest)
  = (v, String.length date) ->
  date_overflows v = false ->
  sign = "+"%char \/ sign = "-"%char ->
  isdigit d1 = true -> isdigit d2 = true ->
  isdigit d3 = true -> isdigit d4 = true ->
  fsck_ident
    (ident_line name email (date_and_zone date sign d1 d2 d3 d4 rest))
    obj options w
  = Ok ((0, rest), w).
Proof.
  intros Hne Hname Hlast Hemail Hdate HdateLF Hzero Hstr Hover Hsign
    Hd1 Hd2 Hd3 Hd4.
  set (R := date_and_zone date sign d1 d2 d3 d4 rest) in *.
  set (ident := ident_line name email R).
  set (n := String.length name). set (m := String.length email).
  set (ld := String.length date).
  assert (Hnext : next_line ident = rest).
  { unfold ident, ident_line, R, date_and_zone.
    transitivity
      (next_line
         ((name
           +:+ String "<"
                 (email
                  +:+ String ">"
                        (String " "
                           (date
                            +:+ String " "
                                  (String sign
                                     (String d1
                                        (String d2
                                           (String d3
                                              (String d4 EmptyString)))))))))
          +:+ String LF rest)).
    { f_equal.
      repeat first [rewrite append_assoc | rewrite append_cons].
      reflexivity. }
    apply next_line_after.
    apply free_of_append; [now apply free_of_LF|].
    apply free_of_cons. split; [reflexivity|].
    apply free_of_append; [now apply free_of_LF|].
    apply free_of_cons. split; [reflexivity|].
    apply free_of_cons. split; [reflexivity|].
    apply free_of_append; [exact HdateLF|].
    apply free_of_cons. split; [reflexivity|].
    apply free_of_cons. split.
    { cbn [mem_char]. destruct Hsign as [-> | ->]; reflexivity. }
    repeat (apply free_of_cons; split;
            [cbn [mem_char]; rewrite isdigit_not_LF by assumption;
             reflexivity|]).
    reflexivity. }
  assert (F1 : Ascii.eqb (char_at ident 0) "<" = false).
  { unfold ident, ident_line. destruct name as [|c name']; [congruence|].
    apply free_of_cons in Hname as [Hc _].
    apply mem_angle_or_LF in Hc as [Hc _]. exact Hc. }
  assert (F2 : (0 + strcspn (advance 0 ident) angle_or_LF)%nat = n).
  { change (strcspn ident angle_or_LF = n).
    unfold ident, ident_line. rewrite strcspn_append by exact Hname.
    cbn [strcspn]. change (mem_char "<" angle_or_LF) with true.
    cbv iota. fold n. lia. }
  assert (F3 : char_at ident n = "<"%char).
  { unfold ident, ident_line, n.
    rewrite <- (Nat.add_0_r (String.length name)).
    rewrite char_at_append. reflexivity. }
  assert (F4 : char_at ident (n - 1) = " "%char).
  { unfold ident, ident_line. rewrite char_at_append_l; [exact Hlast|].
    destruct name; [congruence|]. cbn. lia. }
  assert (F5 : (S n + strcspn (advance (S n) ident) angle_or_LF)%nat
               = (S n + m)%nat).
  { f_equal. unfold ident, ident_line, n.
    replace (S (String.length name)) with (String.length name + 1)%nat
      by lia.
    rewrite advance_plus, advance_append. cbn [advance].
    rewrite strcspn_append by exact Hemail. cbn [strcspn].
    change (mem_char ">" angle_or_LF) with true. cbv iota. fold m. lia. }
  assert (F6 : forall k, char_at ident (S n + m + k)
                         = char_at (String ">" (String " " R)) k).
  { intros k. unfold ident, n, m.
    rewrite <- ident_line_chars with (name := name) (email := email).
    f_equal. lia. }
  assert (E6 : char_at ident (S n + m) = ">"%char).
  { rewrite <- (Nat.add_0_r (S n + m)), F6. reflexivity. }
  assert (E7 : char_at ident (S (S n + m)) = " "%char).
  { replace (S (S n + m)) with (S n + m + 1)%nat by lia.
    rewrite F6. reflexivity. }
  assert (G : forall k, char_at ident (S (S (S n + m)) + k) = char_at R k).
  { intros k. replace (S (S (S n + m)) + k)%nat
      with (S n + m + S (S k))%nat by lia.
    rewrite F6. reflexivity. }
  assert (Hadv : advance (S (S (S n + m))) ident = R).
  { unfold ident, ident_line, n, m.
    replace (S (S (S (String.length name) + String.length email)))
      with (String.length name + (1 + (String.length email + 2)))%nat
      by lia.
    rewrite advance_plus, advance_append.
    rewrite advance_plus. cbn [advance].
    rewrite advance_plus, advance_append. reflexivity. }
  assert (Z : forall k, char_at R (ld + S k)
                        = char_at
                            (String sign
                               (String d1
                                  (String d2
                                     (String d3
                                        (String d4 (String LF rest)))))) k).
  { intros k. unfold R, date_and_zone, ld.
    rewrite char_at_append, char_at_cons_S. reflexivity. }
  assert (Hsp : char_at R ld = " "%char).
  { unfold R, date_and_zone, ld.
    rewrite <- (Nat.add_0_r (String.length date)), char_at_append.
    reflexivity. }
  assert (Hld : ld <> O).
  { unfold ld. destruct date; [congruence|discriminate]. }
  assert (Hpad : Ascii.eqb (char_at R 0) "0"
                 && negb (Ascii.eqb (char_at R 1) " ") = false).
  { unfold R, date_and_zone. destruct Hzero as [Hz| ->].
    - destruct date as [|c date']; [congruence|].
      rewrite append_cons. cbn in Hz |- *.
      destruct (Ascii.eqb_spec c "0"); [contradiction|reflexivity].
    - reflexivity. }
  unfold fsck_ident. cbv zeta. fold ident. fold (next_line ident).
  rewrite Hnext, F1, F2, F3, F4, F5, E6, E7.
  change (Ascii.eqb "<" ">") with false.
  change (negb (Ascii.eqb "<" "<")) with false.
  change (negb (Ascii.eqb " " " ")) with false.
  change (negb (Ascii.eqb ">" ">")) with false.
  cbv iota.
  assert (E8 : char_at ident (S (S (S n + m))) = char_at R 0).
  { rewrite <- (G 0%nat). f_equal. lia. }
  assert (E9 : char_at ident (S (S (S (S n + m)))) = char_at R 1).
  { rewrite <- (G 1%nat). f_equal. lia. }
  rewrite E8, E9, Hpad, Hadv, Hstr, Hover.
  fold ld.
  assert (T : forall k,
            char_at ident (S (S (S (S n + m)) + ld) + k)
            = char_at
                (String sign
                   (String d1
                      (String d2
                         (String d3 (String d4 (String LF rest)))))) k).
  { intros k. rewrite <- Z, <- G. f_equal. lia. }
  assert (T0 : char_at ident (S (S (S (S n + m)) + ld)) = sign).
  { rewrite <- (Nat.add_0_r (S (S (S (S n + m)) + ld))), T. reflexivity. }
  rewrite G, Hsp, T0, !T.
  destruct (Nat.eqb_spec (S (S (S n + m)) + ld) (S (S (S n + m))))
    as [Heq|_]; [lia|].
  change (negb (Ascii.eqb " " " ")) with false.
  cbn [orb char_at String.get].
  rewrite Hd1, Hd2, Hd3, Hd4.
  change (Ascii.eqb LF LF) with true.
  destruct Hsign as [-> | ->]; reflexivity.
Qed.

Lemma fsck_ident_accepts_witness :
  fsck_ident (H := example_host)
    (ident_line "A U Thor " "author@example.com"
       (date_and_zone "1234567890" "+" "0" "1" "0" "0" "committer "))
    None FSCK_OPTIONS_DEFAULT initial_world
  = Ok ((0, "committer "), initial_world).
Proof.
  apply (fsck_ident_accepts (H := example_host) "A U Thor "
           "author@example.com" "1234567890" "committer "
           "+" "0" "1" "0" "0" 1234567890%N None FSCK_OPTIONS_DEFAULT
           initial_world).
  - discriminate.
  - reflexivity.
  - reflexivity.
  - reflexivity.
  - discriminate.
  - reflexivity.
  - left. discriminate.
  - reflexivity.
  - reflexivity.
  - left. reflexivity.
  - reflexivity.
  - reflexivity.
  - reflexivity.
  - reflexivity.
Defined.

(** ** Tags and commits that pass *)

Lemma skip_prefix_append (prefix rest : string) :
  skip_prefix (prefix +:+ rest) prefix = Some rest.
Proof.
  induction prefix as [|c prefix IH]; [now destruct rest|].
  rewrite append_cons. cbn [skip_prefix]. now rewrite Ascii.eqb_refl.
Qed.

Lemma strchr_append (line rest : string) (c : ascii) :
  free_of (String c EmptyString) line ->
  strchr (line +:+ String c rest) c = Some (String.length line).
Proof.
  induction line as [|d line IH]; intros Hfree.
  - change (strchr (String c rest) c = Some 0%nat).
    cbn [strchr]. now rewrite Ascii.eqb_refl.
  - apply free_of_cons in Hfree as [Hd Hfree].
    rewrite append_cons. cbn [strchr String.length].
    cbn [mem_char] in Hd. rewrite orb_false_r in Hd.
    rewrite Hd, (IH Hfree). reflexivity.
Qed.

(** The C string at a pointer, and the bytes from the pointer on. *)
Lemma length_c_str (s : string) :
  (String.length (c_str s) <= String.length s)%nat.
Proof.
  induction s as [|c s IH]; cbn [c_str]; [reflexivity|].
  destruct (is_nul c); cbn [String.length]; lia.
Qed.

Lemma skip_prefix_c_str (prefix s : string) :
  c_str prefix = prefix ->
  skip_prefix (c_str s) prefix = c_str <$> skip_prefix s prefix.
Proof.
  revert s. induction prefix as [|a prefix IH]; intros s Hprefix.
  - assert (Hnil : forall str, skip_prefix str EmptyString = Some str)
      by now intros [|? ?].
    now rewrite !Hnil.
  - cbn [c_str] in Hprefix.
    destruct (is_nul a) eqn:Ha; [discriminate|].
    injection Hprefix as Hprefix.
    destruct s as [|c s]; [reflexivity|].
    cbn [c_str]. destruct (is_nul c) eqn:Hc.
    + cbn [skip_prefix].
      destruct (Ascii.eqb_spec a c) as [->|_]; [congruence|reflexivity].
    + cbn [skip_prefix].
      destruct (Ascii.eqb a c); [now apply IH|reflexivity].
Qed.

(** A step of [n] bytes inside the C string at the pointer stays inside
    the buffer, and arrives at the rest of that C string. *)
Lemma c_str_advance (n : nat) (s : string) :
  (n <= String.length (c_str s))%nat ->
  (n <= String.length s)%nat /\ c_str (advance n s) = advance n (c_str s).
Proof.
  revert s. induction n as [|n IH]; intros s Hn.
  - split; [lia|reflexivity].
  - destruct s as [|c s]; [cbn in Hn; lia|].
    cbn [c_str] in Hn |- *. destruct (is_nul c); [cbn in Hn; lia|].
    cbn [String.length] in Hn. destruct (IH s) as [Hle Heq]; [lia|].
    cbn [String.length advance]. split; [lia|exact Heq].
Qed.

Lemma step_over_line `{Host} (hex rest buffer : string) (w : world) :
  String.length hex = 40%nat ->
  c_str buffer = hex +:+ String LF rest ->
  exists buffer',
    step_over 41 buffer w = Ok (buffer', w) /\ c_str buffer' = rest.
Proof.
  intros Hlen Hbuf.
  destruct (c_str_advance 41 buffer) as [Hle Heq].
  { rewrite Hbuf, length_append. cbn [String.length]. lia. }
  exists (advance 41 buffer). split.
  - unfold step_over. apply Nat.leb_le in Hle. now rewrite Hle.
  - rewrite Heq, Hbuf.
    replace 41%nat with (String.length hex + 1)%nat by lia.
    now rewrite advance_plus, advance_append.
Qed.

Lemma skip_prefix_line (prefix rest buffer : string) :
  c_str prefix = prefix ->
  c_str buffer = prefix +:+ rest ->
  exists buffer',
    skip_prefix buffer prefix = Some buffer' /\ c_str buffer' = rest.
Proof.
  intros Hprefix Hbuf.
  pose proof (skip_prefix_c_str prefix buffer Hprefix) as Hskip.
  rewrite Hbuf, skip_prefix_append in Hskip.
  destruct (skip_prefix buffer prefix) as [buffer'|]; [|discriminate].
  injection Hskip as Hskip. now exists buffer'.
Qed.

(** X27: a well-formed tag passes without a diagnostic.  When the header
    check passes, the header reads [object], [type], [tag] and [tagger]
    in this order, the object name is 40 hexadecimal digits, the host
    knows the type name and accepts the tag name as a reference name, and
    the tagger line passes [fsck_ident], then [fsck_tag] returns 0 and
    makes no [report] call. *)
Theorem fsck_tag_accepts `{Host} (tag tagged : object)
  (buffer hex type name tagger next : string) (options : fsck_options)
  (w : world) :
  verify_headers buffer (Some tag) options w = Ok (0, w) ->
  c_str buffer = tag_lines hex type name tagger ->
  String.length hex = 40%nat ->
  bad_sha1_line
    (hex
     +:+ String LF
           ("type "
            +:+ (type
                 +:+ String LF
                       ("tag "
                        +:+ (name +:+ String LF ("tagger " +:+ tagger))))))
  = false ->
  free_of (String LF EmptyString) type ->
  0 <= type_from_string_gently type ->
  free_of (String LF EmptyString) name ->
  check_refname_format ("refs/tags/" +:+ name) = 0 ->
  fsck_ident tagger (Some tag) options w = Ok ((0, next), w) ->
  fsck_tag tag (Some tagged) (Some buffer) options w = Ok (0, w).
Proof.
  intros Hhdr Hbuf Hlen Hhex Htype Hknown Hname Href Hident.
  unfold fsck_tag, fsck_tag_buffer, fsck_tag_lines.
  unfold mbind at 1, M_bind at 1. rewrite Hhdr. cbn [Z.eqb negb].
  destruct (skip_prefix_line "object " _ buffer eq_refl Hbuf)
    as (line & -> & Hline).
  rewrite Hline, Hhex.
  unfold mbind at 1, M_bind at 1, mret at 1, M_ret at 1.
  cbn [Z.eqb negb].
  destruct (step_over_line hex _ line w Hlen Hline)
    as (behind & Hstep & Hbehind).
  unfold mbind at 1, M_bind at 1. rewrite Hstep, Hbehind.
  rewrite skip_prefix_append, strchr_append by exact Htype.
  rewrite take_bytes_append.
  destruct (Z.ltb_spec (type_from_string_gently type) 0) as [Hneg|_];
    [lia|].
  unfold mbind at 1, M_bind at 1, mret at 1, M_ret at 1.
  cbn [Z.eqb negb].
  rewrite advance_plus, advance_append. cbn [advance].
  rewrite skip_prefix_append, strchr_append by exact Hname.
  rewrite take_bytes_append, Href.
  unfold mbind at 1, M_bind at 1, mret at 1, M_ret at 1.
  cbn [Z.eqb negb].
  rewrite advance_plus, advance_append. cbn [advance].
  rewrite skip_prefix_append.
  unfold mbind, M_bind. rewrite Hident. reflexivity.
Qed.

Lemma fsck_tag_accepts_witness :
  fsck_tag (H := lenient_host) (Tag "0123456789abcdefghij" 0 None)
    (Some skipped_tree) (Some example_tag_buffer) FSCK_OPTIONS_STRICT
    initial_world
  = Ok (0, initial_world).
Proof.
  apply (fsck_tag_accepts (H := lenient_host)
           (Tag "0123456789abcdefghij" 0 None) skipped_tree
           example_tag_buffer example_hex "commit" "v1.0"
           (thor_line +:+ String LF "message") (String LF "message")
           FSCK_OPTIONS_STRICT initial_world).
  - reflexivity.
  - reflexivity.
  - reflexivity.
  - reflexivity.
  - reflexivity.
  - vm_compute. discriminate.
  - reflexivity.
  - reflexivity.
  - reflexivity.
Defined.

Lemma length_parent_block (hexes : list string) (rest : string) :
  (length hexes <= String.length (parent_block hexes rest))%nat.
Proof.
  induction hexes as [|hex hexes IH]; cbn [parent_block List.length];
    [lia|].
  rewrite !length_append. cbn [String.length]. lia.
Qed.

(** The loop over the [parent] lines of a well-formed commit. *)
Lemma parent_lines_block `{Host} (hexes : list string) (rest : string)
  (obj : option object) (options : fsck_options) (w : world) :
  Forall names_object hexes ->
  skip_prefix rest "parent " = None ->
  forall (fuel count : nat) (buffer : string),
    c_str buffer = parent_block hexes rest ->
    exists buffer',
      parent_lines (length hexes + S fuel) buffer count obj options w
      = Ok (inr (buffer', (count + length hexes)%nat), w)
      /\ c_str buffer' = rest.
Proof.
  intros Hhexes Hrest.
  induction Hhexes as [|hex hexes [Hlen Hhex] _ IH];
    intros fuel count buffer Hbuf.
  - cbn [parent_block] in Hbuf.
    cbn [List.length Nat.add parent_lines].
    pose proof (skip_prefix_c_str "parent " buffer eq_refl) as Hskip.
    rewrite Hbuf, Hrest in Hskip.
    destruct (skip_prefix buffer "parent "); [discriminate|].
    exists buffer. rewrite Nat.add_0_r. split; [reflexivity|exact Hbuf].
  - cbn [parent_block] in Hbuf.
    cbn [List.length Nat.add parent_lines].
    destruct (skip_prefix_line "parent " _ buffer eq_refl Hbuf)
      as (line & -> & Hline).
    rewrite Hline, Hhex.
    unfold mbind at 1, M_bind at 1, mret at 1, M_ret at 1.
    cbn [Z.eqb negb].
    destruct (step_over_line hex _ line w Hlen Hline)
      as (behind & Hstep & Hbehind).
    unfold mbind at 1, M_bind at 1. rewrite Hstep.
    destruct (IH fuel (S count) behind Hbehind) as (buffer' & Hrun & Hend).
    exists buffer'. split; [|exact Hend].
    rewrite Hrun.
    replace (S count + length hexes)%nat with (count + S (length hexes))%nat
      by lia.
    reflexivity.
Qed.

(** X28: a well-formed commit passes without a diagnostic.  When the
    header check passes, the header reads [tree], the [parent] lines,
    [author] and [committer] in this order, the object names are 40
    hexadecimal digits each, there is no graft and as many parents as
    [parent] lines, the tree is there, and the author and committer lines
    pass [fsck_ident], then [fsck_commit] returns 0 and makes no [report]
    call. *)
Theorem fsck_commit_accepts `{Host} (commit tree : object)
  (parents : list object) (buffer tree_hex author committer next : string)
  (hexes : list string) (options : fsck_options) (w : world) :
  verify_headers buffer (Some commit) options w = Ok (0, w) ->
  c_str buffer = commit_lines tree_hex hexes author ->
  names_object tree_hex ->
  Forall names_object hexes ->
  lookup_commit_graft (obj_hash commit) = None ->
  length parents = length hexes ->
  fsck_ident author (Some commit) options w
  = Ok ((0, "committer " +:+ committer), w) ->
  fsck_ident committer (Some commit) options w = Ok ((0, next), w) ->
  fsck_commit commit (Some tree) parents (Some buffer) options w
  = Ok (0, w).
Proof.
  intros Hhdr Hbuf [Hlen Htree] Hhexes Hgraft Hcount Hauthor Hcommitter.
  unfold fsck_commit, fsck_commit_buffer.
  unfold mbind at 1, M_bind at 1. rewrite Hhdr. cbn [Z.eqb negb].
  destruct (skip_prefix_line "tree " _ buffer eq_refl Hbuf)
    as (line & -> & Hline).
  rewrite Hline, Htree.
  unfold mbind at 1, M_bind at 1, mret at 1, M_ret at 1.
  cbn [Z.eqb negb].
  destruct (step_over_line tree_hex _ line w Hlen Hline)
    as (behind & Hstep & Hbehind).
  unfold mbind at 1, M_bind at 1. rewrite Hstep.
  pose proof (length_parent_block hexes ("author " +:+ author)) as Hblock.
  rewrite <- Hbehind in Hblock.
  pose proof (length_c_str behind) as Hraw.
  replace (S (String.length behind))
    with (length hexes + S (String.length behind - length hexes))%nat by lia.
  destruct (parent_lines_block hexes ("author " +:+ author) (Some commit)
              options w Hhexes eq_refl
              (String.length behind - length hexes) 0 behind Hbehind)
    as (ahead & Hparents & Hahead).
  unfold mbind at 1, M_bind at 1. rewrite Hparents.
  rewrite Hgraft, Hcount. cbn [Nat.add]. rewrite Nat.eqb_refl.
  unfold mbind at 1, M_bind at 1, mret at 1, M_ret at 1.
  cbn [Z.eqb negb]. rewrite Hahead.
  assert (Hloop : forall fuel,
            author_lines (S (S fuel)) ("author " +:+ author) 0
              (Some commit) options w
            = Ok (inr ("committer " +:+ committer, 1%nat), w)).
  { intros fuel. cbn [author_lines]. rewrite skip_prefix_append.
    unfold mbind, M_bind. rewrite Hauthor. reflexivity. }
  replace (S (String.length ("author " +:+ author)))
    with (S (S (String.length ("author " +:+ author) - 1)))
    by (rewrite length_append; cbn [String.length]; lia).
  unfold mbind at 1, M_bind at 1. rewrite Hloop.
  cbn [Nat.ltb Nat.leb].
  unfold mbind at 1, M_bind at 1, mret at 1, M_ret at 1.
  cbn [Z.eqb negb].
  rewrite skip_prefix_append.
  unfold mbind, M_bind. rewrite Hcommitter. reflexivity.
Qed.

Lemma fsck_commit_accepts_witness :
  fsck_commit (H := example_host)
    (Commit "0123456789abcdefghij" 0 (Some skipped_tree)
       [skipped_tree; skipped_tree])
    (Some skipped_tree) [skipped_tree; skipped_tree]
    (Some example_commit_buffer) FSCK_OPTIONS_STRICT initial_world
  = Ok (0, initial_world).
Proof.
  apply (fsck_commit_accepts (H := example_host)
           (Commit "0123456789abcdefghij" 0 (Some skipped_tree)
              [skipped_tree; skipped_tree])
           skipped_tree [skipped_tree; skipped_tree]
           example_commit_buffer example_hex
           (thor_line
            +:+ ("committer " +:+ (thor_line +:+ String LF "message")))
           (thor_line +:+ String LF "message") (String LF "message")
           [example_hex; example_hex] FSCK_OPTIONS_STRICT initial_world).
  - reflexivity.
  - reflexivity.
  - split; [reflexivity|]. intros rest. reflexivity.
  - repeat constructor.
  - reflexivity.
  - reflexivity.
  - reflexivity.
  - reflexivity.
Defined.

(** ** What the walker and [fsck_ident] never do *)

Lemma quiet_mret {A} (a : A) : quiet (mret a).
Proof.
  intros w. exists a, w, []. split; [apply runs_mret|].
  split; [reflexivity|constructor].
Qed.

Lemma quiet_emit (e : event) : event_kind e = None -> quiet (emit e).
Proof.
  intros He w. exists tt, (add_event e w), [e].
  split; [split; reflexivity|].
  split; [reflexivity|]. constructor; [exact He|constructor].
Qed.

Lemma quiet_bind {A B} (m : M A) (k : A -> M B) :
  quiet m -> (forall a, quiet (k a)) -> quiet (m ≫= k).
Proof.
  intros Hm Hk w.
  destruct (Hm w) as (a & w1 & evs1 & Hrun1 & Harr1 & Hev1).
  destruct (Hk a w1) as (b & w2 & evs2 & Hrun2 & Harr2 & Hev2).
  exists b, w2, (evs1 ++ evs2)%list.
  split; [eapply runs_bind; eassumption|].
  split; [congruence|now apply Forall_app].
Qed.

Lemma quiet_if {A} (c : bool) (m1 m2 : M A) :
  quiet m1 -> quiet m2 -> quiet (if c then m1 else m2).
Proof. now destruct c. Qed.

Ltac prove_quiet :=
  repeat first
    [ apply quiet_mret
    | apply quiet_emit; reflexivity
    | apply quiet_if
    | apply quiet_bind; [|intros ?] ].

Lemma fsck_walk_tree_loop_quiet `{Host} (tree : object)
  (desc : list tree_entry) (options : fsck_options) :
  forall res, quiet (fsck_walk_tree_loop tree desc res options).
Proof.
  induction desc as [|entry desc IH]; intros res;
    cbn [fsck_walk_tree_loop]; [apply quiet_mret|].
  apply quiet_if; [apply IH|].
  apply quiet_bind.
  - unfold call_walk, error. prove_quiet.
  - intros result. apply quiet_if; [apply quiet_mret|apply IH].
Qed.

Lemma fsck_walk_parents_quiet (parents : list object)
  (options : fsck_options) :
  forall res, quiet (fsck_walk_parents parents res options).
Proof.
  induction parents as [|item next IH]; intros res;
    cbn [fsck_walk_parents]; [apply quiet_mret|].
  apply quiet_bind; [unfold call_walk; prove_quiet|].
  intros result. apply quiet_if; [apply quiet_mret|apply IH].
Qed.

(** X29: [fsck_walk] makes no [report] call and leaves every skip list as
    it was, whatever the object and whatever the callback answers: all it
    does is call the callback and complain with [error]. *)
Theorem fsck_walk_never_reports `{Host} (obj : option object)
  (options : fsck_options) (w : world) :
  exists r w' evs,
    runs (fsck_walk obj options) w r w' evs
    /\ arrays w' = arrays w
    /\ Forall (fun e => event_kind e = None) evs.
Proof.
  revert w. change (quiet (fsck_walk obj options)).
  destruct obj as [[oid|oid parsed buffer|oid parsed tree parents
                    |oid parsed tagged|type oid]|];
    cbn [fsck_walk];
    unfold fsck_walk_tree, fsck_walk_commit, fsck_walk_tag, call_walk,
      error.
  - apply quiet_mret.
  - apply quiet_if; [apply quiet_mret|apply fsck_walk_tree_loop_quiet].
  - apply quiet_if; [apply quiet_mret|].
    apply quiet_bind; [prove_quiet|].
    intros result.
    apply quiet_if; [apply quiet_mret|apply fsck_walk_parents_quiet].
  - prove_quiet.
  - prove_quiet.
  - apply quiet_mret.
Qed.

Lemma reports_once_if (obj : option object) (next : string) (c : bool)
  (m1 m2 : M (Z * string)) :
  reports_once obj next m1 -> reports_once obj next m2 ->
  reports_once obj next (if c then m1 else m2).
Proof. now destruct c. Qed.

Lemma reports_once_mret (obj : option object) (next : string) :
  reports_once obj next (mret (0, next)).
Proof.
  intros w. exists 0, w, []. split; [apply runs_mret|]. now left.
Qed.

Lemma reports_once_fail `{Host} (obj : option object) (next : string)
  (options : fsck_options) (id : fsck_msg_id) (message : string) :
  reports_once obj next
    (report options obj id message ≫= (fun r => mret (r, next))).
Proof.
  intros w.
  destruct (report_sink_value options obj id message w)
    as (r & w' & d & Hrun & He & _).
  exists r, w', [EvReport id obj d]. split.
  - change [EvReport id obj d] with ([EvReport id obj d] ++ [])%list.
    eapply runs_bind; [exact Hrun|apply runs_mret].
  - right. eauto.
Qed.

(** X30: [fsck_ident] makes at most one [report] call, about the object,
    and returns what it returned (0 when there was none); and with or
    without a diagnostic it leaves [*ident] at the start of the next
    line, so that a caller whose sink returned 0 goes on behind the
    line. *)
Theorem fsck_ident_reports_once `{Host} (ident : string)
  (obj : option object) (options : fsck_options) (w : world) :
  exists r w' evs,
    runs (fsck_ident ident obj options) w (r, next_line ident) w' evs
    /\ ((evs = [] /\ r = 0)
        \/ exists id d,
             evs = [EvReport id obj d]
             /\ event_result (EvReport id obj d) = r).
Proof.
  revert w. change (reports_once obj (next_line ident)
                      (fsck_ident ident obj options)).
  unfold fsck_ident. cbv zeta. fold (next_line ident).
  repeat first
    [ apply reports_once_fail
    | apply reports_once_mret
    | apply reports_once_if
    | match goal with
      | |- reports_once _ _ (let '(_, _) := ?x in _) => destruct x
      end ].
Qed.
